(** * ION system heap: tiered page allocation (drivers/gpu/ion/ion_system_heap.c)

    A shallow embedding of the system heap and of the contiguous heap of the
    ION buffer allocator, and the properties of the packer, of the pool
    bypass, of the release path and of the readiness latch.

    The kernel is a 32-bit ARM kernel: [unsigned long] and [unsigned int] are
    32 bits wide, [long] and [int] are their two's-complement readings, and a
    page is 4096 bytes.  Integers are [Z] with the wrap-around written out.

    The code talks to three collaborators that are not part of the file: the
    host page allocator, the slab allocator and the per-order page pools.
    They are state of a [world]; every call that leaves the file is appended
    to the world's [trace], so that the order of calls can be stated. *)

From Stdlib Require Import Sorted.
From Stdlib Require String.
From stdpp Require Import base list numbers.

#[local] Open Scope Z_scope.

(** ** Machine integers and pages *)

(** The target of this tree is ARMv7 (Exynos 5420): [long] has 32 bits. *)
Definition BITS_PER_LONG : Z := 32.

(** Reading of a value as [unsigned long] (and [unsigned int]). *)
Definition ULONG (x : Z) : Z := x mod 2 ^ BITS_PER_LONG.

(** Reading of a value as [long] (and [int]). *)
Definition LONG (x : Z) : Z :=
  (x + 2 ^ (BITS_PER_LONG - 1)) mod 2 ^ BITS_PER_LONG - 2 ^ (BITS_PER_LONG - 1).

(** Modelled from the spec: the page size is 4096 bytes (section 8);
    asm/page.h is not among the sources. *)
Definition PAGE_SHIFT : Z := 12.
Definition PAGE_SIZE : Z := Z.shiftl 1 PAGE_SHIFT.
Definition PAGE_MASK : Z := ULONG (Z.lnot (PAGE_SIZE - 1)).

(** [PAGE_ALIGN(addr)] is [((addr) + PAGE_SIZE - 1) & PAGE_MASK] on
    [unsigned long]. *)
Definition PAGE_ALIGN (addr : Z) : Z :=
  Z.land (ULONG (addr + (PAGE_SIZE - 1))) PAGE_MASK.

Definition ENOMEM : Z := 12.

(** ** Allocation-intent flags

    Modelled from the spec: the flags of the two allocation-intent flag sets
    (section 6), with the bit values of linux/gfp.h, which is not among the
    sources.  The properties below need only that they are distinct bits. *)

Definition __GFP_HIGHMEM : Z := 0x02.
Definition __GFP_WAIT : Z := 0x10.
Definition __GFP_IO : Z := 0x40.
Definition __GFP_FS : Z := 0x80.
Definition __GFP_NOWARN : Z := 0x200.
Definition __GFP_NORETRY : Z := 0x1000.
Definition __GFP_ZERO : Z := 0x8000.
Definition __GFP_HARDWALL : Z := 0x20000.
Definition __GFP_NO_KSWAPD : Z := 0x400000.
Definition GFP_KERNEL : Z := Z.lor __GFP_WAIT (Z.lor __GFP_IO __GFP_FS).
Definition GFP_USER : Z := Z.lor GFP_KERNEL __GFP_HARDWALL.
Definition GFP_HIGHUSER : Z := Z.lor GFP_USER __GFP_HIGHMEM.

Definition high_order_gfp_flags : Z :=
  Z.land
    (Z.lor GFP_HIGHUSER (Z.lor __GFP_NOWARN (Z.lor __GFP_NORETRY __GFP_NO_KSWAPD)))
    (ULONG (Z.lnot __GFP_WAIT)).
Definition low_order_gfp_flags : Z := Z.lor GFP_HIGHUSER __GFP_NOWARN.

Definition orders : list Z := [8; 4; 0].
Definition num_orders : Z := Z.of_nat (length orders).

(** ** Outcomes

    A call returns ([Ok]), stops the kernel at a [BUG()] ([Bug]), or stops it
    by following a null or out-of-range pointer ([Fault]).  [Timeout] is the
    exhaustion of the iteration budget of the model's [while] loop; the budget
    handed out by [ion_system_heap_allocate] is never exhausted
    ([ion_system_heap_allocate_total]). *)

Inductive result (A : Type) : Type :=
| Ok (a : A)
| Bug
| Fault
| Timeout.
Arguments Ok {A} a.
Arguments Bug {A}.
Arguments Fault {A}.
Arguments Timeout {A}.

(** ** Data *)

(** The fields of [struct page] that the file touches.  [pfn] stands for the
    address of the descriptor, [private] carries [ion_page_order] and
    [PG_ion_frompool] the bit of that name in [flags]. *)
Record page : Type := Page {
  pfn : Z;
  private : Z;
  PG_ion_frompool : bool
}.

(** A descriptor as it comes from the host or from a pool.  Both paths of
    [ion_system_heap_allocate] reset [private] and [PG_ion_frompool] of every
    page before the page leaves the run list, so a page that enters
    [alloc_largest_available] has them at rest. *)
Definition page_at (p : Z) : page :=
  {| pfn := p; private := 0; PG_ion_frompool := false |}.

Definition ion_page_order (pg : page) : Z := private pg.
Definition ion_get_from_pool (pg : page) : bool := PG_ion_frompool pg.
Definition ion_set_from_pool (pg : page) : page :=
  {| pfn := pfn pg; private := private pg; PG_ion_frompool := true |}.
Definition set_page_order (pg : page) (o : Z) : page :=
  {| pfn := pfn pg; private := o; PG_ion_frompool := PG_ion_frompool pg |}.

(** One entry of a scatter/gather table; [sg_page] is [None] in an entry that
    [sg_set_page] has not written. *)
Record scatterlist : Type := Scatterlist {
  sg_page : option Z;
  sg_length : Z;
  sg_offset : Z
}.

Definition sg_zero : scatterlist :=
  {| sg_page := None; sg_length := 0; sg_offset := 0 |}.

(** A scatter/gather table.  [table_addr] stands for the address of the
    header, the value of a [struct sg_table *]: it is what [kmalloc] returned
    for the header and what [sg_free_table] and [kfree] are handed. *)
Record sg_table : Type := SgTable {
  table_addr : Z;
  sgl : list scatterlist;
  nents : Z
}.

(** Modelled from the spec: the flag bits of a buffer that the heap
    recognises (section 3, Buffer); linux/ion.h with the bit values and
    ion_priv.h with the accessors are not among the sources. *)
Record ion_flags : Type := IonFlags {
  ION_FLAG_CACHED : bool;
  ION_FLAG_FAULT_USER_MAPPINGS : bool;
  ION_FLAG_NOZEROED : bool;
  ION_FLAG_SYNC_FORCE : bool
}.

(** A block of slab memory: its address and its bytes. *)
Record kmem : Type := Kmem {
  kaddr : Z;
  kbytes : list Z
}.

(** [priv_virt] is a [void *]: the system heap keeps its table there, the
    contiguous heap its memory. *)
Inductive priv : Type :=
| Priv_null
| Priv_table (t : sg_table)
| Priv_mem (m : kmem).

Record ion_buffer : Type := IonBuffer {
  buf_size : Z;
  buf_flags : ion_flags;
  priv_virt : priv;
  buf_sg_table : option sg_table;
  ready : bool
}.

Definition ion_buffer_cached (b : ion_buffer) : bool :=
  ION_FLAG_CACHED (buf_flags b).
Definition ion_buffer_fault_user_mappings (b : ion_buffer) : bool :=
  ION_FLAG_FAULT_USER_MAPPINGS (buf_flags b).
Definition ion_buffer_sync_force (b : ion_buffer) : bool :=
  ION_FLAG_SYNC_FORCE (buf_flags b).

(** Modelled from the spec: the readiness latch the heap sets through a
    setter of the subsystem (section 3); ion.c is not among the sources. *)
Definition ion_buffer_set_ready (b : ion_buffer) : ion_buffer :=
  {| buf_size := buf_size b; buf_flags := buf_flags b; priv_virt := priv_virt b;
     buf_sg_table := buf_sg_table b; ready := true |}.

Definition set_priv_virt (b : ion_buffer) (p : priv) : ion_buffer :=
  {| buf_size := buf_size b; buf_flags := buf_flags b; priv_virt := p;
     buf_sg_table := buf_sg_table b; ready := ready b |}.

(** Modelled from the spec: a page pool (sections 3 and 4.1, ion_page_pool.c
    is not among the sources): the order it serves, the flags it refills
    with, and its two LIFO stacks.  The counters equal the stack sizes
    (invariant of section 3) and are read off the stacks.  [pool_addr] stands
    for the address of the pool object, the value of a
    [struct ion_page_pool *]. *)
Record ion_page_pool : Type := IonPagePool {
  pool_addr : Z;
  pool_order : Z;
  gfp_mask : Z;
  high_items : list Z;
  low_items : list Z
}.

Definition high_count (p : ion_page_pool) : Z := Z.of_nat (length (high_items p)).
Definition low_count (p : ion_page_pool) : Z := Z.of_nat (length (low_items p)).

(** What another thread does to the pools while this one is between two
    critical sections: nothing, or a run of the shrinker that empties the
    pool at a position of the pool array (section 5, shrinker interaction).
    The file reads a pool in one critical section and acts on the reading in
    another at one point only, in [alloc_largest_available]; that is where
    the other threads are let in. *)
Inductive other_thread : Type :=
| Idle
| Shrink (idx : nat).

(** Calls that leave the file, in the order they are made, with the
    pointers they are handed: [kfree] the block, [sg_alloc_table] and
    [sg_free_table] the header of the table.  A call of [ion_page_pool_alloc]
    records the resident page it serves, or [None] when the pool has to ask
    the host. *)
Inductive event : Type :=
| Ev_alloc_pages (gfp order : Z) (ret : option Z)
| Ev_split_page (pg order : Z)
| Ev___free_pages (pg order : Z)
| Ev___free_page (pg : Z)
| Ev_pool_alloc (idx : nat) (resident : option Z)
| Ev_pool_free (idx : nat) (pg : Z)
| Ev_buffer_zero (t : sg_table)
| Ev_device_sync (t : sg_table)
| Ev_kmalloc (size flags : Z) (ret : option Z)
| Ev_kfree (p : Z)
| Ev_sg_alloc_table (table n : Z) (ok : bool)
| Ev_sg_free_table (table : Z).

(** The heap and what surrounds it.  [pools] is [heap->pools]; pages from
    [highstart_pfn] on are in high memory; [host_pages] and [host_slab] are
    the answers the page allocator and the slab allocator give to the calls
    to come ([None], or no answer left, is a refusal); [others] is what the
    other threads do at the points where this one lets them in. *)
Record world : Type := World {
  pools : list ion_page_pool;
  highstart_pfn : Z;
  host_pages : list (option Z);
  host_slab : list (option (Z * list Z));
  others : list other_thread;
  trace : list event
}.

Definition set_pools (ps : list ion_page_pool) (w : world) : world :=
  {| pools := ps; highstart_pfn := highstart_pfn w; host_pages := host_pages w;
     host_slab := host_slab w; others := others w; trace := trace w |}.
Definition set_host_pages (h : list (option Z)) (w : world) : world :=
  {| pools := pools w; highstart_pfn := highstart_pfn w; host_pages := h;
     host_slab := host_slab w; others := others w; trace := trace w |}.
Definition set_host_slab (h : list (option (Z * list Z))) (w : world) : world :=
  {| pools := pools w; highstart_pfn := highstart_pfn w; host_pages := host_pages w;
     host_slab := h; others := others w; trace := trace w |}.
Definition set_others (o : list other_thread) (w : world) : world :=
  {| pools := pools w; highstart_pfn := highstart_pfn w; host_pages := host_pages w;
     host_slab := host_slab w; others := o; trace := trace w |}.
Definition log (e : event) (w : world) : world :=
  {| pools := pools w; highstart_pfn := highstart_pfn w; host_pages := host_pages w;
     host_slab := host_slab w; others := others w; trace := trace w ++ [e] |}.

(** ** The monad of kernel code: state passing over [world], with [result] *)

Definition M (A : Type) : Type := world -> result (A * world).

Definition ret {A} (a : A) : M A := fun w => Ok (a, w).

Definition bind {A B} (m : M A) (k : A -> M B) : M B := fun w =>
  match m w with
  | Ok (a, w') => k a w'
  | Bug => Bug
  | Fault => Fault
  | Timeout => Timeout
  end.

Definition lift {A} (r : result A) : M A := fun w =>
  match r with
  | Ok a => Ok (a, w)
  | Bug => Bug
  | Fault => Fault
  | Timeout => Timeout
  end.

Definition emit (e : event) : M unit := fun w => Ok (tt, log e w).

Declare Scope kernel_scope.
Delimit Scope kernel_scope with kernel.
Notation "'let*' x ':=' m 'in' k" := (bind m (fun x => k))
  (at level 10, x pattern, m at level 100, k at level 200) : kernel_scope.
Notation "m ';;' k" := (bind m (fun _ => k))
  (at level 100, k at level 200, right associativity) : kernel_scope.
#[local] Open Scope kernel_scope.

(** [for] over a list of indices, in order. *)
Fixpoint for_each {A} (l : list A) (body : A -> M unit) : M unit :=
  match l with
  | [] => ret tt
  | a :: l' => body a ;; for_each l' body
  end.

(** ** The collaborators *)

(** Modelled from the spec: the host memory system (section 3, Page handle)
    allocates a run of [2^order] pages under a flag set or refuses, frees a
    run, and splits a run into single pages; mm/page_alloc.c is not among the
    sources.  [alloc_pages(gfp, order)] gets the next answer of the host. *)
Definition alloc_pages (gfp order : Z) : M (option Z) := fun w =>
  let r := match host_pages w with r :: _ => r | [] => None end in
  Ok (r, log (Ev_alloc_pages gfp order r) (set_host_pages (tail (host_pages w)) w)).

Definition split_page (pg order : Z) : M unit := emit (Ev_split_page pg order).
Definition __free_pages (pg order : Z) : M unit := emit (Ev___free_pages pg order).
Definition __free_page (pg : Z) : M unit := emit (Ev___free_page pg).

Definition POISON_INUSE : Z := 0x5a.

(** Modelled from the spec: the general kernel allocator of section 4.4;
    mm/slab.c is not among the sources.  [kmalloc(size, flags)] gets the next
    answer of the allocator; the block holds what the memory held before
    (padded with the slab's poison byte), unless [__GFP_ZERO] asks for a
    cleared block.  That the flag clears the block is its meaning in
    linux/gfp.h and linux/slab.h, which are not among the sources either;
    the spec does not speak of it. *)

Definition kmalloc (size flags : Z) : M (option kmem) := fun w =>
  let r := match host_slab w with
           | Some (a, stale) :: _ =>
               Some {| kaddr := a;
                       kbytes := if Z.land flags __GFP_ZERO =? 0
                                 then resize (Z.to_nat size) POISON_INUSE stale
                                 else replicate (Z.to_nat size) 0 |}
           | _ => None
           end in
  Ok (r, log (Ev_kmalloc size flags (kaddr <$> r)) (set_host_slab (tail (host_slab w)) w)).

(** [kzalloc(size, flags)] is [kmalloc(size, flags | __GFP_ZERO)]. *)
Definition kzalloc (size flags : Z) : M (option kmem) :=
  kmalloc size (Z.lor flags __GFP_ZERO).

Definition kfree (p : Z) : M unit := emit (Ev_kfree p).

(** Modelled from the spec: [sg_alloc_table] (section 4.3 step 3) allocates
    for the header at [table] an array of [n] entries, all of them cleared,
    or fails for lack of memory (section 7); lib/scatterlist.c is not among
    the sources.  The storage comes from the slab allocator. *)
Definition sg_alloc_table (table n gfp : Z) : M (option sg_table) := fun w =>
  let ok := match host_slab w with Some _ :: _ => true | _ => false end in
  Ok (if ok
      then Some {| table_addr := table; sgl := replicate (Z.to_nat n) sg_zero;
                   nents := n |}
      else None,
      log (Ev_sg_alloc_table table n ok) (set_host_slab (tail (host_slab w)) w)).

(** [sg_free_table(table)] gives up the entry array of the header at
    [table]. *)
Definition sg_free_table (table : Z) : M unit := emit (Ev_sg_free_table table).

Definition sg_dma_len (sg : scatterlist) : Z := sg_length sg.

(** Modelled from the spec: the order of a run is rebuilt from the byte
    length of its entry as [log2(length / page_size)] (section 4.3, free,
    step 2); asm-generic/getorder.h is not among the sources. *)
Definition get_order (size : Z) : Z := Z.log2 (size / PAGE_SIZE).

(** Modelled from the spec: [ion_heap_buffer_zero] zeroes every page of the
    buffer's scatter/gather table (section 4.3, free, step 1); ion_heap.c is
    not among the sources. *)
Definition ion_heap_buffer_zero (buffer : ion_buffer) : M unit :=
  match buf_sg_table buffer with
  | Some t => emit (Ev_buffer_zero t)
  | None => fun _ => Fault
  end.

(** Modelled from the spec: the DMA sync on the assembled table (section
    4.3, allocate, step 6); ion.c is not among the sources. *)
Definition ion_device_sync (t : sg_table) : M unit := emit (Ev_device_sync t).

Definition get_pool (idx : nat) : M ion_page_pool := fun w =>
  match pools w !! idx with
  | Some p => Ok (p, w)
  | None => Fault
  end.

Definition put_pool (idx : nat) (p : ion_page_pool) : M unit := fun w =>
  Ok (tt, set_pools (<[idx := p]> (pools w)) w).

Definition with_items (p : ion_page_pool) (hi lo : list Z) : ion_page_pool :=
  {| pool_addr := pool_addr p; pool_order := pool_order p; gfp_mask := gfp_mask p;
     high_items := hi; low_items := lo |}.

(** Modelled from the spec: [alloc()] of a pool (section 4.1) serves from the
    high-memory stack, then from the low-memory stack, then from the host at
    the pool's order with the pool's flags, and fails only if the host does. *)
Definition ion_page_pool_alloc (idx : nat) : M (option Z) :=
  let* pool := get_pool idx in
  emit (Ev_pool_alloc idx (hd_error (high_items pool ++ low_items pool)));;
  match high_items pool, low_items pool with
  | pg :: hi, lo => put_pool idx (with_items pool hi lo);; ret (Some pg)
  | [], pg :: lo => put_pool idx (with_items pool [] lo);; ret (Some pg)
  | [], [] => alloc_pages (gfp_mask pool) (pool_order pool)
  end.

(** Modelled from the spec: residency in high or low memory is a property of
    each page (section 9, Pool stacks); linux/page-flags.h is not among the
    sources. *)
Definition PageHighMem (pg : Z) : M bool := fun w =>
  Ok (highstart_pfn w <=? pg, w).

(** Modelled from the spec: [free(page)] of a pool (section 4.1) pushes the
    page onto the stack of its residency.  The zeroing the section mentions
    is that of section 4.3, which the heap performs before it calls the
    pool. *)
Definition ion_page_pool_free (idx : nat) (pg : Z) : M unit :=
  let* pool := get_pool idx in
  let* high := PageHighMem pg in
  emit (Ev_pool_free idx pg);;
  put_pool idx (if high
                then with_items pool (pg :: high_items pool) (low_items pool)
                else with_items pool (high_items pool) (pg :: low_items pool)).

(** Modelled from the spec: between the inspection of a pool and the
    allocation another thread may drain the pool (section 4.2), the pool
    mutex being the only synchronisation (section 5).  The other threads get
    their turn: the next entry of [others] happens. *)
Definition preempt : M unit := fun w =>
  match others w with
  | [] => Ok (tt, w)
  | Idle :: o => Ok (tt, set_others o w)
  | Shrink idx :: o =>
      Ok (tt, set_others o (set_pools (alter (fun p => with_items p [] []) idx (pools w)) w))
  end.

(** A pointer that must not be null where it is followed. *)
Definition deref {A} (p : option A) : M A := fun w =>
  match p with
  | Some a => Ok (a, w)
  | None => Fault
  end.

(** ** The system heap *)

Fixpoint order_to_index_from (i : nat) (os : list Z) (order : Z) : result nat :=
  match os with
  | [] => Bug
  | o :: os' => if order =? o then Ok i else order_to_index_from (S i) os' order
  end.

Definition order_to_index (order : Z) : result nat :=
  order_to_index_from 0 orders order.

Definition order_to_size (order : Z) : Z := ULONG (Z.shiftl PAGE_SIZE order).

Definition alloc_buffer_page (buffer : ion_buffer) (order : Z) : M (option page) :=
  let cached := ion_buffer_cached buffer in
  let split_pages := ion_buffer_fault_user_mappings buffer in
  let* pool := lift (order_to_index order) in
  let* pg :=
    (if negb cached then ion_page_pool_alloc pool
     else
       let gfp_flags :=
         if 0 <? order then high_order_gfp_flags else low_order_gfp_flags in
       alloc_pages gfp_flags order) in
  match pg with
  | None => ret None
  | Some p =>
      (if split_pages then split_page p order else ret tt);;
      ret (Some (page_at p))
  end.

Definition free_buffer_page (buffer : ion_buffer) (pg : option Z) (order : Z)
  : M unit :=
  let cached := ion_buffer_cached buffer in
  let split_pages := ion_buffer_fault_user_mappings buffer in
  if negb cached then
    let* pool := lift (order_to_index order) in
    let* p := deref pg in
    ion_page_pool_free pool p
  else if split_pages then
    for_each (seqZ 0 (LONG (Z.shiftl 1 order)))
      (fun i => let* p := deref pg in __free_page (p + i))
  else
    let* p := deref pg in
    __free_pages p order.

(** The body of the [for] loop of [alloc_largest_available], from the
    position of [os] in [orders] on; [from_pool] is the local of that name,
    which lives across the iterations. *)
Fixpoint alloc_largest_available_from (os : list Z) (buffer : ion_buffer)
    (size max_order : Z) (from_pool : bool) : M (option page) :=
  match os with
  | [] => ret None
  | o :: os' =>
      if size <? order_to_size o then
        alloc_largest_available_from os' buffer size max_order from_pool
      else if max_order <? o then
        alloc_largest_available_from os' buffer size max_order from_pool
      else
        let* from_pool :=
          (if negb (ion_buffer_cached buffer) then
             let* idx := lift (order_to_index o) in
             let* pool := get_pool idx in
             let seen :=
               if (0 <? high_count pool) || (0 <? low_count pool)
               then true else from_pool in
             (* mutex_unlock: the pool is open to the other threads *)
             preempt;;
             ret seen
           else ret from_pool) in
        let* pg := alloc_buffer_page buffer o in
        match pg with
        | None => alloc_largest_available_from os' buffer size max_order from_pool
        | Some pg =>
            let pg := set_page_order pg o in
            let pg := if from_pool then ion_set_from_pool pg else pg in
            ret (Some pg)
        end
  end.

Definition alloc_largest_available (buffer : ion_buffer) (size max_order : Z)
  : M (option page) :=
  alloc_largest_available_from orders buffer size max_order false.

(** [sg_set_page] on the entry at position [sg] of the table; past the last
    entry [sg_next] has returned a null pointer. *)
Definition sg_set_page (l : list scatterlist) (sg : nat) (pg len off : Z)
  : result (list scatterlist) :=
  if decide (sg < length l)%nat
  then Ok (<[sg := {| sg_page := Some pg; sg_length := len; sg_offset := off |}]> l)
  else Fault.

(** The [while] loop of [ion_system_heap_allocate]: [pages] is the run list,
    [i] the count of runs.  The boolean tells whether the loop ran to its end
    ([false]: [goto err]). *)
Fixpoint alloc_loop (fuel : nat) (buffer : ion_buffer)
    (size_remaining max_order : Z) (pages : list page) (i : Z)
  : M (bool * list page * Z) :=
  if 0 <? size_remaining then
    match fuel with
    | O => fun _ => Timeout
    | S fuel' =>
        let* pg := alloc_largest_available buffer (ULONG size_remaining) max_order in
        match pg with
        | None => ret (false, pages, i)
        | Some pg =>
            alloc_loop fuel' buffer
              (LONG (size_remaining
                     - ULONG (LONG (Z.shiftl 1 (ion_page_order pg)) * PAGE_SIZE)))
              (ion_page_order pg) (pages ++ [pg]) (LONG (i + 1))
        end
    end
  else ret (true, pages, i).

(** The entries of one run of a buffer with split pages, from position [sg]
    of the table on. *)
Fixpoint sg_set_split (offs : list Z) (l : list scatterlist) (sg : nat) (pg : Z)
  : result (list scatterlist * nat) :=
  match offs with
  | [] => Ok (l, sg)
  | i :: offs' =>
      match sg_set_page l sg (pg + i) PAGE_SIZE 0 with
      | Ok l' => sg_set_split offs' l' (S sg) pg
      | Bug => Bug
      | Fault => Fault
      | Timeout => Timeout
      end
  end.

(** The loop that installs the run list into the table. *)
Fixpoint fill_table (split_pages : bool) (pages : list page)
    (l : list scatterlist) (sg : nat) (all_pages_from_pool : bool)
  : result (list scatterlist * bool) :=
  match pages with
  | [] => Ok (l, all_pages_from_pool)
  | pg :: rest =>
      let step :=
        if split_pages then
          sg_set_split (seqZ 0 (LONG (Z.shiftl 1 (ion_page_order pg)))) l sg (pfn pg)
        else
          match sg_set_page l sg (pfn pg)
                  (ULONG (LONG (Z.shiftl 1 (ion_page_order pg)) * PAGE_SIZE)) 0 with
          | Ok l' => Ok (l', S sg)
          | Bug => Bug
          | Fault => Fault
          | Timeout => Timeout
          end in
      match step with
      | Ok (l', sg') =>
          fill_table split_pages rest l' sg'
            (if all_pages_from_pool && negb (ion_get_from_pool pg)
             then false else all_pages_from_pool)
      | Bug => Bug
      | Fault => Fault
      | Timeout => Timeout
      end
  end.

Definition sizeof_sg_table : Z := 12.

(** The iterations the [while] loop is given: one per page of the request. *)
Definition alloc_budget (size_remaining : Z) : nat :=
  Z.to_nat (size_remaining / PAGE_SIZE).

(** The code at the label [err] of [ion_system_heap_allocate]: the run list
    is handed back and the call fails. *)
Definition allocate_err (buffer : ion_buffer) (pages : list page)
  : M (Z * ion_buffer) :=
  for_each pages
    (fun pg => free_buffer_page buffer (Some (pfn pg)) (LONG (ion_page_order pg)));;
  ret (- ENOMEM, buffer).

Definition ion_system_heap_allocate (buffer : ion_buffer) (size align flags : Z)
  : M (Z * ion_buffer) :=
  let size_remaining := LONG (PAGE_ALIGN size) in
  let max_order := hd 0 orders in
  let split_pages := ion_buffer_fault_user_mappings buffer in
  let* (fin, pages, i) :=
    alloc_loop (alloc_budget size_remaining) buffer size_remaining max_order [] 0 in
  if negb fin then allocate_err buffer pages
  else
    let* table := kmalloc sizeof_sg_table GFP_KERNEL in
    match table with
    | None => allocate_err buffer pages
    | Some m =>
        let* t :=
          (if split_pages
           then sg_alloc_table (kaddr m) (PAGE_ALIGN size / PAGE_SIZE) GFP_KERNEL
           else sg_alloc_table (kaddr m) i GFP_KERNEL) in
        match t with
        | None => kfree (kaddr m);; allocate_err buffer pages
        | Some t =>
            let* (l, all_pages_from_pool) :=
              lift (fill_table split_pages pages (sgl t) 0 true) in
            let table := {| table_addr := table_addr t; sgl := l; nents := nents t |} in
            (if ion_buffer_sync_force buffer then ion_device_sync table else ret tt);;
            let buffer :=
              if all_pages_from_pool || ion_buffer_sync_force buffer
              then ion_buffer_set_ready buffer else buffer in
            ret (0, set_priv_virt buffer (Priv_table table))
        end
    end.

Definition ion_system_heap_free (buffer : ion_buffer) : M unit :=
  let table := buf_sg_table buffer in
  let cached := ion_buffer_cached buffer in
  (if negb cached && negb (ION_FLAG_NOZEROED (buf_flags buffer))
   then ion_heap_buffer_zero buffer else ret tt);;
  let* t := deref table in
  for_each (take (Z.to_nat (nents t)) (sgl t))
    (fun sg => free_buffer_page buffer (sg_page sg) (get_order (sg_dma_len sg)));;
  sg_free_table (table_addr t);;
  kfree (table_addr t).

Definition ion_system_heap_map_dma (buffer : ion_buffer) : priv := priv_virt buffer.

(** ** The contiguous heap *)

Definition ion_system_contig_heap_allocate (buffer : ion_buffer)
    (len align flags : Z) : M (Z * ion_buffer) :=
  let* m := kzalloc len GFP_KERNEL in
  match m with
  | None => ret (- ENOMEM, set_priv_virt buffer Priv_null)
  | Some m => ret (0, set_priv_virt buffer (Priv_mem m))
  end.

(** ** Predicates of the statements *)

(** The ways a call can fail to return. *)
Inductive failure : Type := F_bug | F_fault | F_timeout.

Definition fails {A} (f : failure) (r : result A) : Prop :=
  match f, r with
  | F_bug, Bug | F_fault, Fault | F_timeout, Timeout => True
  | _, _ => False
  end.

(** [m] never fails the way [f]. *)
Definition avoids {A} (f : failure) (m : M A) : Prop := forall w, ~ fails f (m w).

(** Every return of [m] relates the world before to the world after. *)
Definition keeps {A} (R : relation world) (m : M A) : Prop :=
  forall w a w', m w = Ok (a, w') -> R w w'.

(** [w'] is [w] after calls that all satisfy [P]. *)
Definition after (P : event -> Prop) (w w' : world) : Prop :=
  exists evs, trace w' = trace w ++ evs /\ Forall P evs.

(** The same, with the pools as they were. *)
Definition frame (P : event -> Prop) (w w' : world) : Prop :=
  pools w' = pools w /\ after P w w'.

Definition sum_Z (l : list Z) : Z := foldr Z.add 0 l.

(** The byte extent of a run of the run list. *)
Definition run_bytes (pg : page) : Z := PAGE_SIZE * 2 ^ ion_page_order pg.

(** The bytes a scatter/gather table describes. *)
Definition sg_bytes (t : sg_table) : Z := sum_Z (sg_length <$> sgl t).

(** The entry that describes a whole run, and the entries of a run that is
    split into its pages. *)
Definition run_entry (pg : page) : scatterlist :=
  {| sg_page := Some (pfn pg); sg_length := run_bytes pg; sg_offset := 0 |}.

Definition page_entry (p i : Z) : scatterlist :=
  {| sg_page := Some (p + i); sg_length := PAGE_SIZE; sg_offset := 0 |}.

Definition split_entries (pg : page) : list scatterlist :=
  page_entry (pfn pg) <$> seqZ 0 (2 ^ ion_page_order pg).

(** The entries of a run list, in pack order. *)
Definition entries (split_pages : bool) (pages : list page) : list scatterlist :=
  if split_pages then pages ≫= split_entries else run_entry <$> pages.

(** The run list of a call of [ion_system_heap_allocate] for [size] bytes in
    world [w]: what the [while] loop leaves, whether it ran to its end, and
    the world after it. *)
Definition packs (buffer : ion_buffer) (size : Z) (w : world)
    (fin : bool) (pages : list page) (w1 : world) : Prop :=
  exists i,
    alloc_loop (alloc_budget (LONG (PAGE_ALIGN size))) buffer
      (LONG (PAGE_ALIGN size)) (hd 0 orders) [] 0 w = Ok ((fin, pages, i), w1).

(** Calls into the slab allocator. *)
Definition slab_event (e : event) : Prop :=
  match e with
  | Ev_kmalloc _ _ _ | Ev_kfree _ | Ev_sg_alloc_table _ _ _ | Ev_sg_free_table _ => True
  | _ => False
  end.

(** The calls by which [free_buffer_page] hands back the run of order [o]
    at page [p]. *)
Definition free_events (buffer : ion_buffer) (p o : Z) : list event :=
  if negb (ion_buffer_cached buffer) then
    match order_to_index o with
    | Ok idx => [Ev_pool_free idx p]
    | _ => []
    end
  else if ion_buffer_fault_user_mappings buffer then
    (fun i => Ev___free_page (p + i)) <$> seqZ 0 (2 ^ o)
  else [Ev___free_pages p o].

(** The calls that hand a run of the run list back. *)
Definition release_events (buffer : ion_buffer) (pg : page) : list event :=
  free_events buffer (pfn pg) (ion_page_order pg).

(** Pages resident in a pool. *)
Definition pool_count (p : ion_page_pool) : Z := high_count p + low_count p.

(** Calls that go to the host directly, pages being asked for with the flag
    set of their order; no call into a pool, and no zeroing, is among them. *)
Definition host_direct (e : event) : Prop :=
  match e with
  | Ev_alloc_pages gfp order _ =>
      gfp = (if 0 <? order then high_order_gfp_flags else low_order_gfp_flags)
  | Ev_pool_alloc _ _ | Ev_pool_free _ _ | Ev_buffer_zero _ => False
  | _ => True
  end.

Definition is_buffer_zero (e : event) : Prop :=
  match e with
  | Ev_buffer_zero _ => True
  | _ => False
  end.

(** A release to the host that does not pass through a pool. *)
Definition is_host_free (e : event) : Prop :=
  match e with
  | Ev___free_pages _ _ | Ev___free_page _ => True
  | _ => False
  end.

(** The entries of a table that [ion_system_heap_free] visits. *)
Definition visited (t : sg_table) : list scatterlist :=
  take (Z.to_nat (nents t)) (sgl t).

(** The flag set of an order: the high-order set above order 0, the
    low-order set for order 0. *)
Definition order_gfp (o : Z) : Z :=
  if 0 <? o then high_order_gfp_flags else low_order_gfp_flags.

(** The run that a call of [alloc_pages] is granted: the flag set it was
    asked with, its order and its first page. *)
Definition host_run (e : event) : list (Z * Z * Z) :=
  match e with
  | Ev_alloc_pages gfp o (Some p) => [(gfp, o, p)]
  | _ => []
  end.

(** From [w] to [w'] the host grants the runs [l], in this order. *)
Definition granting (l : list (Z * Z * Z)) (w w' : world) : Prop :=
  exists evs, trace w' = trace w ++ evs /\ evs ≫= host_run = l.

(** A run of the run list, as the request to the host that obtains it
    directly. *)
Definition run_request (pg : page) : Z * Z * Z :=
  (order_gfp (ion_page_order pg), ion_page_order pg, pfn pg).

(** The calls that hand the run of a table entry to the host directly: page
    by page when the runs are split, in one piece otherwise; the order is
    the one rebuilt from the length of the entry. *)
Definition host_free_events (split_pages : bool) (sg : scatterlist) : list event :=
  match sg_page sg with
  | Some p =>
      if split_pages
      then (fun i => Ev___free_page (p + i))
             <$> seqZ 0 (LONG (Z.shiftl 1 (get_order (sg_dma_len sg))))
      else [Ev___free_pages p (get_order (sg_dma_len sg))]
  | None => []
  end.

(** A release to the host is made on behalf of a cached buffer: page by
    page if the buffer has split pages, run by run if not. *)
Definition host_free_of (buffer : ion_buffer) (e : event) : Prop :=
  match e with
  | Ev___free_page _ =>
      ion_buffer_cached buffer = true /\ ion_buffer_fault_user_mappings buffer = true
  | Ev___free_pages _ _ =>
      ion_buffer_cached buffer = true /\ ion_buffer_fault_user_mappings buffer = false
  | _ => True
  end.

(** A call that returns or follows a bad pointer, and does nothing else. *)
Definition ok_or_fault {A} (r : result A) : Prop :=
  match r with
  | Ok _ | Fault => True
  | _ => False
  end.


(** The pool array has one pool per order, as [ion_system_heap_create]
    leaves it. *)
Definition heap_ok (w : world) : Prop := length (pools w) = length orders.

(** The pool array keeps its size. *)
Definition same_heap (w w' : world) : Prop := length (pools w') = length (pools w).

(** In a heap with its pools, [m] follows no bad pointer. *)
Definition sound {A} (m : M A) : Prop := forall w, heap_ok w -> m w <> Fault.

(** ** Heaps, buffers and hosts of the scenarios *)

(** The pool that [ion_system_heap_create] makes for an order, at the
    address of its block and with given residents. *)
Definition pool_at (a o : Z) (hi lo : list Z) : ion_page_pool :=
  {| pool_addr := a; pool_order := o;
     gfp_mask := if 0 <? o then high_order_gfp_flags else low_order_gfp_flags;
     high_items := hi; low_items := lo |}.

(** In the scenarios the pool of order 8 sits at 0xC0000800, that of order 4
    at 0xC0000900 and that of order 0 at 0xC0000A00. *)
Definition pool_of (o : Z) (hi lo : list Z) : ion_page_pool :=
  pool_at (0xC0000A00 - 0x40 * o) o hi lo.

Definition empty_pools : list ion_page_pool := (fun o => pool_of o [] []) <$> orders.

Definition world_of (ps : list ion_page_pool) (pages : list (option Z))
    (slab : list (option (Z * list Z))) (o : list other_thread) : world :=
  {| pools := ps; highstart_pfn := 0x30000; host_pages := pages;
     host_slab := slab; others := o; trace := [] |}.

Definition flags_of (cached fault nozeroed sync : bool) : ion_flags :=
  {| ION_FLAG_CACHED := cached; ION_FLAG_FAULT_USER_MAPPINGS := fault;
     ION_FLAG_NOZEROED := nozeroed; ION_FLAG_SYNC_FORCE := sync |}.

Definition buffer_of (size : Z) (fl : ion_flags) : ion_buffer :=
  {| buf_size := size; buf_flags := fl; priv_virt := Priv_null;
     buf_sg_table := None; ready := false |}.

(** Modelled from the spec: the subsystem keeps in [sg_table] the table that
    [map_dma] returns (section 3, Buffer: the table handle used on the free
    path); ion.c is not among the sources. *)
Definition mapped (b : ion_buffer) : ion_buffer :=
  {| buf_size := buf_size b; buf_flags := buf_flags b; priv_virt := priv_virt b;
     buf_sg_table := match ion_system_heap_map_dma b with
                     | Priv_table t => Some t
                     | _ => None
                     end;
     ready := ready b |}.

Definition buffer_after (r : result (Z * ion_buffer * world)) : ion_buffer :=
  match r with
  | Ok ((_, b), _) => b
  | _ => buffer_of 0 (flags_of false false false false)
  end.

Definition world_after {A} (r : result (A * world)) : world :=
  match r with
  | Ok (_, w) => w
  | _ => world_of [] [] [] []
  end.

(** What the slab allocator answers in the scenarios: a block at an
    address, which held nothing before; [slab_ok] serves the header of a
    table and [slab_sgl] its entry array. *)
Definition slab_block (a : Z) : option (Z * list Z) := Some (a, []).
Definition slab_ok : option (Z * list Z) := slab_block 0xC0001000.
Definition slab_sgl : option (Z * list Z) := slab_block 0xC0001100.

(** Scenario 4: 68 KiB, no flag, empty pools, a willing host. *)
Definition buffer_68k : ion_buffer := buffer_of 69632 (flags_of false false false false).
Definition world_fresh : world :=
  world_of empty_pools [Some 0x1000; Some 0x2000; Some 0x3000] [slab_ok; slab_sgl] [].
Definition buffer_68k' : ion_buffer :=
  Eval vm_compute in buffer_after (ion_system_heap_allocate buffer_68k 69632 0 0 world_fresh).
Definition world_68k' : world :=
  Eval vm_compute in world_after (ion_system_heap_allocate buffer_68k 69632 0 0 world_fresh).

(** The same request when the host has one run to give and the second is
    refused. *)
Definition world_short : world :=
  world_of empty_pools [Some 0x1000] [slab_ok; slab_sgl] [].
Definition world_short' : world :=
  Eval vm_compute in world_after (ion_system_heap_allocate buffer_68k 69632 0 0 world_short).

(** Scenario 2: 1 MiB, no flag, when the pool of order 8 holds a run. *)
Definition buffer_1m : ion_buffer := buffer_of 1048576 (flags_of false false false false).
Definition world_pooled : world :=
  world_of [pool_of 8 [] [0x1000]; pool_of 4 [] []; pool_of 0 [] []]
    [] [slab_ok; slab_sgl] [].
Definition buffer_1m' : ion_buffer :=
  Eval vm_compute in buffer_after (ion_system_heap_allocate buffer_1m 1048576 0 0 world_pooled).
Definition world_pooled' : world :=
  Eval vm_compute in world_after (ion_system_heap_allocate buffer_1m 1048576 0 0 world_pooled).

(** Scenario 5: 1 MiB, [CACHED], while the pool of order 8 holds a run. *)
Definition buffer_cached : ion_buffer := buffer_of 1048576 (flags_of true false false false).
Definition world_cached : world :=
  world_of [pool_of 8 [] [0x1000]; pool_of 4 [] []; pool_of 0 [] []]
    [Some 0x2000] [slab_ok; slab_sgl] [].
Definition buffer_cached' : ion_buffer :=
  Eval vm_compute in
    buffer_after (ion_system_heap_allocate buffer_cached 1048576 0 0 world_cached).
Definition world_cached' : world :=
  Eval vm_compute in
    world_after (ion_system_heap_allocate buffer_cached 1048576 0 0 world_cached).
Definition world_cached'' : world :=
  Eval vm_compute in world_after (ion_system_heap_free (mapped buffer_cached') world_cached').

Definition table_cached : sg_table :=
  Eval vm_compute in
    match buf_sg_table (mapped buffer_cached') with
    | Some t => t
    | None => {| table_addr := 0; sgl := []; nents := 0 |}
    end.

(** Scenario 6 on a buffer that is not cached: 64 KiB, [FAULT_USER_MAPPINGS]. *)
Definition buffer_split : ion_buffer := buffer_of 65536 (flags_of false true false false).
Definition buffer_split' : ion_buffer :=
  Eval vm_compute in
    buffer_after (ion_system_heap_allocate buffer_split 65536 0 0 world_fresh).
Definition world_split' : world :=
  Eval vm_compute in
    world_after (ion_system_heap_allocate buffer_split 65536 0 0 world_fresh).
Definition world_split'' : world :=
  Eval vm_compute in world_after (ion_system_heap_free (mapped buffer_split') world_split').
(** The release of the buffer of scenario 4. *)
Definition world_68k'' : world :=
  Eval vm_compute in world_after (ion_system_heap_free (mapped buffer_68k') world_68k').
Definition table_68k : sg_table :=
  Eval vm_compute in
    match buf_sg_table (mapped buffer_68k') with
    | Some t => t
    | None => {| table_addr := 0; sgl := []; nents := 0 |}
    end.

(** A request to the contiguous heap, served from memory that held other
    data. *)
Definition buffer_contig : ion_buffer := buffer_of 8 (flags_of false false false false).
Definition world_stale : world :=
  world_of [] [] [Some (0xC0002000, [0xde; 0xad; 0xbe; 0xef])] [].
Definition buffer_contig' : ion_buffer :=
  Eval vm_compute in
    buffer_after (ion_system_contig_heap_allocate buffer_contig 8 0 0 world_stale).
Definition world_stale' : world :=
  Eval vm_compute in
    world_after (ion_system_contig_heap_allocate buffer_contig 8 0 0 world_stale).

(** A request of 2 GiB for a buffer whose pages are to be faulted in. *)
Definition buffer_huge : ion_buffer := buffer_of (2 ^ 31) (flags_of true true false false).

(** What a call of [ion_system_heap_allocate] reports and leaves in the
    buffer: the return code, the entries and the bytes of the table, and the
    readiness latch. *)
Definition outcome (r : result (Z * ion_buffer * world)) : option (Z * Z * Z * bool) :=
  match r with
  | Ok ((code, b), _) =>
      match priv_virt b with
      | Priv_table t => Some (code, nents t, sg_bytes t, ready b)
      | _ => None
      end
  | _ => None
  end.

(** 1 MiB while the pool of order 8 holds a run that the shrinker takes away
    between the look at the counters and the allocation; the host has no run
    of order 8 to give, and gives one of order 4. *)
Definition world_race : world :=
  world_of [pool_of 8 [] [0x1000]; pool_of 4 [] []; pool_of 0 [] []]
    [None; Some 0x2000] [slab_ok; slab_sgl] [Shrink 0].

(** ** Further predicates of the statements *)

(** *** Kinds of calls *)

(** A call that neither zeroes pages nor syncs a table for DMA. *)
Definition quiet (e : event) : Prop :=
  match e with
  | Ev_buffer_zero _ | Ev_device_sync _ => False
  | _ => True
  end.

(** A call to the page allocator of the host or into a pool. *)
Definition paging (e : event) : Prop :=
  match e with
  | Ev_alloc_pages _ _ _ | Ev_split_page _ _ | Ev___free_pages _ _ | Ev___free_page _
  | Ev_pool_alloc _ _ | Ev_pool_free _ _ => True
  | _ => False
  end.

(** A call that does not ask the host for pages. *)
Definition from_pools (e : event) : Prop :=
  match e with
  | Ev_alloc_pages _ _ _ => False
  | _ => True
  end.

(** A call that gives memory back or prepares it for that: nothing is
    asked for. *)
Definition releasing (e : event) : Prop :=
  match e with
  | Ev___free_pages _ _ | Ev___free_page _ | Ev_pool_free _ _ | Ev_buffer_zero _
  | Ev_sg_free_table _ | Ev_kfree _ => True
  | _ => False
  end.

(** The host or the slab allocator refuses a request. *)
Definition refusal (e : event) : Prop :=
  match e with
  | Ev_alloc_pages _ _ None | Ev_kmalloc _ _ None | Ev_sg_alloc_table _ _ false => True
  | _ => False
  end.

Definition refusalb (e : event) : bool :=
  match e with
  | Ev_alloc_pages _ _ None | Ev_kmalloc _ _ None | Ev_sg_alloc_table _ _ false => true
  | _ => false
  end.

(** The host has no run of pages to give. *)
Definition no_pages (e : event) : Prop :=
  match e with
  | Ev_alloc_pages _ _ None => True
  | _ => False
  end.

(** *** The calls of an invocation *)

(** The calls made from [w] to [w']. *)
Definition calls (w w' : world) : list event := drop (length (trace w)) (trace w').

(** Every request made from [w] to [w'] was granted. *)
Definition all_granted (w w' : world) : bool :=
  forallb (fun e => negb (refusalb e)) (calls w w').

(** Among the calls from [w] to [w'] there is one that [P] describes. *)
Definition refused (P : event -> Prop) (w w' : world) : Prop :=
  exists evs, trace w' = trace w ++ evs /\ Exists P evs.

(** No other thread is at work, and none comes. *)
Definition alone (w w' : world) : Prop := others w = [] -> others w' = [].

(** *** Runs and pages *)

(** The pages of a run: [2 ^ o] page frames from the first. *)
Definition run_pages (p o : Z) : list Z := (fun i => p + i) <$> seqZ 0 (2 ^ o).

Definition pages_of (pg : page) : list Z := run_pages (pfn pg) (ion_page_order pg).

Definition run_id (pg : page) : Z * Z := (pfn pg, ion_page_order pg).

(** The first page of the run that a call obtains, from the host or from a
    pool. *)
Definition taken (e : event) : list Z :=
  match e with
  | Ev_alloc_pages _ _ (Some p) | Ev_pool_alloc _ (Some p) => [p]
  | _ => []
  end.

(** The pages a call hands back, to the pool at a position of the order set
    or to the host. *)
Definition released (e : event) : list Z :=
  match e with
  | Ev_pool_free idx p => run_pages p (default 0 (orders !! idx))
  | Ev___free_pages p o => run_pages p o
  | Ev___free_page p => [p]
  | _ => []
  end.

(** The run that a call of [split_page] splits. *)
Definition splits (e : event) : list (Z * Z) :=
  match e with
  | Ev_split_page p o => [(p, o)]
  | _ => []
  end.

(** From [w] to [w'] the runs at [l] are obtained, in this order, and no
    page is handed back. *)
Definition takes (l : list Z) (w w' : world) : Prop :=
  exists evs, trace w' = trace w ++ evs /\ evs ≫= taken = l /\ evs ≫= released = [].

(** From [w] to [w'] the runs [l] are split, in this order. *)
Definition splitting (l : list (Z * Z)) (w w' : world) : Prop :=
  exists evs, trace w' = trace w ++ evs /\ evs ≫= splits = l.

(** *** Tables *)

(** An entry as [ion_system_heap_allocate] writes it: a page, no offset, and
    the length of a run of the order set. *)
Definition entry_ok (sg : scatterlist) : Prop :=
  is_Some (sg_page sg) /\ sg_offset sg = 0 /\
  exists o, o ∈ orders /\ sg_dma_len sg = Z.shiftl PAGE_SIZE o.

(** The order that [ion_system_heap_free] rebuilds for an entry. *)
Definition entry_order (sg : scatterlist) : Z := get_order (sg_dma_len sg).

(** The calls by which [ion_system_heap_free] hands back an entry of the
    table. *)
Definition entry_events (buffer : ion_buffer) (sg : scatterlist) : list event :=
  match sg_page sg with
  | Some p => free_events buffer p (get_order (sg_dma_len sg))
  | None => []
  end.

(** *** Packing *)

(** The fewest runs of the order set that make [n] pages: as many of the
    largest order as fit, then of the next, and so on. *)
Fixpoint greedy_from (os : list Z) (n : Z) : list Z :=
  match os with
  | [] => []
  | o :: os' => replicate (Z.to_nat (n / 2 ^ o)) o ++ greedy_from os' (n mod 2 ^ o)
  end.

Definition greedy (n : Z) : list Z := greedy_from orders n.

(** An order that [alloc_largest_available] tries: it fits the size and
    respects the cap. *)
Definition eligible (size max_order o : Z) : bool :=
  negb (size <? order_to_size o) && negb (max_order <? o).

(** *** The stock of the pools *)

(** The pages resident in the pool at a position of the pool array. *)
Definition stock (w : world) (idx : nat) : Z :=
  match pools w !! idx with
  | Some p => pool_count p
  | None => 0
  end.

(** How often an order occurs in a list of orders. *)
Definition occurs (o : Z) (l : list Z) : Z := Z.of_nat (count_occ Z.eq_dec l o).

(** The pools hold a run for every order of the list [l]. *)
Definition stocked (l : list Z) (w : world) : Prop :=
  forall idx o, orders !! idx = Some o -> occurs o l <= stock w idx.

(** ** Further scenarios *)

(** The run that [alloc_largest_available] hands out, if any. *)
Definition run_of {A} (r : result (option A * world)) (d : A) : A :=
  match r with
  | Ok (Some a, _) => a
  | _ => d
  end.

(** Scenario 2, the call of [alloc_largest_available] alone. *)
Definition run_pooled : page :=
  Eval vm_compute in
    run_of (alloc_largest_available buffer_1m 1048576 8 world_pooled) (page_at 0).
Definition world_pooled_run : world :=
  Eval vm_compute in
    world_after (alloc_largest_available buffer_1m 1048576 8 world_pooled).

(** A request for one page when the host has nothing to give. *)
Definition buffer_4k : ion_buffer := buffer_of 4096 (flags_of false false false false).
Definition world_dry : world := world_of empty_pools [] [slab_ok; slab_sgl] [].
Definition world_dry_run : world :=
  Eval vm_compute in world_after (alloc_largest_available buffer_4k 4096 8 world_dry).
Definition world_dry' : world :=
  Eval vm_compute in world_after (ion_system_heap_allocate buffer_4k 4096 0 0 world_dry).

(** The run that [alloc_largest_available] hands out when the host refuses
    the order it asks for first. *)
Definition run_race : page :=
  Eval vm_compute in
    run_of (alloc_largest_available buffer_1m 1048576 8 world_race) (page_at 0).
Definition world_race_run : world :=
  Eval vm_compute in
    world_after (alloc_largest_available buffer_1m 1048576 8 world_race).

(** A host with two runs to give and a slab allocator that serves two
    allocations: a buffer of 68 KiB is allocated, released and allocated
    again. *)
Definition world_reuse : world :=
  world_of empty_pools [Some 0x1000; Some 0x2000] [slab_ok; slab_sgl; slab_ok; slab_sgl] [].
Definition buffer_reuse1 : ion_buffer :=
  Eval vm_compute in buffer_after (ion_system_heap_allocate buffer_68k 69632 0 0 world_reuse).
Definition world_reuse1 : world :=
  Eval vm_compute in world_after (ion_system_heap_allocate buffer_68k 69632 0 0 world_reuse).
Definition world_reuse2 : world :=
  Eval vm_compute in world_after (ion_system_heap_free (mapped buffer_reuse1) world_reuse1).
Definition buffer_reuse3 : ion_buffer :=
  Eval vm_compute in buffer_after (ion_system_heap_allocate buffer_68k 69632 0 0 world_reuse2).
Definition world_reuse3 : world :=
  Eval vm_compute in world_after (ion_system_heap_allocate buffer_68k 69632 0 0 world_reuse2).

(** ** The life of the heap: creation, teardown and the debug dump *)

(** A pointer, or the error code that [ERR_PTR] puts in its place. *)
Inductive ptr_or_err (A : Type) : Type :=
| Ptr (a : A)
| ERR_PTR (e : Z).
Arguments Ptr {A} a.
Arguments ERR_PTR {A} e.

(** The fields of [struct ion_heap] that the file sets: the operations of the
    heap, its type, and whether [debug_show] is
    [ion_system_heap_debug_show] or the null pointer that [kzalloc] left. *)
Inductive ion_heap_type : Type :=
| ION_HEAP_TYPE_SYSTEM
| ION_HEAP_TYPE_SYSTEM_CONTIG.

Inductive ion_heap_ops : Type :=
| system_heap_ops
| kmalloc_ops.

Record ion_heap : Type := IonHeap {
  heap_addr : Z;
  heap_ops : ion_heap_ops;
  heap_type : ion_heap_type;
  heap_debug_show : bool
}.

(** [struct ion_system_heap]: the generic heap, which is its first member and
    so has its address, and the pointer to the pool array.  The array
    itself, [heap->pools[i]], is [pools] of the world.  [container_of]
    leads from the generic heap, which [ion_system_heap_create] returns and
    [ion_system_heap_destroy] is handed, to this object. *)
Record ion_system_heap : Type := IonSystemHeap {
  heap : ion_heap;
  pools_array : Z
}.

(** The size of a pointer to a pool. *)
Definition sizeof_pointer : Z := BITS_PER_LONG / 8.

(** The array [heap->pools] while the heap is made: a slot is [None] as long
    as it holds the null pointer that [kzalloc] left there. *)
Definition pool_slots : Type := list (option ion_page_pool).

(** The array once every slot is filled. *)
Fixpoint filled (slots : pool_slots) : option (list ion_page_pool) :=
  match slots with
  | [] => Some []
  | Some p :: rest =>
      match filled rest with
      | Some ps => Some (p :: ps)
      | None => None
      end
  | None :: _ => None
  end.

(** The heap object is in place: [pools] is its array from now on. *)
Definition install (ps : list ion_page_pool) : M unit := fun w => Ok (tt, set_pools ps w).

Section Layout.
(** The sizes of [struct ion_system_heap], [struct ion_heap] and
    [struct ion_page_pool]: ion_priv.h, which lays them out, is not among
    the sources. *)
Variables sizeof_ion_system_heap sizeof_ion_heap sizeof_ion_page_pool : Z.

(** Modelled from the spec: a pool is created during heap construction, with
    the order it serves, the flags it refills with and no resident (section
    3, Page Pool); ion_page_pool.c is not among the sources.  The pool object
    is a block of the slab allocator, which may refuse it. *)
Definition ion_page_pool_create (gfp_mask order : Z) : M (option ion_page_pool) :=
  let* m := kmalloc sizeof_ion_page_pool GFP_KERNEL in
  match m with
  | None => ret None
  | Some m =>
      ret (Some {| pool_addr := kaddr m; pool_order := order; gfp_mask := gfp_mask;
                   high_items := []; low_items := [] |})
  end.

(** Modelled from the spec: a pool is destroyed during heap teardown, at
    which point all residents are returned to the host (section 3, Page
    Pool, Lifecycle), as runs of the pool's order; then the pool object is
    freed. *)
Definition ion_page_pool_destroy (pool : ion_page_pool) : M unit :=
  for_each (high_items pool ++ low_items pool)
    (fun pg => __free_pages pg (pool_order pool));;
  kfree (pool_addr pool).

(** The first [for] loop of [ion_system_heap_create], from position [i] of
    the order set on: [false] is the jump to [err_create_pool]. *)
Fixpoint create_pools (os : list Z) (i : nat) (slots : pool_slots)
  : M (bool * pool_slots) :=
  match os with
  | [] => ret (true, slots)
  | o :: os' =>
      let gfp_flags := if 0 <? o then high_order_gfp_flags else low_order_gfp_flags in
      let* pool := ion_page_pool_create gfp_flags o in
      match pool with
      | None => ret (false, slots)
      | Some p => create_pools os' (S i) (<[i := Some p]> slots)
      end
  end.

(** The loop at [err_create_pool]: every slot that is not null is destroyed. *)
Definition destroy_created (slots : pool_slots) : M unit :=
  for_each (seq 0 (Z.to_nat num_orders))
    (fun i =>
       let* slot := deref (slots !! i) in
       match slot with
       | Some p => ion_page_pool_destroy p
       | None => ret tt
       end).

Definition ion_system_heap_create : M (ptr_or_err ion_system_heap) :=
  let* heap := kzalloc sizeof_ion_system_heap GFP_KERNEL in
  match heap with
  | None => ret (ERR_PTR (- ENOMEM))
  | Some h =>
      let* pools := kzalloc (ULONG (sizeof_pointer * num_orders)) GFP_KERNEL in
      match pools with
      | None =>
          (* err_alloc_pools *)
          kfree (kaddr h);;
          ret (ERR_PTR (- ENOMEM))
      | Some a =>
          let* (created, slots) :=
            create_pools orders 0 (replicate (Z.to_nat num_orders) None) in
          if created then
            let* ps := deref (filled slots) in
            install ps;;
            ret (Ptr {| heap := {| heap_addr := kaddr h; heap_ops := system_heap_ops;
                                   heap_type := ION_HEAP_TYPE_SYSTEM;
                                   heap_debug_show := true |};
                        pools_array := kaddr a |})
          else
            (* err_create_pool *)
            destroy_created slots;;
            kfree (kaddr a);;
            (* err_alloc_pools *)
            kfree (kaddr h);;
            ret (ERR_PTR (- ENOMEM))
      end
  end.

(** [ion_system_heap_destroy]: the array and the heap object are freed after
    the pools; no pool is left. *)
Definition ion_system_heap_destroy (sys_heap : ion_system_heap) : M unit :=
  for_each (seq 0 (Z.to_nat num_orders))
    (fun i =>
       let* pool := get_pool i in
       ion_page_pool_destroy pool);;
  kfree (pools_array sys_heap);;
  kfree (heap_addr (heap sys_heap));;
  install [].

(** [ion_system_contig_heap_create] and [ion_system_contig_heap_destroy]. *)
Definition ion_system_contig_heap_create : M (ptr_or_err ion_heap) :=
  let* heap := kzalloc sizeof_ion_heap GFP_KERNEL in
  match heap with
  | None => ret (ERR_PTR (- ENOMEM))
  | Some h =>
      ret (Ptr {| heap_addr := kaddr h; heap_ops := kmalloc_ops;
                  heap_type := ION_HEAP_TYPE_SYSTEM_CONTIG;
                  heap_debug_show := false |})
  end.

Definition ion_system_contig_heap_destroy (heap : ion_heap) : M unit :=
  kfree (heap_addr heap).
End Layout.

(** The format strings of the debug dump; each ends in a newline. *)
Module Format.
Import String.
Definition newline : string := String (Ascii.ascii_of_nat 10) EmptyString.
Definition highmem : string :=
  append "%d order %u highmem pages in pool = %lu total" newline.
Definition lowmem : string :=
  append "%d order %u lowmem pages in pool = %lu total" newline.
End Format.

(** Modelled from the spec: the debug file system renders the dump (section
    2, out of scope); fs/seq_file.c is not among the sources.  A [seq_file]
    is the calls of [seq_printf] made on it: format and arguments. *)
Definition seq_file : Type := list (String.string * list Z).

Definition seq_printf (s : seq_file) (fmt : String.string) (args : list Z) : seq_file :=
  s ++ [(fmt, args)].

(** The byte total of a line: [(1 << pool->order) * PAGE_SIZE * count] on
    [unsigned long]. *)
Definition debug_total (order count : Z) : Z :=
  ULONG (ULONG (LONG (Z.shiftl 1 order) * PAGE_SIZE) * count).

(** The body of the loop of [ion_system_heap_debug_show]. *)
Definition debug_show_pool (pool : ion_page_pool) (s : seq_file) : seq_file :=
  let s := seq_printf s Format.highmem
             [LONG (high_count pool); ULONG (pool_order pool);
              debug_total (pool_order pool) (high_count pool)] in
  seq_printf s Format.lowmem
    [LONG (low_count pool); ULONG (pool_order pool);
     debug_total (pool_order pool) (low_count pool)].

Fixpoint debug_show_from (idxs : list nat) (s : seq_file) : M seq_file :=
  match idxs with
  | [] => ret s
  | i :: idxs' =>
      let* pool := get_pool i in
      debug_show_from idxs' (debug_show_pool pool s)
  end.

Definition ion_system_heap_debug_show (s : seq_file) : M (Z * seq_file) :=
  let* s := debug_show_from (seq 0 (Z.to_nat num_orders)) s in
  ret (0, s).

(** ** The contiguous heap: release, physical address and DMA table *)

(** The value of the pointer in [priv_virt]: null, the address of the block
    of a buffer of the contiguous heap, or the address of the table of a
    buffer of the system heap. *)
Definition priv_addr (p : priv) : Z :=
  match p with
  | Priv_null => 0
  | Priv_mem m => kaddr m
  | Priv_table t => table_addr t
  end.

Section Memory.
(** The linear map of the kernel: asm/memory.h, which defines
    [virt_to_phys] and [virt_to_page], is not among the sources. *)
Variables virt_to_phys virt_to_page : Z -> Z.

Definition ion_system_contig_heap_free (buffer : ion_buffer) : M unit :=
  kfree (priv_addr (priv_virt buffer)).

(** The return code, [*addr] and [*len]. *)
Definition ion_system_contig_heap_phys (buffer : ion_buffer) : M (Z * Z * Z) :=
  ret (0, virt_to_phys (priv_addr (priv_virt buffer)), buf_size buffer).

(** The error of [sg_alloc_table], which [ERR_PTR(ret)] passes on, is the
    lack of memory. *)
Definition ion_system_contig_heap_map_dma (buffer : ion_buffer)
  : M (ptr_or_err sg_table) :=
  let* table := kzalloc sizeof_sg_table GFP_KERNEL in
  match table with
  | None => ret (ERR_PTR (- ENOMEM))
  | Some m =>
      let* t := sg_alloc_table (kaddr m) 1 GFP_KERNEL in
      match t with
      | None => kfree (kaddr m);; ret (ERR_PTR (- ENOMEM))
      | Some t =>
          let* l := lift (sg_set_page (sgl t) 0
                            (virt_to_page (priv_addr (priv_virt buffer)))
                            (ULONG (buf_size buffer)) 0) in
          ret (Ptr {| table_addr := table_addr t; sgl := l; nents := nents t |})
      end
  end.

Definition ion_system_contig_heap_unmap_dma (buffer : ion_buffer) : M unit :=
  let* t := deref (buf_sg_table buffer) in
  sg_free_table (table_addr t);;
  kfree (table_addr t).
End Memory.

(** [ion_system_heap_unmap_dma] does nothing. *)
Definition ion_system_heap_unmap_dma (buffer : ion_buffer) : M unit := ret tt.

(** ** Predicates of the statements on the life of a heap *)

(** The block that a call of [kmalloc] is granted, and the block that a
    call of [kfree] frees. *)
Definition granted_block (e : event) : list Z :=
  match e with
  | Ev_kmalloc _ _ (Some a) => [a]
  | _ => []
  end.

Definition freed_block (e : event) : list Z :=
  match e with
  | Ev_kfree a => [a]
  | _ => []
  end.

(** The header for which a call of [sg_alloc_table] is granted an entry
    array, and the header whose entry array [sg_free_table] frees. *)
Definition made_table (e : event) : list Z :=
  match e with
  | Ev_sg_alloc_table t _ true => [t]
  | _ => []
  end.

Definition freed_table (e : event) : list Z :=
  match e with
  | Ev_sg_free_table t => [t]
  | _ => []
  end.

(** The blocks granted and the blocks freed from [w] to [w'], and the same
    for the entry arrays of scatter/gather tables, in the order of the
    calls. *)
Definition blocks_granted (w w' : world) : list Z := calls w w' ≫= granted_block.
Definition blocks_freed (w w' : world) : list Z := calls w w' ≫= freed_block.
Definition tables_made (w w' : world) : list Z := calls w w' ≫= made_table.
Definition tables_freed (w w' : world) : list Z := calls w w' ≫= freed_table.

(** The blocks of a heap in the order in which they are given up: the heap
    object and the pool array, which were granted first, go last, the array
    before the heap object. *)
Definition unwinding (g : list Z) : list Z := drop 2 g ++ reverse (take 2 g).

(** The calls of [kmalloc] that are granted the blocks at [addrs], each of
    [size] bytes, and the calls of [kfree] that free them. *)
Definition grants (size : Z) (addrs : list Z) : list event :=
  (fun a => Ev_kmalloc size GFP_KERNEL (Some a)) <$> addrs.
Definition frees (addrs : list Z) : list event := Ev_kfree <$> addrs.

(** Blocks granted less blocks freed, and the same for the entry arrays of
    scatter/gather tables. *)
Definition block_delta (e : event) : Z :=
  match e with
  | Ev_kmalloc _ _ (Some _) => 1
  | Ev_kfree _ => -1
  | _ => 0
  end.

Definition table_delta (e : event) : Z :=
  match e with
  | Ev_sg_alloc_table _ _ true => 1
  | Ev_sg_free_table _ => -1
  | _ => 0
  end.

Definition blocks_held (w w' : world) : Z := sum_Z (block_delta <$> calls w w').
Definition tables_held (w w' : world) : Z := sum_Z (table_delta <$> calls w w').

(** The residents of a pool, as the pages that [released] counts. *)
Definition residents (pool : ion_page_pool) : list Z :=
  (high_items pool ++ low_items pool) ≫= (fun pg => run_pages pg (pool_order pool)).

(** The empty pools of the orders [os] in the blocks at [addrs]. *)
Definition pools_at (addrs os : list Z) : list ion_page_pool :=
  zip_with (fun a o => pool_at a o [] []) addrs os.

(** The array after the pools [ps] are stored from position [i] on. *)
Fixpoint fill (ps : list ion_page_pool) (i : nat) (slots : pool_slots) : pool_slots :=
  match ps with
  | [] => slots
  | p :: ps' => fill ps' (S i) (<[i := Some p]> slots)
  end.

(** A block that the slab allocator grants. *)
Definition is_grant (e : event) : Prop :=
  match e with
  | Ev_kmalloc _ _ (Some _) => True
  | _ => False
  end.

(** The calls that destroy a pool. *)
Definition destroy_events (pool : ion_page_pool) : list event :=
  ((fun pg => Ev___free_pages pg (pool_order pool))
     <$> (high_items pool ++ low_items pool)) ++ [Ev_kfree (pool_addr pool)].

(** Modelled from the spec: the subsystem keeps in [sg_table] the table that
    [map_dma] returned (section 3, Buffer); ion.c is not among the sources. *)
Definition with_sg_table (b : ion_buffer) (t : sg_table) : ion_buffer :=
  {| buf_size := buf_size b; buf_flags := buf_flags b; priv_virt := priv_virt b;
     buf_sg_table := Some t; ready := ready b |}.

(** ** Scenarios of the life of a heap *)

(** Hosts of the scenarios. *)
Definition world_boot : world :=
  world_of [] []
    [slab_block 0xC0001000; slab_block 0xC0001100; slab_block 0xC0001200;
     slab_block 0xC0001300; slab_block 0xC0001400] [].
Definition world_boot_short : world :=
  world_of [] []
    [slab_block 0xC0001000; slab_block 0xC0001100; slab_block 0xC0001200;
     slab_block 0xC0001300; None] [].

(** A heap with residents in two of its pools. *)
Definition world_stocked : world :=
  world_of [pool_of 8 [0x40000] [0x1000]; pool_of 4 [] []; pool_of 0 [] [0x2000; 0x2001]]
    [] [] [].
Definition heap_stocked : ion_system_heap :=
  {| heap := {| heap_addr := 0xC0000600; heap_ops := system_heap_ops;
                heap_type := ION_HEAP_TYPE_SYSTEM; heap_debug_show := true |};
     pools_array := 0xC0000700 |}.

(** The outcomes of the creation of the heap in the scenarios. *)
Definition heap_boot : ion_system_heap :=
  {| heap := {| heap_addr := 0xC0001000; heap_ops := system_heap_ops;
                heap_type := ION_HEAP_TYPE_SYSTEM; heap_debug_show := true |};
     pools_array := 0xC0001100 |}.
Definition world_boot' : world :=
  Eval vm_compute in world_after (ion_system_heap_create 64 48 world_boot).
Definition world_boot_short' : world :=
  Eval vm_compute in world_after (ion_system_heap_create 64 48 world_boot_short).

(** The contiguous heap in the scenario of the stale block: the buffer once
    allocated, and the outcomes of the calls that follow. *)
Definition world_contig : world :=
  world_of [] []
    [Some (0xC0002000, [0xde; 0xad; 0xbe; 0xef]); slab_block 0xC0003000;
     slab_block 0xC0003100] [].
Definition buffer_contig1 : ion_buffer :=
  Eval vm_compute in
    buffer_after (ion_system_contig_heap_allocate buffer_contig 8 0 0 world_contig).
Definition world_contig1 : world :=
  Eval vm_compute in
    world_after (ion_system_contig_heap_allocate buffer_contig 8 0 0 world_contig).

(** The linear map of the scenario: the kernel sits at 0xC0000000, memory
    starts at 0x40000000, and a page is named by its frame number. *)
Definition phys_of (a : Z) : Z := a - 0xC0000000 + 0x40000000.
Definition page_of (a : Z) : Z := Z.shiftr (phys_of a) PAGE_SHIFT.

Definition table_contig : sg_table :=
  {| table_addr := 0xC0003000;
     sgl := [{| sg_page := Some (page_of 0xC0002000); sg_length := 8; sg_offset := 0 |}];
     nents := 1 |}.
Definition world_contig2 : world :=
  Eval vm_compute in
    world_after (ion_system_contig_heap_map_dma page_of buffer_contig1 world_contig1).
(** * Properties *)

(** ** Arithmetic of the target *)

Lemma PAGE_SIZE_eq : PAGE_SIZE = 4096.
Proof. reflexivity. Qed.

Lemma ULONG_small x : 0 <= x < 2 ^ 32 -> ULONG x = x.
Proof. intros H. unfold ULONG, BITS_PER_LONG. apply Z.mod_small. lia. Qed.

Lemma ULONG_range x : 0 <= ULONG x < 2 ^ 32.
Proof. unfold ULONG, BITS_PER_LONG. apply Z.mod_pos_bound. lia. Qed.

Lemma LONG_small x : - 2 ^ 31 <= x < 2 ^ 31 -> LONG x = x.
Proof.
  intros H. unfold LONG, BITS_PER_LONG.
  change (2 ^ (32 - 1)) with 2147483648 in *. change (2 ^ 32) with 4294967296.
  change (2 ^ 31) with 2147483648 in H.
  rewrite Z.mod_small; lia.
Qed.

Lemma LONG_high x : 2 ^ 31 <= x < 2 ^ 32 -> LONG x = x - 2 ^ 32.
Proof.
  intros H. unfold LONG, BITS_PER_LONG.
  change (2 ^ (32 - 1)) with 2147483648 in *. change (2 ^ 32) with 4294967296 in *.
  change (2 ^ 31) with 2147483648 in H.
  replace (x + 2147483648) with (x - 2147483648 + 1 * 4294967296) by lia.
  rewrite Z.mod_add by lia. rewrite Z.mod_small; lia.
Qed.

(** Masking with [PAGE_MASK] rounds down to a page boundary. *)
Lemma land_PAGE_MASK x : 0 <= x < 2 ^ 32 -> Z.land x PAGE_MASK = PAGE_SIZE * (x / PAGE_SIZE).
Proof.
  intros H.
  assert (E : PAGE_MASK = Z.land (Z.lnot (Z.ones 12)) (Z.ones 32)).
  { unfold PAGE_MASK, ULONG, BITS_PER_LONG. rewrite Z.land_ones by lia. reflexivity. }
  rewrite E, Z.land_assoc, (Z.land_comm x), <- Z.land_assoc.
  rewrite (Z.land_ones x 32) by lia. rewrite (Z.mod_small x) by lia.
  rewrite Z.land_comm, <- Z.ldiff_land.
  rewrite Z.ldiff_ones_r by lia.
  rewrite Z.shiftr_div_pow2, Z.shiftl_mul_pow2 by lia.
  rewrite PAGE_SIZE_eq. change (2 ^ 12) with 4096. lia.
Qed.

Lemma PAGE_ALIGN_eq size :
  PAGE_ALIGN size = PAGE_SIZE * (ULONG (size + (PAGE_SIZE - 1)) / PAGE_SIZE).
Proof. unfold PAGE_ALIGN. apply land_PAGE_MASK, ULONG_range. Qed.

Lemma PAGE_ALIGN_range size : 0 <= PAGE_ALIGN size < 2 ^ 32.
Proof.
  rewrite PAGE_ALIGN_eq. pose proof (ULONG_range (size + (PAGE_SIZE - 1))) as H.
  rewrite PAGE_SIZE_eq in *.
  pose proof (Z.mul_div_le (ULONG (size + (4096 - 1))) 4096). 
  pose proof (Z.div_pos (ULONG (size + (4096 - 1))) 4096). lia.
Qed.

Lemma PAGE_ALIGN_pages size : (PAGE_SIZE | PAGE_ALIGN size).
Proof. rewrite PAGE_ALIGN_eq. apply Z.divide_factor_l. Qed.

(** In the range where nothing wraps, [PAGE_ALIGN] is the padding to whole
    pages. *)
Lemma PAGE_ALIGN_pad size :
  0 <= size <= 2 ^ 32 - PAGE_SIZE ->
  PAGE_ALIGN size = PAGE_SIZE * ((size + PAGE_SIZE - 1) / PAGE_SIZE).
Proof.
  intros H. rewrite PAGE_ALIGN_eq, PAGE_SIZE_eq in *.
  rewrite ULONG_small by lia. do 2 f_equal. lia.
Qed.

Lemma orders_cases o : o ∈ orders -> o = 8 \/ o = 4 \/ o = 0.
Proof. unfold orders. rewrite !elem_of_cons, elem_of_nil. tauto. Qed.

Lemma run_extent o :
  o ∈ orders -> ULONG (LONG (Z.shiftl 1 o) * PAGE_SIZE) = PAGE_SIZE * 2 ^ o.
Proof. intros H. apply orders_cases in H as [-> | [-> | ->]]; reflexivity. Qed.

Lemma order_to_size_extent o : o ∈ orders -> order_to_size o = PAGE_SIZE * 2 ^ o.
Proof. intros H. apply orders_cases in H as [-> | [-> | ->]]; reflexivity. Qed.

Lemma get_order_extent o : o ∈ orders -> get_order (PAGE_SIZE * 2 ^ o) = o.
Proof. intros H. apply orders_cases in H as [-> | [-> | ->]]; reflexivity. Qed.

Lemma sum_Z_cons x l : sum_Z (x :: l) = x + sum_Z l.
Proof. reflexivity. Qed.

Lemma sum_Z_app l1 l2 : sum_Z (l1 ++ l2) = sum_Z l1 + sum_Z l2.
Proof. induction l1 as [|x l1 IH]; [done|]. rewrite <- app_comm_cons, !sum_Z_cons. lia. Qed.

(** ** [order_to_index] *)

Lemma order_to_index_from_spec os order i :
  match order_to_index_from i os order with
  | Ok j => exists k, j = (i + k)%nat /\ os !! k = Some order
  | Bug => order ∉ os
  | _ => False
  end.
Proof.
  revert i. induction os as [|o os IH]; intros i; simpl.
  - apply not_elem_of_nil.
  - destruct (Z.eqb_spec order o) as [->|Hne].
    + exists 0%nat. split; [lia | reflexivity].
    + specialize (IH (S i)). destruct (order_to_index_from (S i) os order); try done.
      * destruct IH as (k & -> & Hk). exists (S k). split; [lia | done].
      * rewrite elem_of_cons. tauto.
Qed.

Lemma order_to_index_Ok order :
  order ∈ orders -> exists i, order_to_index order = Ok i /\ orders !! i = Some order.
Proof.
  intros H. pose proof (order_to_index_from_spec orders order 0) as S.
  unfold order_to_index. destruct (order_to_index_from 0 orders order); try done.
  destruct S as (k & -> & Hk). eauto.
Qed.

(** ** Reasoning about [M] *)

Lemma bind_Ok {A B} (m : M A) (k : A -> M B) w b w' :
  bind m k w = Ok (b, w') <-> exists a w1, m w = Ok (a, w1) /\ k a w1 = Ok (b, w').
Proof.
  unfold bind. split.
  - destruct (m w) as [[a w1]| | |]; try discriminate. eauto.
  - intros (a & w1 & -> & H). exact H.
Qed.

Lemma lift_Ok {A} (r : result A) w a w' :
  lift r w = Ok (a, w') <-> r = Ok a /\ w' = w.
Proof.
  unfold lift. split.
  - destruct r; try discriminate. intros [= -> ->]. done.
  - intros [-> ->]. done.
Qed.

Lemma ret_Ok {A} (x : A) w a w' : ret x w = Ok (a, w') <-> a = x /\ w' = w.
Proof. unfold ret. split; [intros [= -> ->] | intros [-> ->]]; done. Qed.

Lemma deref_Ok {A} (p : option A) w a w' :
  deref p w = Ok (a, w') <-> p = Some a /\ w' = w.
Proof.
  unfold deref. split.
  - destruct p; try discriminate. intros [= -> ->]. done.
  - intros [-> ->]. done.
Qed.

Lemma emit_Ok e w a w' : emit e w = Ok (a, w') <-> w' = log e w.
Proof.
  unfold emit. destruct a. split; [intros [= <-] | intros ->]; done.
Qed.

(** Peels the binds of a hypothesis [m w = Ok _]. *)
Ltac inv_ok H :=
  lazymatch type of H with
  | bind _ _ _ = Ok _ =>
      let a := fresh "a" in let w1 := fresh "w" in
      let Hm := fresh "Hm" in let Hk := fresh "Hk" in
      apply bind_Ok in H as (a & w1 & Hm & Hk); cbv beta iota in Hk
  | ret _ _ = Ok _ => apply ret_Ok in H as [H ?]; subst
  | lift _ _ = Ok _ => apply lift_Ok in H as [H ?]; subst
  | deref _ _ = Ok _ => apply deref_Ok in H as [H ?]; subst
  | emit _ _ = Ok _ => apply emit_Ok in H; subst
  end.

Section Avoids.
Context (f : failure).

Lemma avoids_ret {A} (a : A) : avoids f (ret a).
Proof. intros w. destruct f; exact id. Qed.

Lemma avoids_emit e : avoids f (emit e).
Proof. intros w. destruct f; exact id. Qed.

Lemma avoids_bind_post {A B} (m : M A) (k : A -> M B) :
  avoids f m ->
  (forall w a w', m w = Ok (a, w') -> ~ fails f (k a w')) ->
  avoids f (bind m k).
Proof.
  intros Hm Hk w. specialize (Hm w). unfold bind.
  destruct (m w) as [[a w1]| | |] eqn:E; [eauto | exact Hm ..].
Qed.

Lemma avoids_bind {A B} (m : M A) (k : A -> M B) :
  avoids f m -> (forall a, avoids f (k a)) -> avoids f (bind m k).
Proof. intros Hm Hk. apply avoids_bind_post; [done | intros ? a w' _; apply Hk]. Qed.

Lemma avoids_lift {A} (r : result A) : ~ fails f r -> avoids f (lift r).
Proof. intros H w. unfold lift. destruct r, f; simpl in *; tauto. Qed.

Lemma avoids_for_each {A} (l : list A) (body : A -> M unit) :
  Forall (fun a => avoids f (body a)) l -> avoids f (for_each l body).
Proof.
  induction 1 as [|a l Ha _ IH]; simpl.
  - apply avoids_ret.
  - apply avoids_bind; [done | intros _; exact IH].
Qed.

Lemma avoids_if {A} (b : bool) (m1 m2 : M A) :
  avoids f m1 -> avoids f m2 -> avoids f (if b then m1 else m2).
Proof. destruct b; done. Qed.

Lemma avoids_alloc_pages gfp order : avoids f (alloc_pages gfp order).
Proof. intros w. destruct f; exact id. Qed.

Lemma avoids_kmalloc size flags : avoids f (kmalloc size flags).
Proof. intros w. destruct f; exact id. Qed.

Lemma avoids_sg_alloc_table table n gfp : avoids f (sg_alloc_table table n gfp).
Proof. intros w. destruct f; exact id. Qed.

Lemma avoids_put_pool idx p : avoids f (put_pool idx p).
Proof. intros w. destruct f; exact id. Qed.

Lemma avoids_PageHighMem pg : avoids f (PageHighMem pg).
Proof. intros w. destruct f; exact id. Qed.

Lemma avoids_preempt : avoids f preempt.
Proof. intros w. unfold preempt. destruct (others w) as [|[|idx] o], f; exact id. Qed.

(** Only a null pointer makes these fault; they never fail otherwise. *)
Lemma avoids_get_pool idx : f <> F_fault -> avoids f (get_pool idx).
Proof. intros Hf w. unfold get_pool. destruct (pools w !! idx), f; simpl; tauto. Qed.

Lemma avoids_deref {A} (p : option A) : f <> F_fault -> avoids f (deref p).
Proof. intros Hf w. unfold deref. destruct p, f; simpl; tauto. Qed.
End Avoids.

Create HintDb avoid discriminated.
#[local] Hint Resolve avoids_ret avoids_emit avoids_bind avoids_for_each avoids_if
  avoids_alloc_pages avoids_kmalloc avoids_sg_alloc_table avoids_put_pool
  avoids_PageHighMem avoids_preempt avoids_get_pool avoids_deref : avoid.

Section Keeps.
Context (R : relation world) `{!PreOrder R}.

Lemma keeps_ret {A} (a : A) : keeps R (ret a).
Proof. intros w a' w' H. inv_ok H. reflexivity. Qed.

Lemma keeps_lift {A} (r : result A) : keeps R (lift r).
Proof. intros w a' w' H. inv_ok H. reflexivity. Qed.

Lemma keeps_deref {A} (p : option A) : keeps R (deref p).
Proof. intros w a' w' H. inv_ok H. reflexivity. Qed.

Lemma keeps_bind {A B} (m : M A) (k : A -> M B) :
  keeps R m -> (forall a, keeps R (k a)) -> keeps R (bind m k).
Proof.
  intros Hm Hk w b w' H. inv_ok H. etransitivity; [eapply Hm | eapply Hk]; eauto.
Qed.

Lemma keeps_if {A} (b : bool) (m1 m2 : M A) :
  keeps R m1 -> keeps R m2 -> keeps R (if b then m1 else m2).
Proof. destruct b; done. Qed.

Lemma keeps_for_each {A} (l : list A) (body : A -> M unit) :
  (forall a, keeps R (body a)) -> keeps R (for_each l body).
Proof.
  intros Hb. induction l as [|a l IH]; simpl.
  - apply keeps_ret.
  - apply keeps_bind; [apply Hb | intros _; exact IH].
Qed.
End Keeps.

#[local] Instance after_preorder P : PreOrder (after P).
Proof.
  split.
  - intros w. exists []. split; [by rewrite app_nil_r | constructor].
  - intros w1 w2 w3 (e1 & E1 & F1) (e2 & E2 & F2). exists (e1 ++ e2).
    split; [by rewrite E2, E1, app_assoc | by apply Forall_app].
Qed.

#[local] Instance frame_preorder P : PreOrder (frame P).
Proof.
  split.
  - intros w. split; [done | reflexivity].
  - intros w1 w2 w3 [P1 A1] [P2 A2]. split; [congruence | by etransitivity].
Qed.

Lemma after_mono (P Q : event -> Prop) w w' :
  (forall e, P e -> Q e) -> after P w w' -> after Q w w'.
Proof.
  intros H (evs & E & F). exists evs. split; [done|].
  eapply List.Forall_impl; [exact H | exact F].
Qed.

Lemma after_log P e w : P e -> after P w (log e w).
Proof. intros H. exists [e]. split; [done | by constructor]. Qed.

Lemma keeps_emit_after P e : P e -> keeps (after P) (emit e).
Proof. intros H w a w' E. inv_ok E. by apply after_log. Qed.

Lemma keeps_emit_frame P e : P e -> keeps (frame P) (emit e).
Proof. intros H w a w' E. inv_ok E. split; [done | by apply after_log]. Qed.

(** ** The packer *)

Lemma alloc_buffer_page_Some buffer o w pg w' :
  alloc_buffer_page buffer o w = Ok (Some pg, w') -> exists p, pg = page_at p.
Proof.
  unfold alloc_buffer_page. intros H. inv_ok H. inv_ok Hk.
  destruct a0 as [p|]; [|by inv_ok Hk0].
  inv_ok Hk0. inv_ok Hk. injection Hk as ->. eauto.
Qed.

(** A run that [alloc_largest_available] hands out has an order of the order
    set, fits the remaining size and respects the cap. *)
Lemma alloc_largest_available_from_Some os buffer size max_order from_pool w pg w' :
  alloc_largest_available_from os buffer size max_order from_pool w = Ok (Some pg, w') ->
  ion_page_order pg ∈ os /\
  order_to_size (ion_page_order pg) <= size /\
  ion_page_order pg <= max_order.
Proof.
  revert from_pool w. induction os as [|o os IH]; intros from_pool w H.
  - cbn [alloc_largest_available_from] in H. inv_ok H. discriminate.
  - cbn [alloc_largest_available_from] in H.
    assert (forall P : Prop, ion_page_order pg ∈ os /\ P -> ion_page_order pg ∈ o :: os /\ P)
      as Hweak by (intros P [? ?]; split; [apply elem_of_cons; by right | done]).
    destruct (Z.ltb_spec size (order_to_size o)); [by eapply Hweak, IH|].
    destruct (Z.ltb_spec max_order o); [by eapply Hweak, IH|].
    inv_ok H. inv_ok Hk.
    destruct a0 as [pg0|]; [|by eapply Hweak, IH].
    apply alloc_buffer_page_Some in Hm0 as [p ->]. inv_ok Hk0.
    assert (E : ion_page_order pg = o) by (injection Hk0 as ->; by destruct a).
    rewrite E. split; [apply elem_of_cons; by left | lia].
Qed.

Lemma alloc_largest_available_Some buffer size max_order w pg w' :
  alloc_largest_available buffer size max_order w = Ok (Some pg, w') ->
  ion_page_order pg ∈ orders /\
  order_to_size (ion_page_order pg) <= size /\
  ion_page_order pg <= max_order.
Proof. apply alloc_largest_available_from_Some. Qed.

(** Neither [BUG()] nor the iteration budget is met inside
    [alloc_largest_available]. *)
Lemma avoids_ion_page_pool_alloc f idx :
  f <> F_fault -> avoids f (ion_page_pool_alloc idx).
Proof.
  intros Hf. unfold ion_page_pool_alloc.
  apply avoids_bind; [auto with avoid|]. intros pool.
  apply avoids_bind; [auto with avoid|]. intros _.
  destruct (high_items pool), (low_items pool); auto with avoid.
Qed.

Lemma avoids_alloc_buffer_page f buffer o :
  f <> F_fault -> o ∈ orders -> avoids f (alloc_buffer_page buffer o).
Proof.
  intros Hf Ho. unfold alloc_buffer_page.
  destruct (order_to_index_Ok o Ho) as (i & -> & _).
  apply avoids_bind; [apply avoids_lift; destruct f; exact id|]. intros idx.
  apply avoids_bind.
  - apply avoids_if; [by apply avoids_ion_page_pool_alloc | auto with avoid].
  - intros [p|]; auto with avoid.
    apply avoids_bind; [|auto with avoid].
    apply avoids_if; [apply avoids_emit | auto with avoid].
Qed.

Lemma avoids_alloc_largest_available_from f os buffer size max_order from_pool :
  f <> F_fault -> os ⊆ orders ->
  avoids f (alloc_largest_available_from os buffer size max_order from_pool).
Proof.
  intros Hf. revert from_pool. induction os as [|o os IH]; intros from_pool Hos.
  - apply avoids_ret.
  - assert (o ∈ orders) as Ho by (apply Hos, elem_of_cons; by left).
    assert (os ⊆ orders) as Hos' by (intros x Hx; apply Hos, elem_of_cons; by right).
    cbn [alloc_largest_available_from].
    destruct (size <? order_to_size o); [by apply IH|].
    destruct (max_order <? o); [by apply IH|].
    apply avoids_bind.
    + apply avoids_if; [|auto with avoid].
      destruct (order_to_index_Ok o Ho) as (i & -> & _).
      apply avoids_bind; [apply avoids_lift; destruct f; exact id|]. intros idx.
      auto 6 with avoid.
    + intros fp. apply avoids_bind; [by apply avoids_alloc_buffer_page|].
      intros [pg|]; [auto with avoid | by apply IH].
Qed.

Lemma avoids_alloc_largest_available f buffer size max_order :
  f <> F_fault -> avoids f (alloc_largest_available buffer size max_order).
Proof. intros Hf. by apply avoids_alloc_largest_available_from. Qed.

Lemma alloc_loop_done fuel buffer sr max_order pages i :
  sr <= 0 -> alloc_loop fuel buffer sr max_order pages i = ret (true, pages, i).
Proof.
  intros H. destruct fuel; cbn [alloc_loop];
    destruct (Z.ltb_spec 0 sr); (lia || reflexivity).
Qed.

(** One iteration of the [while] loop takes a run of the order set off the
    remaining size, without wrap-around. *)
Lemma alloc_loop_step sr o :
  0 < sr < 2 ^ 31 -> (PAGE_SIZE | sr) -> o ∈ orders ->
  order_to_size o <= ULONG sr ->
  let sr' := LONG (sr - ULONG (LONG (Z.shiftl 1 o) * PAGE_SIZE)) in
  sr' = sr - PAGE_SIZE * 2 ^ o /\ 0 <= sr' /\ (PAGE_SIZE | sr') /\
  sr' / PAGE_SIZE = sr / PAGE_SIZE - 2 ^ o.
Proof.
  intros Hsr [q ->] Ho Hfit. rewrite run_extent by done.
  rewrite order_to_size_extent in Hfit by done.
  rewrite ULONG_small in Hfit by lia. rewrite PAGE_SIZE_eq in *.
  assert (0 < 2 ^ o <= q) as Hq
    by (apply orders_cases in Ho as [-> | [-> | ->]]; lia).
  cbv zeta. rewrite LONG_small by lia.
  replace (q * 4096 - 4096 * 2 ^ o) with ((q - 2 ^ o) * 4096) by lia.
  rewrite !Z.div_mul by lia.
  split; [lia|]. split; [lia|]. split; [apply Z.divide_factor_r | lia].
Qed.

(** What the [while] loop adds to the run list: runs of the order set, in
    non-increasing order below the cap, one count per run, whose extents sum
    to the remaining size when the loop runs to its end. *)
Lemma alloc_loop_spec fuel buffer sr max_order pages i w fin pages' i' w' :
  alloc_loop fuel buffer sr max_order pages i w = Ok ((fin, pages', i'), w') ->
  sr < 2 ^ 31 -> (PAGE_SIZE | sr) -> 0 <= i -> i + sr / PAGE_SIZE < 2 ^ 31 ->
  exists new,
    pages' = pages ++ new /\
    i' = i + Z.of_nat (length new) /\
    Forall (fun pg => ion_page_order pg ∈ orders /\ ion_page_order pg <= max_order) new /\
    StronglySorted (fun a b => ion_page_order b <= ion_page_order a) new /\
    (fin = true -> sum_Z (run_bytes <$> new) = Z.max sr 0).
Proof.
  revert sr max_order pages i w.
  induction fuel as [|fuel IH]; intros sr max_order pages i w H Hsr Hdiv Hi Hcount.
  - cbn [alloc_loop] in H. destruct (Z.ltb_spec 0 sr); [discriminate|].
    inv_ok H. injection H as -> -> ->. exists []. rewrite app_nil_r.
    repeat split; [simpl; lia | constructor | constructor | simpl; lia].
  - cbn [alloc_loop] in H. destruct (Z.ltb_spec 0 sr) as [Hpos|Hneg].
    2:{ inv_ok H. injection H as -> -> ->. exists []. rewrite app_nil_r.
        repeat split; [simpl; lia | constructor | constructor | simpl; lia]. }
    inv_ok H. destruct a as [pg|].
    2:{ inv_ok Hk. injection Hk as -> -> ->. exists []. rewrite app_nil_r.
        repeat split; [simpl; lia | constructor | constructor | discriminate]. }
    apply alloc_largest_available_Some in Hm as (Ho & Hfit & Hcap).
    destruct (alloc_loop_step sr (ion_page_order pg)) as (E & Hsr' & Hdiv' & Hq);
      [lia | done .. |].
    cbv zeta in E, Hsr', Hdiv', Hq.
    assert (0 < 2 ^ ion_page_order pg <= 256) as Hrun
      by (apply orders_cases in Ho as [-> | [-> | ->]]; lia).
    assert (2 ^ ion_page_order pg <= sr / PAGE_SIZE) as Hroom.
    { pose proof (Z.div_pos _ PAGE_SIZE Hsr' eq_refl) as Hd. rewrite Hq in Hd. lia. }
    apply IH in Hk as (new & -> & -> & Hall & Hsorted & Hsum).
    + exists (pg :: new). rewrite <- app_assoc. rewrite LONG_small by lia.
      repeat split.
      * simpl. lia.
      * constructor; [done|]. eapply List.Forall_impl; [|exact Hall].
        intros x [? ?]. split; [done | lia].
      * constructor; [done|]. eapply List.Forall_impl; [|exact Hall]. by intros x [_ ?].
      * intros Hd. specialize (Hsum Hd). rewrite fmap_cons, sum_Z_cons, Hsum, E.
        unfold run_bytes. rewrite PAGE_SIZE_eq in *. lia.
    + rewrite E. rewrite PAGE_SIZE_eq in *. lia.
    + done.
    + rewrite LONG_small by lia. lia.
    + rewrite Hq. rewrite LONG_small by lia. lia.
Qed.

(** The loop neither meets [BUG()] nor, with one iteration per page, runs out
    of its budget. *)
Lemma alloc_loop_avoids f fuel buffer sr max_order pages i w :
  f <> F_fault ->
  (f = F_timeout ->
   (Z.to_nat (sr / PAGE_SIZE) <= fuel)%nat /\ sr < 2 ^ 31 /\ (PAGE_SIZE | sr)) ->
  ~ fails f (alloc_loop fuel buffer sr max_order pages i w).
Proof.
  intros Hf. revert sr max_order pages i w.
  induction fuel as [|fuel IH]; intros sr max_order pages i w Hfuel.
  - cbn [alloc_loop]. destruct (Z.ltb_spec 0 sr) as [Hpos|Hneg]; [|by apply avoids_ret].
    destruct f; [exact id | done |]. destruct Hfuel as (Hn & Hsr & [q ->]); [done|].
    rewrite PAGE_SIZE_eq in *. rewrite Z.div_mul in Hn by lia. lia.
  - cbn [alloc_loop]. destruct (Z.ltb_spec 0 sr) as [Hpos|Hneg]; [|by apply avoids_ret].
    apply avoids_bind_post; [by apply avoids_alloc_largest_available|].
    intros w0 [pg|] w1 Hpg; [|by apply avoids_ret].
    apply IH. intros ->. destruct Hfuel as (Hn & Hsr & Hdiv); [done|].
    apply alloc_largest_available_Some in Hpg as (Ho & Hfit & Hcap).
    destruct (alloc_loop_step sr (ion_page_order pg)) as (E & Hsr' & Hdiv' & Hq);
      [lia | done .. |].
    cbv zeta in E, Hsr', Hdiv', Hq.
    assert (0 < 2 ^ ion_page_order pg <= 256) as Hrun
      by (apply orders_cases in Ho as [-> | [-> | ->]]; lia).
    assert (2 ^ ion_page_order pg <= sr / PAGE_SIZE) as Hroom.
    { pose proof (Z.div_pos _ PAGE_SIZE Hsr' eq_refl) as Hd. rewrite Hq in Hd. lia. }
    rewrite Hq. split; [lia|]. split; [|done]. rewrite E, PAGE_SIZE_eq. lia.
Qed.

(** ** The [from_pool] label when no other thread interferes *)

Lemma ion_page_pool_alloc_Ok idx w r w1 :
  ion_page_pool_alloc idx w = Ok (r, w1) ->
  exists pool,
    pools w !! idx = Some pool /\ others w1 = others w /\
    ((exists p, r = Some p) \/
     (high_items pool = [] /\ low_items pool = [] /\ pools w1 = pools w)).
Proof.
  unfold ion_page_pool_alloc. intros H. inv_ok H.
  unfold get_pool in Hm. destruct (pools w !! idx) as [pool|] eqn:E; [|discriminate].
  injection Hm as <- <-. exists pool. split; [done|]. inv_ok Hk. inv_ok Hm.
  destruct (high_items pool) as [|p hi], (low_items pool) as [|q lo].
  - unfold alloc_pages in Hk0. injection Hk0 as _ <-. split; [done|]. by right.
  - inv_ok Hk0. unfold put_pool in Hm. injection Hm as <-. inv_ok Hk. split; eauto.
  - inv_ok Hk0. unfold put_pool in Hm. injection Hm as <-. inv_ok Hk. split; eauto.
  - inv_ok Hk0. unfold put_pool in Hm. injection Hm as <-. inv_ok Hk. split; eauto.
Qed.

Lemma alloc_buffer_page_uncached buffer o idx w r w1 :
  ion_buffer_cached buffer = false ->
  order_to_index o = Ok idx ->
  alloc_buffer_page buffer o w = Ok (r, w1) ->
  exists pool,
    pools w !! idx = Some pool /\ others w1 = others w /\
    ((exists p, r = Some (page_at p)) \/
     (r = None /\ high_items pool = [] /\ low_items pool = [] /\ pools w1 = pools w)).
Proof.
  intros Hnc Hidx. unfold alloc_buffer_page. rewrite Hnc, Hidx. cbn [negb].
  intros H. inv_ok H. inv_ok Hm. injection Hm as <-. inv_ok Hk.
  apply ion_page_pool_alloc_Ok in Hm as (pool & Epool & Hothers & Hcase).
  exists pool. split; [done|]. destruct a as [p|].
  - inv_ok Hk0. inv_ok Hk. split; [|eauto].
    destruct (ion_buffer_fault_user_mappings buffer);
      [unfold split_page in Hm|]; by inv_ok Hm.
  - inv_ok Hk0. split; [done|].
    destruct Hcase as [[p [=]] | (? & ? & ?)]. by right.
Qed.

Lemma alloc_largest_available_from_sequential os buffer size max_order w pg w' :
  ion_buffer_cached buffer = false ->
  others w = [] ->
  alloc_largest_available_from os buffer size max_order false w = Ok (Some pg, w') ->
  exists idx pool,
    order_to_index (ion_page_order pg) = Ok idx /\
    pools w !! idx = Some pool /\
    ion_get_from_pool pg = (0 <? high_count pool) || (0 <? low_count pool).
Proof.
  intros Hnc. revert w. induction os as [|o os IH]; intros w Hseq H;
    cbn [alloc_largest_available_from] in H; [inv_ok H; discriminate|].
  destruct (size <? order_to_size o); [by apply IH|].
  destruct (max_order <? o); [by apply IH|].
  rewrite Hnc in H. cbn [negb] in H.
  inv_ok H. inv_ok Hm. inv_ok Hm0. inv_ok Hk0.
  unfold get_pool in Hm. destruct (pools w !! a0) as [pool|] eqn:Epool; [|discriminate].
  injection Hm as <- <-. inv_ok Hk1.
  unfold preempt in Hm. rewrite Hseq in Hm. injection Hm as <- <-.
  inv_ok Hk0. inv_ok Hk.
  apply (alloc_buffer_page_uncached buffer o a0) in Hm
    as (pool' & Epool' & Hothers & Hcase); [|done..].
  rewrite Epool in Epool'. injection Epool' as <-.
  destruct Hcase as [[p ->] | (-> & Hhi & Hlo & Hpools)].
  - inv_ok Hk0. injection Hk0 as ->.
    exists a0, pool. split; [|split; [done|]];
      by destruct ((0 <? high_count pool) || (0 <? low_count pool)).
  - assert ((0 <? high_count pool) || (0 <? low_count pool) = false) as Hempty
      by (unfold high_count, low_count; by rewrite Hhi, Hlo).
    rewrite Hempty in Hk0. apply IH in Hk0 as (idx & pl & Ei & El & Elabel);
      [|congruence].
    rewrite Hpools in El. eauto.
Qed.

(** X3.  With no other thread at work, the label of a run is the test of
    the counters of the pool of the run's own order. *)
Lemma alloc_largest_available_label_sequential buffer size max_order w pg w' :
  ion_buffer_cached buffer = false ->
  others w = [] ->
  alloc_largest_available buffer size max_order w = Ok (Some pg, w') ->
  exists idx pool,
    order_to_index (ion_page_order pg) = Ok idx /\
    pools w !! idx = Some pool /\
    ion_get_from_pool pg = (0 <? high_count pool) || (0 <? low_count pool).
Proof. apply alloc_largest_available_from_sequential. Qed.

(** ** The scatter/gather table *)

Lemma sg_set_page_Ok l sg pg len off :
  (sg < length l)%nat ->
  sg_set_page l sg pg len off =
  Ok (<[sg := {| sg_page := Some pg; sg_length := len; sg_offset := off |}]> l).
Proof. intros H. unfold sg_set_page. by rewrite decide_True. Qed.

(** Writing one entry at [sg] and moving on turns the table
    [take sg l ++ _ :: rest] into [take (S sg) l' ++ rest]. *)
Lemma insert_take_drop (l : list scatterlist) sg e :
  (sg < length l)%nat ->
  take (S sg) (<[sg := e]> l) = take sg l ++ [e] /\
  forall k, drop (S sg + k) (<[sg := e]> l) = drop (S sg + k) l.
Proof.
  intros H. split.
  - rewrite (take_S_r _ _ e) by (by apply list_lookup_insert_eq).
    by rewrite take_insert_ge.
  - intros k. apply drop_insert_lt. lia.
Qed.

Lemma sg_set_split_spec offs l sg pg :
  (sg + length offs <= length l)%nat ->
  sg_set_split offs l sg pg =
  Ok (take sg l ++ (page_entry pg <$> offs) ++ drop (sg + length offs) l,
      (sg + length offs)%nat).
Proof.
  revert l sg. induction offs as [|i offs IH]; intros l sg H.
  - cbn [sg_set_split length fmap list_fmap app]. rewrite Nat.add_0_r.
    by rewrite take_drop.
  - cbn [sg_set_split]. cbn [length] in H.
    rewrite sg_set_page_Ok by lia.
    rewrite IH by (rewrite length_insert; lia).
    destruct (insert_take_drop l sg (page_entry pg i)) as [Et Ed]; [lia|].
    rewrite fmap_cons. cbn [length].
    replace (sg + S (length offs))%nat with (S sg + length offs)%nat by lia.
    fold (page_entry pg i). rewrite Et, Ed, <- app_assoc. reflexivity.
Qed.

(** Writing [b] behind [a] is writing [a ++ b]. *)
Lemma splice_twice {A} (l a b : list A) sg :
  (sg + (length a + length b) <= length l)%nat ->
  take (sg + length a) (take sg l ++ a ++ drop (sg + length a) l) ++ b
    ++ drop (sg + length a + length b) (take sg l ++ a ++ drop (sg + length a) l)
  = take sg l ++ (a ++ b) ++ drop (sg + length (a ++ b)) l.
Proof.
  intros H. rewrite !(app_assoc (take sg l) a).
  assert (length (take sg l ++ a) = (sg + length a)%nat) as El
    by (rewrite length_app, length_take; lia).
  rewrite take_app_length' by done. rewrite <- El at 1.
  rewrite drop_app_add, drop_drop, length_app, <- !app_assoc.
  by rewrite Nat.add_assoc.
Qed.

Lemma split_count o : o ∈ orders -> LONG (Z.shiftl 1 o) = 2 ^ o.
Proof. intros H. apply orders_cases in H as [-> | [-> | ->]]; reflexivity. Qed.

(** With room for them, the loop writes the entries of the run list in pack
    order from [sg] on and leaves the rest of the table as it was. *)
Lemma fill_table_spec split_pages pages l sg all :
  Forall (fun pg => ion_page_order pg ∈ orders) pages ->
  (sg + length (entries split_pages pages) <= length l)%nat ->
  fill_table split_pages pages l sg all =
  Ok (take sg l ++ entries split_pages pages
        ++ drop (sg + length (entries split_pages pages)) l,
      all && forallb ion_get_from_pool pages).
Proof.
  intros Hall. revert l sg all.
  induction Hall as [|pg pages Ho _ IH]; intros l sg all Hroom.
  - cbn [fill_table]. replace (entries split_pages []) with (@nil scatterlist)
      by (by destruct split_pages).
    cbn [length app forallb]. rewrite Nat.add_0_r, take_drop, andb_true_r. done.
  - cbn [fill_table forallb].
    assert (Eall : (if all && negb (ion_get_from_pool pg) then false else all)
                   = all && ion_get_from_pool pg)
      by (by destruct all, (ion_get_from_pool pg)).
    rewrite Eall, andb_assoc. clear Eall.
    destruct split_pages; cbn [entries] in *.
    + rewrite bind_cons in Hroom |- *. rewrite length_app in Hroom.
      rewrite split_count by done.
      assert (length (seqZ 0 (2 ^ ion_page_order pg)) = length (split_entries pg)) as El
        by (unfold split_entries; by rewrite length_fmap).
      rewrite sg_set_split_spec by lia.
      fold (split_entries pg). rewrite El, IH.
      * f_equal. f_equal. by apply splice_twice.
      * rewrite !length_app, length_take, length_drop. lia.
    + rewrite fmap_cons in Hroom. cbn [length] in Hroom.
      rewrite run_extent by done. fold (run_bytes pg).
      rewrite sg_set_page_Ok by lia. fold (run_entry pg).
      rewrite IH by (rewrite length_insert; lia).
      destruct (insert_take_drop l sg (run_entry pg)) as [Et Ed]; [lia|].
      rewrite Et, Ed, <- app_assoc, fmap_cons. cbn [length app].
      by rewrite Nat.add_succ_r.
Qed.

(** Whatever the room, the flag the loop computes is the conjunction of the
    labels of the run list. *)
Lemma fill_table_all split_pages pages l sg all l' all' :
  fill_table split_pages pages l sg all = Ok (l', all') ->
  all' = all && forallb ion_get_from_pool pages.
Proof.
  revert l sg all. induction pages as [|pg pages IH]; intros l sg all H.
  - cbn [fill_table] in H. injection H as _ <-. by rewrite andb_true_r.
  - cbn [fill_table] in H.
    match type of H with match ?s with _ => _ end = _ =>
      destruct s as [[l1 sg1]| | |]; try discriminate end.
    apply IH in H as ->. cbn [forallb].
    by destruct all, (ion_get_from_pool pg).
Qed.

(** ** [ion_system_heap_allocate] *)

(** The remaining size the loop starts from is a whole number of pages. *)
Lemma size_remaining_pages size :
  LONG (PAGE_ALIGN size) < 2 ^ 31 /\ (PAGE_SIZE | LONG (PAGE_ALIGN size)) /\
  0 + LONG (PAGE_ALIGN size) / PAGE_SIZE < 2 ^ 31.
Proof.
  pose proof (PAGE_ALIGN_range size) as Hr.
  destruct (PAGE_ALIGN_pages size) as [q Hq].
  rewrite PAGE_SIZE_eq in *.
  destruct (Z.lt_ge_cases (PAGE_ALIGN size) (2 ^ 31)) as [Hlo|Hhi].
  - rewrite LONG_small by lia. split; [lia|]. split; [by exists q|].
    rewrite Hq, Z.div_mul by lia. lia.
  - rewrite LONG_high by lia. split; [lia|]. split.
    + exists (q - 1048576). lia.
    + replace (PAGE_ALIGN size - 2 ^ 32) with ((q - 1048576) * 4096) by lia.
      rewrite Z.div_mul by lia. lia.
Qed.

(** The [while] loop of a call that returns: its run list is made of runs of
    the order set in non-increasing order, one count per run, and sums to the
    remaining size if the loop ran to its end. *)
Lemma alloc_loop_of_allocate buffer size w fin pages i w1 :
  alloc_loop (alloc_budget (LONG (PAGE_ALIGN size))) buffer
    (LONG (PAGE_ALIGN size)) (hd 0 orders) [] 0 w = Ok ((fin, pages, i), w1) ->
  i = Z.of_nat (length pages) /\
  Forall (fun pg => ion_page_order pg ∈ orders) pages /\
  StronglySorted (fun a b => ion_page_order b <= ion_page_order a) pages /\
  (fin = true -> sum_Z (run_bytes <$> pages) = Z.max (LONG (PAGE_ALIGN size)) 0).
Proof.
  intros H. destruct (size_remaining_pages size) as (Hsr & Hdiv & Hcount).
  apply alloc_loop_spec in H as (new & -> & -> & Hall & Hsorted & Hsum);
    [|done | done | lia | done].
  rewrite app_nil_l. split; [lia|]. split; [|done].
  eapply List.Forall_impl; [|exact Hall]. by intros pg [? _].
Qed.

Lemma keeps_kmalloc size flags : keeps (frame slab_event) (kmalloc size flags).
Proof.
  intros w a w' H. unfold kmalloc in H. injection H as _ <-.
  split; [done | eexists [_]; split; [reflexivity | by constructor]].
Qed.

Lemma keeps_kfree p : keeps (frame slab_event) (kfree p).
Proof. by apply keeps_emit_frame. Qed.

Lemma sg_alloc_table_Ok table n gfp w t w' :
  sg_alloc_table table n gfp w = Ok (t, w') ->
  frame slab_event w w' /\
  (t = None \/
   t = Some {| table_addr := table; sgl := replicate (Z.to_nat n) sg_zero; nents := n |}).
Proof.
  unfold sg_alloc_table. intros H. injection H as <- <-.
  split; [split; [done | eexists [_]; split; [reflexivity | by constructor]]|].
  destruct (host_slab w) as [|[?|] ?]; auto.
Qed.

(** The two ways [ion_system_heap_allocate] returns. *)
Lemma ion_system_heap_allocate_inv buffer size align flags w r b' w' :
  ion_system_heap_allocate buffer size align flags w = Ok ((r, b'), w') ->
  exists fin pages i w1,
    alloc_loop (alloc_budget (LONG (PAGE_ALIGN size))) buffer
      (LONG (PAGE_ALIGN size)) (hd 0 orders) [] 0 w = Ok ((fin, pages, i), w1) /\
    ((exists w2, frame slab_event w1 w2 /\
                 allocate_err buffer pages w2 = Ok ((r, b'), w'))
     \/
     (fin = true /\ r = 0 /\ after (fun _ => True) w1 w' /\
      exists n l all,
        n = (if ion_buffer_fault_user_mappings buffer
             then PAGE_ALIGN size / PAGE_SIZE else i) /\
        fill_table (ion_buffer_fault_user_mappings buffer) pages
          (replicate (Z.to_nat n) sg_zero) 0 true = Ok (l, all) /\
        exists ta,
          b' = set_priv_virt
                 (if all || ion_buffer_sync_force buffer
                  then ion_buffer_set_ready buffer else buffer)
                 (Priv_table {| table_addr := ta; sgl := l; nents := n |}))).
Proof.
  unfold ion_system_heap_allocate. intros H. inv_ok H.
  destruct a as [[fin pages] i]. exists fin, pages, i, w0. split; [done|].
  destruct fin; cbn [negb] in Hk.
  2:{ left. exists w0. split; [reflexivity | done]. }
  inv_ok Hk. apply keeps_kmalloc in Hm0 as Hf1.
  destruct a as [m|]; [|left; eauto].
  inv_ok Hk0.
  assert (exists n, n = (if ion_buffer_fault_user_mappings buffer
                         then PAGE_ALIGN size / PAGE_SIZE else i)
                    /\ sg_alloc_table (kaddr m) n GFP_KERNEL w1 = Ok (a, w2))
    as (n & En & Hsg) by (destruct (ion_buffer_fault_user_mappings buffer); eauto).
  clear Hm1. apply sg_alloc_table_Ok in Hsg as [Hf2 [-> | ->]].
  - left. inv_ok Hk. apply keeps_kfree in Hm1 as Hf3.
    exists w3. split; [|done]. by do 2 (etransitivity; [eassumption|]).
  - right. split; [done|]. inv_ok Hk. inv_ok Hm1. destruct a as [l all].
    inv_ok Hk0. inv_ok Hk. injection Hk as -> ->.
    split; [done|]. split.
    + destruct Hf1 as [_ A1], Hf2 as [_ A2].
      etransitivity; [by eapply after_mono, A1|].
      etransitivity; [by eapply after_mono, A2|].
      destruct (ion_buffer_sync_force buffer);
        [unfold ion_device_sync in Hm2|]; inv_ok Hm2;
        [by apply after_log | reflexivity].
    + eexists _, l, all. split; [done|]. split; [done|]. by eexists.
Qed.

(** ** Handing runs back *)

Lemma for_each_emit {A} (l : list A) (e : A -> event) w :
  for_each l (fun a => emit (e a)) w
  = Ok (tt, fold_left (fun w a => log (e a) w) l w).
Proof.
  revert w. induction l as [|a l IH]; intros w; [done|].
  cbn [for_each fold_left]. unfold bind at 1. cbn [emit]. apply IH.
Qed.

Lemma fold_log_trace {A} (l : list A) (e : A -> event) w :
  trace (fold_left (fun w a => log (e a) w) l w) = trace w ++ (e <$> l) /\
  pools (fold_left (fun w a => log (e a) w) l w) = pools w.
Proof.
  revert w. induction l as [|a l IH]; intros w; cbn [fold_left].
  - by rewrite app_nil_r.
  - destruct (IH (log (e a) w)) as [-> ->]. cbn [log trace pools].
    by rewrite <- app_assoc.
Qed.

(** What [ion_page_pool_free] does to the world: one call is recorded and
    the pool at [idx] holds one page more. *)
Lemma ion_page_pool_free_Ok idx p w w' :
  ion_page_pool_free idx p w = Ok (tt, w') ->
  exists pool pool',
    pools w !! idx = Some pool /\
    pools w' = <[idx := pool']> (pools w) /\
    pool_count pool' = pool_count pool + 1 /\
    trace w' = trace w ++ [Ev_pool_free idx p].
Proof.
  unfold ion_page_pool_free. intros H. inv_ok H.
  unfold get_pool in Hm. destruct (pools w !! idx) as [pool|] eqn:E; [|discriminate].
  injection Hm as <- <-. inv_ok Hk. unfold PageHighMem in Hm. injection Hm as <- <-.
  inv_ok Hk0. inv_ok Hm. unfold put_pool in Hk. injection Hk as <-.
  eexists pool, _. split; [done|]. split; [reflexivity|]. split; [|done].
  unfold pool_count, high_count, low_count.
  destruct (highstart_pfn w <=? p); cbn [with_items high_items low_items length]; lia.
Qed.

Lemma free_buffer_page_trace buffer p o w w' :
  o ∈ orders ->
  free_buffer_page buffer (Some p) (LONG o) w = Ok (tt, w') ->
  trace w' = trace w ++ free_events buffer p o.
Proof.
  intros Ho. assert (LONG o = o) as ->
    by (apply orders_cases in Ho as [-> | [-> | ->]]; reflexivity).
  unfold free_buffer_page, free_events.
  destruct (ion_buffer_cached buffer); cbn [negb].
  - destruct (ion_buffer_fault_user_mappings buffer).
    + rewrite split_count by done. intros H.
      assert (Hfe : forall l w, for_each l (fun i => let* p0 := deref (Some p) in __free_page (p0 + i)) w
                   = for_each l (fun i => emit (Ev___free_page (p + i))) w).
      { clear. induction l as [|i l IH]; intros w; [done|].
        cbn [for_each]. unfold bind at 1 3. cbn [deref]. unfold bind at 1.
        cbn [__free_page emit]. apply IH. }
      rewrite Hfe, for_each_emit in H. injection H as <-.
      apply fold_log_trace.
    + intros H. inv_ok H. inv_ok Hm. injection Hm as ->. unfold __free_pages in Hk.
      by inv_ok Hk.
  - intros H. inv_ok H. inv_ok Hm. rewrite Hm. inv_ok Hk. inv_ok Hm0.
    injection Hm0 as ->. by apply ion_page_pool_free_Ok in Hk0 as (? & ? & _ & _ & _ & ?).
Qed.

(** The code at the label [err]: every run of the run list is handed back,
    in order, the buffer is as it was and the call fails with [-ENOMEM]. *)
Lemma allocate_err_Ok buffer pages w r b' w' :
  Forall (fun pg => ion_page_order pg ∈ orders) pages ->
  allocate_err buffer pages w = Ok ((r, b'), w') ->
  r = - ENOMEM /\ b' = buffer /\
  trace w' = trace w ++ (pages ≫= release_events buffer).
Proof.
  unfold allocate_err. intros Hall H. inv_ok H. inv_ok Hk. injection Hk as -> ->.
  split; [done|]. split; [done|]. destruct a.
  revert w Hm. induction Hall as [|pg pages Ho _ IH]; intros w H.
  - cbn [for_each] in H. inv_ok H. by rewrite app_nil_r.
  - cbn [for_each] in H. inv_ok H. destruct a.
    apply free_buffer_page_trace in Hm; [|done].
    apply IH in Hk. rewrite Hk, Hm, bind_cons, <- app_assoc. done.
Qed.

Lemma release_events_nonempty buffer pg :
  ion_page_order pg ∈ orders -> release_events buffer pg <> [].
Proof.
  intros Ho. unfold release_events, free_events.
  destruct (order_to_index_Ok _ Ho) as (i & -> & _).
  destruct (ion_buffer_cached buffer), (ion_buffer_fault_user_mappings buffer);
    cbn [negb]; try done.
  apply orders_cases in Ho as [-> | [-> | ->]]; done.
Qed.

(** ** The table of a buffer *)

Lemma split_entries_length pg :
  ion_page_order pg ∈ orders ->
  Z.of_nat (length (split_entries pg)) * PAGE_SIZE = run_bytes pg.
Proof.
  intros Ho. unfold split_entries, run_bytes.
  rewrite length_fmap, length_seqZ.
  apply orders_cases in Ho as [-> | [-> | ->]]; reflexivity.
Qed.

Lemma split_entries_bytes pg : 
  ion_page_order pg ∈ orders ->
  sum_Z (sg_length <$> split_entries pg) = run_bytes pg.
Proof.
  intros Ho. rewrite <- split_entries_length by done.
  unfold split_entries. generalize (seqZ 0 (2 ^ ion_page_order pg)).
  induction l as [|i l IH]; [done|].
  rewrite !fmap_cons, sum_Z_cons, IH. cbn [length page_entry sg_length]. lia.
Qed.

(** The entries of a run list describe the bytes of its runs. *)
Lemma entries_bytes split_pages pages :
  Forall (fun pg => ion_page_order pg ∈ orders) pages ->
  sum_Z (sg_length <$> entries split_pages pages) = sum_Z (run_bytes <$> pages).
Proof.
  induction 1 as [|pg pages Ho _ IH]; [by destruct split_pages|].
  rewrite fmap_cons, sum_Z_cons, <- IH. destruct split_pages; cbn [entries].
  - by rewrite bind_cons, fmap_app, sum_Z_app, split_entries_bytes.
  - by rewrite !fmap_cons, sum_Z_cons.
Qed.

Lemma entries_split_length pages :
  Forall (fun pg => ion_page_order pg ∈ orders) pages ->
  Z.of_nat (length (entries true pages)) * PAGE_SIZE = sum_Z (run_bytes <$> pages).
Proof.
  induction 1 as [|pg pages Ho _ IH]; [done|]. cbn [entries] in *.
  rewrite bind_cons, length_app, fmap_cons, sum_Z_cons, <- IH,
    <- split_entries_length by done. lia.
Qed.

(** A table with no room to spare is, once filled, the entries of the run
    list. *)
Lemma fill_table_exact split_pages pages n l all :
  Forall (fun pg => ion_page_order pg ∈ orders) pages ->
  n = length (entries split_pages pages) ->
  fill_table split_pages pages (replicate n sg_zero) 0 true = Ok (l, all) ->
  l = entries split_pages pages.
Proof.
  intros Hall -> H. rewrite fill_table_spec in H; [|done|].
  - injection H as <- _. cbn [take app Nat.add].
    rewrite drop_ge by (by rewrite length_replicate). by rewrite app_nil_r.
  - by rewrite length_replicate.
Qed.

Lemma run_entry_order pg :
  ion_page_order pg ∈ orders -> get_order (sg_dma_len (run_entry pg)) = ion_page_order pg.
Proof. intros Ho. by apply get_order_extent. Qed.

Lemma run_entries_orders pages :
  Forall (fun pg => ion_page_order pg ∈ orders) pages ->
  get_order <$> (sg_dma_len <$> (run_entry <$> pages)) = ion_page_order <$> pages.
Proof.
  induction 1 as [|pg pages Ho _ IH]; [done|].
  rewrite !fmap_cons, IH. f_equal. by apply run_entry_order.
Qed.

(** A run list in non-increasing order makes a table in non-increasing
    order. *)
Lemma run_entries_sorted pages :
  Forall (fun pg => ion_page_order pg ∈ orders) pages ->
  StronglySorted (fun a b => ion_page_order b <= ion_page_order a) pages ->
  StronglySorted (fun a b => get_order (sg_dma_len b) <= get_order (sg_dma_len a))
    (run_entry <$> pages).
Proof.
  intros Hall Hsorted. induction Hsorted as [|pg pages Hs IH Hle]; [constructor|].
  inversion Hall as [|? ? Ho Hall']; subst.
  rewrite fmap_cons. constructor; [by apply IH|].
  apply Forall_fmap, Forall_forall. intros x Hx.
  rewrite Forall_forall in Hle, Hall'. unfold compose.
  rewrite !run_entry_order by auto. by apply Hle.
Qed.

(** X1.  In the range of sizes whose padding fits a [long], a buffer that is
    allocated holds a run list that is not empty and a table of the entries
    of that list, which describe the padded size. *)
Theorem size_fidelity_in_range buffer size align flags w b' w' :
  0 < size <= 2 ^ 31 - PAGE_SIZE ->
  ion_system_heap_allocate buffer size align flags w = Ok ((0, b'), w') ->
  exists pages w1 t,
    packs buffer size w true pages w1 /\ pages <> [] /\
    priv_virt b' = Priv_table t /\
    sgl t = entries (ion_buffer_fault_user_mappings buffer) pages /\
    sg_bytes t = PAGE_ALIGN size.
Proof.
  intros Hsize H.
  assert (0 < PAGE_ALIGN size < 2 ^ 31) as Hpad.
  { rewrite PAGE_SIZE_eq in Hsize. rewrite PAGE_ALIGN_pad, PAGE_SIZE_eq by (rewrite PAGE_SIZE_eq; lia).
    pose proof (Z.mul_div_le (size + 4096 - 1) 4096).
    pose proof (Z.mod_pos_bound (size + 4096 - 1) 4096).
    pose proof (Z.div_mod (size + 4096 - 1) 4096). lia. }
  apply ion_system_heap_allocate_inv in H
    as (fin & pages & i & w1 & Hloop & [(w2 & _ & Herr) | (-> & _ & _ & n & l & all & En & Hfill & ta & ->)]).
  { apply alloc_loop_of_allocate in Hloop as (_ & Hall & _).
    apply allocate_err_Ok in Herr as (Hr & _); [|done]. discriminate. }
  pose proof Hloop as Hpack.
  apply alloc_loop_of_allocate in Hloop as (Ei & Hall & _ & Hsum).
  specialize (Hsum eq_refl). rewrite LONG_small, Z.max_l in Hsum by lia.
  assert (l = entries (ion_buffer_fault_user_mappings buffer) pages) as ->.
  { eapply fill_table_exact; [done | | exact Hfill]. rewrite En.
    destruct (ion_buffer_fault_user_mappings buffer); cbn [entries].
    - pose proof (entries_split_length pages Hall) as El. cbn [entries] in El.
      rewrite <- Hsum, <- El, Z.div_mul by (by rewrite PAGE_SIZE_eq). lia.
    - rewrite length_fmap. lia. }
  exists pages, w1,
    {| table_addr := ta;
       sgl := entries (ion_buffer_fault_user_mappings buffer) pages; nents := n |}.
  split; [by exists i|]. split; [|split; [done|split; [done|]]].
  - intros ->. cbn in Hsum. lia.
  - unfold sg_bytes. cbn [sgl]. by rewrite entries_bytes.
Qed.

(** ** The cached path *)

Lemma keeps_alloc_pages_direct order :
  keeps (frame host_direct)
    (alloc_pages (if 0 <? order then high_order_gfp_flags else low_order_gfp_flags) order).
Proof.
  intros w a w' H. unfold alloc_pages in H. injection H as _ <-.
  split; [done | eexists [_]; split; [reflexivity | by constructor]].
Qed.

Lemma keeps_kmalloc_direct size flags : keeps (frame host_direct) (kmalloc size flags).
Proof.
  intros w a w' H. unfold kmalloc in H. injection H as _ <-.
  split; [done | eexists [_]; split; [reflexivity | by constructor]].
Qed.

Lemma keeps_sg_alloc_table_direct table n gfp : keeps (frame host_direct) (sg_alloc_table table n gfp).
Proof.
  intros w a w' H. unfold sg_alloc_table in H. injection H as _ <-.
  split; [done | eexists [_]; split; [reflexivity | by constructor]].
Qed.

Section Cached.
Context (buffer : ion_buffer) (Hcached : ion_buffer_cached buffer = true).

Lemma keeps_alloc_buffer_page_cached order :
  keeps (frame host_direct) (alloc_buffer_page buffer order).
Proof.
  unfold alloc_buffer_page. rewrite Hcached. cbn [negb].
  apply keeps_bind; [apply _ | apply keeps_lift, _ |]. intros idx.
  apply keeps_bind; [apply _ | apply keeps_alloc_pages_direct |].
  intros [p|]; [|apply keeps_ret, _].
  apply keeps_bind; [apply _ | | intros _; apply keeps_ret, _].
  apply keeps_if; [by apply keeps_emit_frame | apply keeps_ret, _].
Qed.

Lemma keeps_alloc_largest_available_from_cached os size max_order from_pool :
  keeps (frame host_direct)
    (alloc_largest_available_from os buffer size max_order from_pool).
Proof.
  revert from_pool. induction os as [|o os IH]; intros from_pool;
    cbn [alloc_largest_available_from]; [apply keeps_ret, _|].
  destruct (size <? order_to_size o); [apply IH|].
  destruct (max_order <? o); [apply IH|].
  rewrite Hcached. cbn [negb].
  apply keeps_bind; [apply _ | apply keeps_ret, _ |]. intros fp.
  apply keeps_bind; [apply _ | apply keeps_alloc_buffer_page_cached |].
  intros [pg|]; [apply keeps_ret, _ | apply IH].
Qed.

Lemma keeps_alloc_loop_cached fuel sr max_order pages i :
  keeps (frame host_direct) (alloc_loop fuel buffer sr max_order pages i).
Proof.
  revert sr max_order pages i. induction fuel as [|fuel IH]; intros sr max_order pages i;
    cbn [alloc_loop]; destruct (0 <? sr); try apply keeps_ret, _.
  - intros w a w' H. discriminate.
  - apply keeps_bind; [apply _ | apply keeps_alloc_largest_available_from_cached |].
    intros [pg|]; [apply IH | apply keeps_ret, _].
Qed.

Lemma keeps_free_buffer_page_host pg order :
  keeps (frame is_host_free) (free_buffer_page buffer pg order).
Proof.
  unfold free_buffer_page. rewrite Hcached. cbn [negb].
  destruct (ion_buffer_fault_user_mappings buffer).
  - apply keeps_for_each; [apply _|]. intros i.
    apply keeps_bind; [apply _ | apply keeps_deref, _ |]. intros p.
    by apply keeps_emit_frame.
  - apply keeps_bind; [apply _ | apply keeps_deref, _ |]. intros p.
    by apply keeps_emit_frame.
Qed.

Lemma keeps_free_buffer_page_cached pg order :
  keeps (frame host_direct) (free_buffer_page buffer pg order).
Proof.
  intros w a w' H. apply keeps_free_buffer_page_host in H as [Hp Ha].
  split; [done|]. eapply after_mono; [|exact Ha]. by intros [].
Qed.

Lemma keeps_allocate_err_cached pages :
  keeps (frame host_direct) (allocate_err buffer pages).
Proof.
  unfold allocate_err.
  apply keeps_bind; [apply _ | | intros _; apply keeps_ret, _].
  apply keeps_for_each; [apply _|]. intros pg. apply keeps_free_buffer_page_cached.
Qed.

Lemma keeps_allocate_cached size align flags :
  keeps (frame host_direct) (ion_system_heap_allocate buffer size align flags).
Proof.
  unfold ion_system_heap_allocate.
  apply keeps_bind; [apply _ | apply keeps_alloc_loop_cached |].
  intros [[fin pages] i]. destruct fin; cbn [negb]; [|apply keeps_allocate_err_cached].
  apply keeps_bind; [apply _ | apply keeps_kmalloc_direct |].
  intros [m|]; [|apply keeps_allocate_err_cached].
  apply keeps_bind; [apply _ | apply keeps_if; apply keeps_sg_alloc_table_direct |].
  intros [t|].
  - apply keeps_bind; [apply _ | apply keeps_lift, _ |]. intros [l all].
    apply keeps_bind; [apply _ | | intros _; apply keeps_ret, _].
    apply keeps_if; [by apply keeps_emit_frame | apply keeps_ret, _].
  - apply keeps_bind; [apply _ | by apply keeps_emit_frame |].
    intros _. apply keeps_allocate_err_cached.
Qed.

(** The calls of [free_buffer_page] for an entry of the table of a cached
    buffer. *)
Lemma free_buffer_page_host_trace sg w w' :
  free_buffer_page buffer (sg_page sg) (get_order (sg_dma_len sg)) w = Ok (tt, w') ->
  pools w' = pools w /\
  trace w' = trace w ++ host_free_events (ion_buffer_fault_user_mappings buffer) sg.
Proof.
  unfold free_buffer_page, host_free_events. rewrite Hcached. cbn [negb].
  destruct (ion_buffer_fault_user_mappings buffer).
  - generalize (seqZ 0 (LONG (Z.shiftl 1 (get_order (sg_dma_len sg))))). intros l.
    revert w. induction l as [|i l IH]; intros w H; cbn [for_each] in H.
    + inv_ok H. destruct (sg_page sg); by rewrite app_nil_r.
    + inv_ok H. inv_ok Hm. inv_ok Hm0. rewrite Hm0 in *. unfold __free_page in Hk0.
      inv_ok Hk0. apply IH in Hk as [Hp Ht]. cbn [log pools trace] in *.
      split; [done|]. by rewrite Ht, fmap_cons, <- app_assoc.
  - intros H. inv_ok H. inv_ok Hm. rewrite Hm. unfold __free_pages in Hk. by inv_ok Hk.
Qed.

(** The release of a cached buffer: the run of every entry goes to the host,
    in table order, then the table is given up; the pools are as they
    were. *)
Lemma free_cached_Ok t w w' :
  buf_sg_table buffer = Some t ->
  ion_system_heap_free buffer w = Ok (tt, w') ->
  pools w' = pools w /\
  trace w' = trace w
             ++ (visited t ≫= host_free_events (ion_buffer_fault_user_mappings buffer))
             ++ [Ev_sg_free_table (table_addr t); Ev_kfree (table_addr t)] /\
  Forall is_host_free
    (visited t ≫= host_free_events (ion_buffer_fault_user_mappings buffer)).
Proof.
  unfold ion_system_heap_free. rewrite Hcached. cbn [negb andb].
  intros Ht H. rewrite Ht in H. inv_ok H. inv_ok Hm. inv_ok Hk. inv_ok Hm.
  injection Hm as <-. inv_ok Hk0. destruct a.
  unfold sg_free_table, kfree, bind, emit in Hk. injection Hk as <-.
  fold (visited t) in Hm. cbn [log trace pools].
  assert (pools w0 = pools w /\
          trace w0 = trace w
             ++ (visited t ≫= host_free_events (ion_buffer_fault_user_mappings buffer)))
    as [Hp Htr].
  { clear Ht. revert w Hm. induction (visited t) as [|sg l IH]; intros w H;
      cbn [for_each] in H.
    - inv_ok H. by rewrite app_nil_r.
    - inv_ok H. destruct a. apply free_buffer_page_host_trace in Hm as [Hp1 Ht1].
      apply IH in Hk as [Hp2 Ht2]. split; [congruence|].
      by rewrite Ht2, Ht1, bind_cons, <- app_assoc. }
  split; [done|]. split; [by rewrite Htr, <- !app_assoc|].
  apply Forall_bind, Forall_forall. intros sg _. unfold compose, host_free_events.
  destruct (sg_page sg); [|constructor].
  destruct (ion_buffer_fault_user_mappings buffer); [|by repeat constructor].
  apply Forall_fmap, Forall_forall. by intros.
Qed.
End Cached.

(** ** The release path *)

Lemma keeps_ion_page_pool_free P idx p :
  P (Ev_pool_free idx p) -> keeps (after P) (ion_page_pool_free idx p).
Proof.
  intros HP w [] w' H. apply ion_page_pool_free_Ok in H as (_ & _ & _ & _ & _ & E).
  exists [Ev_pool_free idx p]. split; [done | by constructor].
Qed.

(** [free_buffer_page] zeroes nothing. *)
Lemma keeps_free_buffer_page_nozero buffer pg order :
  keeps (after (fun e => ~ is_buffer_zero e)) (free_buffer_page buffer pg order).
Proof.
  unfold free_buffer_page. destruct (ion_buffer_cached buffer); cbn [negb].
  - destruct (ion_buffer_fault_user_mappings buffer).
    + apply keeps_for_each; [apply _|]. intros i.
      apply keeps_bind; [apply _ | apply keeps_deref, _ |]. intros p.
      apply keeps_emit_after. exact id.
    + apply keeps_bind; [apply _ | apply keeps_deref, _ |]. intros p.
      apply keeps_emit_after. exact id.
  - apply keeps_bind; [apply _ | apply keeps_lift, _ |]. intros idx.
    apply keeps_bind; [apply _ | apply keeps_deref, _ |]. intros p.
    apply keeps_ion_page_pool_free. exact id.
Qed.

(** What follows the zeroing in [ion_system_heap_free] zeroes nothing. *)
Lemma keeps_free_entries buffer l ta :
  keeps (after (fun e => ~ is_buffer_zero e))
    (for_each l
       (fun sg => free_buffer_page buffer (sg_page sg) (get_order (sg_dma_len sg)));;
     sg_free_table ta;; kfree ta).
Proof.
  apply keeps_bind; [apply _ | |].
  - apply keeps_for_each; [apply _|]. intros sg. apply keeps_free_buffer_page_nozero.
  - intros _. apply keeps_bind; [apply _ | apply keeps_emit_after; exact id |].
    intros _. apply keeps_emit_after. exact id.
Qed.

(** The pages of a table of single pages, released by a buffer that is not
    cached, all go to the pool at position 2, the pool of order 0. *)
Lemma free_single_pages buffer l w w' :
  ion_buffer_cached buffer = false ->
  Forall (fun sg => sg_dma_len sg = PAGE_SIZE) l ->
  for_each l (fun sg => free_buffer_page buffer (sg_page sg) (get_order (sg_dma_len sg))) w
    = Ok (tt, w') ->
  exists pgs,
    sg_page <$> l = Some <$> pgs /\
    trace w' = trace w ++ (Ev_pool_free 2 <$> pgs) /\
    length (pools w') = length (pools w) /\
    (forall idx, idx <> 2%nat -> pools w' !! idx = pools w !! idx) /\
    pool_count <$> (pools w' !! 2%nat)
      = (fun c => c + Z.of_nat (length l)) <$> (pool_count <$> (pools w !! 2%nat)).
Proof.
  intros Hnc Hall. revert w. induction Hall as [|sg l Hlen _ IH]; intros w H.
  - cbn [for_each] in H. inv_ok H. exists []. cbn [fmap list_fmap length].
    rewrite app_nil_r. repeat split; try done.
    destruct (pools w !! 2%nat); cbn; [f_equal; lia | done].
  - cbn [for_each] in H. inv_ok H. destruct a. rewrite Hlen in Hm.
    unfold free_buffer_page in Hm. rewrite Hnc in Hm. cbn [negb] in Hm.
    change (get_order PAGE_SIZE) with 0 in Hm.
    change (order_to_index 0) with (@Ok nat 2%nat) in Hm.
    inv_ok Hm. inv_ok Hm0. injection Hm0 as <-. inv_ok Hk0. inv_ok Hm.
    apply ion_page_pool_free_Ok in Hk1 as (pool & pool' & Hl & Hp & Hc & Ht).
    apply IH in Hk as (pgs & Epg & Etr & Elen & Hother & Hcount).
    exists (a :: pgs). rewrite !fmap_cons, Epg, Hm.
    split; [done|]. split; [by rewrite Etr, Ht, <- app_assoc|].
    rewrite Hp in Elen, Hother, Hcount. rewrite length_insert in Elen.
    split; [done|]. split.
    + intros idx Hne. rewrite Hother by done. by rewrite list_lookup_insert_ne.
    + rewrite Hcount, list_lookup_insert_eq by (by eapply lookup_lt_Some).
      rewrite Hl. cbn. f_equal. lia.
Qed.

(** [free_buffer_page] on an order of the order set does not meet [BUG()]. *)
Lemma avoids_free_buffer_page buffer pg order :
  order ∈ orders -> avoids F_bug (free_buffer_page buffer pg order).
Proof.
  intros Ho. unfold free_buffer_page.
  destruct (order_to_index_Ok order Ho) as (i & -> & _).
  apply avoids_if; [|apply avoids_if].
  - apply avoids_bind; [apply avoids_lift; exact id|]. intros idx.
    apply avoids_bind; [by apply avoids_deref|]. intros p.
    unfold ion_page_pool_free. auto 8 with avoid.
  - apply avoids_for_each, Forall_forall. intros i' _.
    apply avoids_bind; [by apply avoids_deref|]. intros p. apply avoids_emit.
  - apply avoids_bind; [by apply avoids_deref|]. intros p. apply avoids_emit.
Qed.

(** ** No [BUG()], no exhausted budget *)

Lemma ok_or_fault_avoids {A} f (r : result A) :
  f <> F_fault -> ok_or_fault r -> ~ fails f r.
Proof. intros Hf Hr. destruct r, f; simpl in *; tauto. Qed.

Lemma sg_set_page_cases l sg pg len off : ok_or_fault (sg_set_page l sg pg len off).
Proof. unfold sg_set_page. by destruct (decide _). Qed.

Lemma sg_set_split_cases offs l sg pg : ok_or_fault (sg_set_split offs l sg pg).
Proof.
  revert l sg. induction offs as [|i offs IH]; intros l sg; cbn [sg_set_split]; [done|].
  pose proof (sg_set_page_cases l sg (pg + i) PAGE_SIZE 0) as H.
  destruct (sg_set_page l sg (pg + i) PAGE_SIZE 0); first [done | apply IH].
Qed.

Lemma fill_table_cases split_pages pages l sg all :
  ok_or_fault (fill_table split_pages pages l sg all).
Proof.
  revert l sg all. induction pages as [|pg pages IH]; intros l sg all;
    cbn [fill_table]; [done|].
  destruct split_pages.
  - pose proof (sg_set_split_cases
                  (seqZ 0 (LONG (Z.shiftl 1 (ion_page_order pg)))) l sg (pfn pg)) as H.
    destruct (sg_set_split _ l sg (pfn pg)) as [[l' sg']| | |]; first [done | apply IH].
  - pose proof (sg_set_page_cases l sg (pfn pg)
                  (ULONG (LONG (Z.shiftl 1 (ion_page_order pg)) * PAGE_SIZE)) 0) as H.
    destruct (sg_set_page l sg (pfn pg) _ 0); first [done | apply IH].
Qed.

Lemma avoids_allocate_err buffer pages :
  Forall (fun pg => ion_page_order pg ∈ orders) pages ->
  avoids F_bug (allocate_err buffer pages).
Proof.
  intros Hall. unfold allocate_err.
  apply avoids_bind; [|intros _; apply avoids_ret].
  apply avoids_for_each. eapply List.Forall_impl; [|exact Hall].
  intros pg Ho. cbv beta.
  assert (LONG (ion_page_order pg) = ion_page_order pg) as ->
    by (apply orders_cases in Ho as [-> | [-> | ->]]; reflexivity).
  by apply avoids_free_buffer_page.
Qed.

Lemma avoids_allocate_err_timeout buffer pages :
  avoids F_timeout (allocate_err buffer pages).
Proof.
  unfold allocate_err.
  apply avoids_bind; [|intros _; apply avoids_ret].
  apply avoids_for_each, Forall_forall. intros pg _.
  unfold free_buffer_page. apply avoids_if; [|apply avoids_if].
  - apply avoids_bind.
    { apply avoids_lift. pose proof (order_to_index_from_spec orders (LONG (ion_page_order pg)) 0) as S.
      unfold order_to_index. destruct (order_to_index_from _ _ _); simpl in *; tauto. }
    intros idx. apply avoids_bind; [by apply avoids_deref|]. intros p.
    unfold ion_page_pool_free. auto 8 with avoid.
  - apply avoids_for_each, Forall_forall. intros i' _.
    apply avoids_bind; [by apply avoids_deref|]. intros p. apply avoids_emit.
  - apply avoids_bind; [by apply avoids_deref|]. intros p. apply avoids_emit.
Qed.

(** [ion_system_heap_allocate] meets no [BUG()], and the iterations it gives
    its [while] loop are enough. *)
Lemma ion_system_heap_allocate_avoids f buffer size align flags :
  f <> F_fault -> avoids f (ion_system_heap_allocate buffer size align flags).
Proof.
  intros Hf. unfold ion_system_heap_allocate.
  assert (forall pages, Forall (fun pg => ion_page_order pg ∈ orders) pages ->
                        avoids f (allocate_err buffer pages)) as Herr.
  { intros pages Hall. destruct f; [by apply avoids_allocate_err | done |
                                    apply avoids_allocate_err_timeout]. }
  apply avoids_bind_post.
  { intros w. apply alloc_loop_avoids; [done|]. intros _.
    destruct (size_remaining_pages size) as (Hsr & Hdiv & _). done. }
  intros w [[fin pages] i] w1 Hloop.
  apply alloc_loop_of_allocate in Hloop as (_ & Hall & _).
  revert w1. change (avoids f
    (if negb fin then allocate_err buffer pages
     else let* table := kmalloc sizeof_sg_table GFP_KERNEL in
       match table with
       | Some m =>
           let* t := (if ion_buffer_fault_user_mappings buffer
                      then sg_alloc_table (kaddr m) (PAGE_ALIGN size / PAGE_SIZE) GFP_KERNEL
                      else sg_alloc_table (kaddr m) i GFP_KERNEL) in
           match t with
           | Some t =>
               let* (l, all_pages_from_pool) :=
                 lift (fill_table (ion_buffer_fault_user_mappings buffer) pages (sgl t) 0 true) in
               (if ion_buffer_sync_force buffer
                then ion_device_sync {| table_addr := table_addr t; sgl := l;
                                        nents := nents t |}
                else ret ());;
               ret (0, set_priv_virt
                         (if all_pages_from_pool || ion_buffer_sync_force buffer
                          then ion_buffer_set_ready buffer else buffer)
                         (Priv_table {| table_addr := table_addr t; sgl := l;
                                        nents := nents t |}))
           | None => kfree (kaddr m);; allocate_err buffer pages
           end
       | None => allocate_err buffer pages
       end)).
  apply avoids_if; [by apply Herr|].
  apply avoids_bind; [apply avoids_kmalloc|]. intros [m|]; [|by apply Herr].
  apply avoids_bind; [apply avoids_if; apply avoids_sg_alloc_table|].
  intros [t|]; [|apply avoids_bind; [apply avoids_emit | intros _; by apply Herr]].
  apply avoids_bind.
  { apply avoids_lift, ok_or_fault_avoids; [done | apply fill_table_cases]. }
  intros [l all]. apply avoids_bind; [|intros _; apply avoids_ret].
  apply avoids_if; [apply avoids_emit | apply avoids_ret].
Qed.

(** The iteration budget of the model is never exhausted. *)
Theorem ion_system_heap_allocate_total buffer size align flags w :
  ion_system_heap_allocate buffer size align flags w <> Timeout.
Proof.
  intros H.
  apply (ion_system_heap_allocate_avoids F_timeout buffer size align flags) with w;
    [done | by rewrite H].
Qed.

(** ** No bad pointer: the calls return *)

#[local] Instance same_heap_preorder : PreOrder same_heap.
Proof.
  split; [by intros w | intros w1 w2 w3 H1 H2; unfold same_heap in *; congruence].
Qed.

Lemma same_heap_ok w w' : same_heap w w' -> heap_ok w -> heap_ok w'.
Proof. unfold same_heap, heap_ok. congruence. Qed.

Lemma keeps_emit_heap e : keeps same_heap (emit e).
Proof. intros w a w' H. by inv_ok H. Qed.

Lemma keeps_alloc_pages_heap gfp order : keeps same_heap (alloc_pages gfp order).
Proof. intros w a w' H. unfold alloc_pages in H. by injection H as _ <-. Qed.

Lemma keeps_put_pool_heap idx p : keeps same_heap (put_pool idx p).
Proof.
  intros w a w' H. unfold put_pool in H. injection H as _ <-.
  unfold same_heap. cbn [set_pools pools]. apply length_insert.
Qed.

Lemma keeps_get_pool_heap idx : keeps same_heap (get_pool idx).
Proof.
  intros w a w' H. unfold get_pool in H.
  destruct (pools w !! idx); [by injection H as _ <- | discriminate].
Qed.

Lemma keeps_preempt_heap : keeps same_heap preempt.
Proof.
  intros w a w' H. unfold preempt in H.
  destruct (others w) as [|[|idx] o]; injection H as _ <-; try done.
  unfold same_heap. cbn [set_pools set_others pools]. apply length_alter.
Qed.

Lemma keeps_ion_page_pool_alloc_heap idx : keeps same_heap (ion_page_pool_alloc idx).
Proof.
  unfold ion_page_pool_alloc.
  apply keeps_bind; [apply _ | apply keeps_get_pool_heap |]. intros pool.
  apply keeps_bind; [apply _ | apply keeps_emit_heap |]. intros _.
  destruct (high_items pool), (low_items pool);
    first [apply keeps_alloc_pages_heap
          | apply keeps_bind; [apply _ | apply keeps_put_pool_heap |];
            intros _; apply keeps_ret, _].
Qed.

Lemma keeps_ion_page_pool_free_heap idx p : keeps same_heap (ion_page_pool_free idx p).
Proof.
  intros w [] w' H. apply ion_page_pool_free_Ok in H as (_ & pool' & _ & E & _).
  unfold same_heap. rewrite E. apply length_insert.
Qed.

Lemma keeps_alloc_buffer_page_heap buffer o : keeps same_heap (alloc_buffer_page buffer o).
Proof.
  unfold alloc_buffer_page.
  apply keeps_bind; [apply _ | apply keeps_lift, _ |]. intros idx.
  apply keeps_bind; [apply _ | |].
  - apply keeps_if; [apply keeps_ion_page_pool_alloc_heap | apply keeps_alloc_pages_heap].
  - intros [p|]; [|apply keeps_ret, _].
    apply keeps_bind; [apply _ | | intros _; apply keeps_ret, _].
    apply keeps_if; [apply keeps_emit_heap | apply keeps_ret, _].
Qed.

Lemma keeps_free_buffer_page_heap buffer pg o :
  keeps same_heap (free_buffer_page buffer pg o).
Proof.
  unfold free_buffer_page. apply keeps_if; [|apply keeps_if].
  - apply keeps_bind; [apply _ | apply keeps_lift, _ |]. intros idx.
    apply keeps_bind; [apply _ | apply keeps_deref, _ |]. intros p.
    apply keeps_ion_page_pool_free_heap.
  - apply keeps_for_each; [apply _|]. intros i.
    apply keeps_bind; [apply _ | apply keeps_deref, _ |]. intros p.
    apply keeps_emit_heap.
  - apply keeps_bind; [apply _ | apply keeps_deref, _ |]. intros p.
    apply keeps_emit_heap.
Qed.

Lemma keeps_alloc_largest_available_from_heap os buffer size max_order from_pool :
  keeps same_heap (alloc_largest_available_from os buffer size max_order from_pool).
Proof.
  revert from_pool. induction os as [|o os IH]; intros from_pool;
    cbn [alloc_largest_available_from]; [apply keeps_ret, _|].
  destruct (size <? order_to_size o); [apply IH|].
  destruct (max_order <? o); [apply IH|].
  apply keeps_bind; [apply _ | |].
  - apply keeps_if; [|apply keeps_ret, _].
    apply keeps_bind; [apply _ | apply keeps_lift, _ |]. intros idx.
    apply keeps_bind; [apply _ | apply keeps_get_pool_heap |]. intros pool.
    apply keeps_bind; [apply _ | apply keeps_preempt_heap |]. intros _.
    apply keeps_ret, _.
  - intros fp. apply keeps_bind; [apply _ | apply keeps_alloc_buffer_page_heap |].
    intros [pg|]; [apply keeps_ret, _ | apply IH].
Qed.

Lemma keeps_alloc_loop_heap fuel buffer sr max_order pages i :
  keeps same_heap (alloc_loop fuel buffer sr max_order pages i).
Proof.
  revert sr max_order pages i. induction fuel as [|fuel IH]; intros sr max_order pages i;
    cbn [alloc_loop]; destruct (0 <? sr); try apply keeps_ret, _.
  - intros w a w' H. discriminate.
  - apply keeps_bind; [apply _ | apply keeps_alloc_largest_available_from_heap |].
    intros [pg|]; [apply IH | apply keeps_ret, _].
Qed.

Lemma sound_ret {A} (a : A) : sound (ret a).
Proof. by intros w _. Qed.

Lemma sound_emit e : sound (emit e).
Proof. by intros w _. Qed.

Lemma sound_bind_post {A B} (m : M A) (k : A -> M B) :
  sound m ->
  (forall w a w', heap_ok w -> m w = Ok (a, w') -> k a w' <> Fault) ->
  sound (bind m k).
Proof.
  intros Hm Hk w Hw. specialize (Hm w Hw). unfold bind.
  destruct (m w) as [[a w1]| | |] eqn:E; [eauto | done ..].
Qed.

Lemma sound_bind {A B} (m : M A) (k : A -> M B) :
  sound m -> keeps same_heap m -> (forall a, sound (k a)) -> sound (bind m k).
Proof.
  intros Hm Hkeep Hk. apply sound_bind_post; [done|].
  intros w a w' Hw E. apply Hk. eapply same_heap_ok; [by eapply Hkeep | done].
Qed.

Lemma sound_if {A} (b : bool) (m1 m2 : M A) :
  sound m1 -> sound m2 -> sound (if b then m1 else m2).
Proof. by destruct b. Qed.

Lemma sound_for_each {A} (l : list A) (body : A -> M unit) :
  (forall a, keeps same_heap (body a)) ->
  Forall (fun a => sound (body a)) l -> sound (for_each l body).
Proof.
  intros Hkeep. induction 1 as [|a l Ha _ IH]; cbn [for_each]; [apply sound_ret|].
  apply sound_bind; [done | apply Hkeep | intros _; exact IH].
Qed.

Lemma sound_get_pool idx : (idx < length orders)%nat -> sound (get_pool idx).
Proof.
  intros Hi w Hw. unfold get_pool. destruct (pools w !! idx) eqn:E; [done|].
  apply lookup_ge_None in E. unfold heap_ok in Hw. lia.
Qed.

Lemma order_to_index_lt o idx : order_to_index o = Ok idx -> (idx < length orders)%nat.
Proof.
  intros H. pose proof (order_to_index_from_spec orders o 0) as S.
  unfold order_to_index in H. rewrite H in S. destruct S as (k & -> & Hk).
  by apply lookup_lt_Some in Hk.
Qed.

Lemma sound_ion_page_pool_alloc idx :
  (idx < length orders)%nat -> sound (ion_page_pool_alloc idx).
Proof.
  intros Hi. unfold ion_page_pool_alloc.
  apply sound_bind; [by apply sound_get_pool | apply keeps_get_pool_heap |]. intros pool.
  apply sound_bind; [apply sound_emit | apply keeps_emit_heap |]. intros _.
  destruct (high_items pool), (low_items pool); try by intros w _.
Qed.

Lemma sound_ion_page_pool_free idx p :
  (idx < length orders)%nat -> sound (ion_page_pool_free idx p).
Proof.
  intros Hi. unfold ion_page_pool_free.
  apply sound_bind; [by apply sound_get_pool | apply keeps_get_pool_heap |]. intros pool.
  by intros w _.
Qed.

Lemma sound_at {A} (m : M A) w : sound m -> heap_ok w -> m w <> Fault.
Proof. intros H. apply H. Qed.

Lemma sound_bind_lift {A B} (a : A) (k : A -> M B) :
  sound (k a) -> sound (bind (lift (Ok a)) k).
Proof. intros H w Hw. exact (H w Hw). Qed.

Lemma sound_bind_deref {A B} (a : A) (k : A -> M B) :
  sound (k a) -> sound (bind (deref (Some a)) k).
Proof. intros H w Hw. exact (H w Hw). Qed.

Lemma sound_alloc_buffer_page buffer o : o ∈ orders -> sound (alloc_buffer_page buffer o).
Proof.
  intros Ho. unfold alloc_buffer_page.
  destruct (order_to_index_Ok o Ho) as (idx & E & _). rewrite E.
  apply order_to_index_lt in E. apply sound_bind_lift.
  apply sound_bind.
  - apply sound_if; [by apply sound_ion_page_pool_alloc | by intros w _].
  - apply keeps_if; [apply keeps_ion_page_pool_alloc_heap | apply keeps_alloc_pages_heap].
  - intros [p|]; [|apply sound_ret].
    apply sound_bind; [| |intros _; apply sound_ret].
    + apply sound_if; [apply sound_emit | apply sound_ret].
    + apply keeps_if; [apply keeps_emit_heap | apply keeps_ret, _].
Qed.

Lemma sound_free_buffer_page buffer p o :
  o ∈ orders -> sound (free_buffer_page buffer (Some p) o).
Proof.
  intros Ho. unfold free_buffer_page.
  destruct (order_to_index_Ok o Ho) as (idx & E & _). rewrite E.
  apply order_to_index_lt in E.
  apply sound_if; [|apply sound_if].
  - apply sound_bind_lift, sound_bind_deref. by apply sound_ion_page_pool_free.
  - apply sound_for_each.
    + intros i. apply keeps_bind; [apply _ | apply keeps_deref, _ |]. intros q.
      apply keeps_emit_heap.
    + apply Forall_forall. intros i _. apply sound_bind_deref, sound_emit.
  - apply sound_bind_deref, sound_emit.
Qed.

Lemma sound_alloc_largest_available_from os buffer size max_order from_pool :
  os ⊆ orders ->
  sound (alloc_largest_available_from os buffer size max_order from_pool).
Proof.
  revert from_pool. induction os as [|o os IH]; intros from_pool Hos;
    cbn [alloc_largest_available_from]; [apply sound_ret|].
  assert (o ∈ orders) as Ho by (apply Hos, elem_of_cons; by left).
  assert (os ⊆ orders) as Hos' by (intros x Hx; apply Hos, elem_of_cons; by right).
  destruct (size <? order_to_size o); [by apply IH|].
  destruct (max_order <? o); [by apply IH|].
  apply sound_bind.
  - apply sound_if; [|apply sound_ret].
    destruct (order_to_index_Ok o Ho) as (idx & E & _). rewrite E.
    apply order_to_index_lt in E. apply sound_bind_lift.
    apply sound_bind; [by apply sound_get_pool | apply keeps_get_pool_heap |].
    intros pool. apply sound_bind; [|apply keeps_preempt_heap | intros _; apply sound_ret].
    intros w _. unfold preempt. by destruct (others w) as [|[|?] ?].
  - apply keeps_if; [|apply keeps_ret, _].
    apply keeps_bind; [apply _ | apply keeps_lift, _ |]. intros idx.
    apply keeps_bind; [apply _ | apply keeps_get_pool_heap |]. intros pool.
    apply keeps_bind; [apply _ | apply keeps_preempt_heap |]. intros _.
    apply keeps_ret, _.
  - intros fp.
    apply sound_bind; [by apply sound_alloc_buffer_page
                      | apply keeps_alloc_buffer_page_heap |].
    intros [pg|]; [apply sound_ret | by apply IH].
Qed.

Lemma sound_alloc_loop fuel buffer sr max_order pages i :
  sound (alloc_loop fuel buffer sr max_order pages i).
Proof.
  revert sr max_order pages i. induction fuel as [|fuel IH]; intros sr max_order pages i;
    cbn [alloc_loop]; destruct (0 <? sr); try apply sound_ret.
  - by intros w _.
  - apply sound_bind; [by apply sound_alloc_largest_available_from
                      | apply keeps_alloc_largest_available_from_heap |].
    intros [pg|]; [apply IH | apply sound_ret].
Qed.

Lemma sound_allocate_err buffer pages :
  Forall (fun pg => ion_page_order pg ∈ orders) pages ->
  sound (allocate_err buffer pages).
Proof.
  intros Hall. unfold allocate_err.
  apply sound_bind; [| |intros _; apply sound_ret].
  - apply sound_for_each; [intros pg; apply keeps_free_buffer_page_heap|].
    eapply List.Forall_impl; [|exact Hall]. intros pg Ho. cbv beta.
    assert (LONG (ion_page_order pg) = ion_page_order pg) as ->
      by (apply orders_cases in Ho as [-> | [-> | ->]]; reflexivity).
    by apply sound_free_buffer_page.
  - apply keeps_for_each; [apply _|]. intros pg. apply keeps_free_buffer_page_heap.
Qed.

(** The table that [ion_system_heap_allocate] asks for has room for the
    entries of its run list. *)
Lemma table_room split_pages size pages :
  Forall (fun pg => ion_page_order pg ∈ orders) pages ->
  sum_Z (run_bytes <$> pages) = Z.max (LONG (PAGE_ALIGN size)) 0 ->
  (length (entries split_pages pages)
   <= Z.to_nat (if split_pages then PAGE_ALIGN size / PAGE_SIZE
                else Z.of_nat (length pages)))%nat.
Proof.
  intros Hall Hsum. destruct split_pages.
  - pose proof (entries_split_length pages Hall) as El. rewrite Hsum in El.
    pose proof (PAGE_ALIGN_range size) as Hr.
    destruct (Z.lt_ge_cases (PAGE_ALIGN size) (2 ^ 31)) as [Hlo|Hhi].
    + rewrite LONG_small, Z.max_l in El by lia.
      rewrite <- El, Z.div_mul by (by rewrite PAGE_SIZE_eq). lia.
    + rewrite LONG_high, Z.max_r in El by lia. rewrite PAGE_SIZE_eq in El. lia.
  - cbn [entries]. rewrite length_fmap. lia.
Qed.

Lemma keeps_kmalloc_heap size flags : keeps same_heap (kmalloc size flags).
Proof. intros w a w' H. unfold kmalloc in H. by injection H as _ <-. Qed.

Lemma sound_allocate buffer size align flags :
  sound (ion_system_heap_allocate buffer size align flags).
Proof.
  unfold ion_system_heap_allocate.
  apply sound_bind_post; [apply sound_alloc_loop|].
  intros w [[fin pages] i] w1 Hw Hloop.
  apply keeps_alloc_loop_heap in Hloop as Hheap. apply (same_heap_ok _ _ Hheap) in Hw.
  apply alloc_loop_of_allocate in Hloop as (Ei & Hall & _ & Hsum).
  clear Hheap. apply sound_at; [clear w1 Hw | done].
  destruct fin; cbn [negb]; [|by apply sound_allocate_err].
  specialize (Hsum eq_refl).
  apply sound_bind; [by intros w0 _ | apply keeps_kmalloc_heap |].
  intros [m|]; [|by apply sound_allocate_err].
  apply sound_bind_post; [apply sound_if; by intros w0 _|].
  intros w1 t w2 Hw1 Hsg.
  assert (exists n, n = (if ion_buffer_fault_user_mappings buffer
                         then PAGE_ALIGN size / PAGE_SIZE else i)
                    /\ sg_alloc_table (kaddr m) n GFP_KERNEL w1 = Ok (t, w2))
    as (n & En & Hsg') by (destruct (ion_buffer_fault_user_mappings buffer); eauto).
  apply sg_alloc_table_Ok in Hsg' as [[Hp _] [-> | ->]].
  - assert (heap_ok w2) as Hw2 by (unfold heap_ok in *; congruence).
    apply sound_at; [|done].
    apply sound_bind; [apply sound_emit | apply keeps_emit_heap |].
    intros _. by apply sound_allocate_err.
  - cbn [sgl nents]. rewrite fill_table_spec; [|done|].
    + unfold bind, lift. by destruct (ion_buffer_sync_force buffer).
    + rewrite length_replicate, En, Ei. by apply table_room.
Qed.

(** X2.  In a heap with its pools, [ion_system_heap_allocate] returns, with
    success or with [-ENOMEM]: it meets no [BUG()], follows no null pointer
    and its loop ends. *)
Theorem ion_system_heap_allocate_returns buffer size align flags w :
  heap_ok w ->
  exists r b' w',
    ion_system_heap_allocate buffer size align flags w = Ok ((r, b'), w') /\
    (r = 0 \/ r = - ENOMEM).
Proof.
  intros Hw.
  destruct (ion_system_heap_allocate buffer size align flags w)
    as [[[r b'] w']| | |] eqn:E.
  - exists r, b', w'. split; [done|].
    apply ion_system_heap_allocate_inv in E
      as (fin & pages & i & w1 & Hloop & [(w2 & _ & Herr) | (_ & -> & _)]); [|by left].
    apply alloc_loop_of_allocate in Hloop as (_ & Hall & _).
    apply allocate_err_Ok in Herr as (-> & _); [by right | done].
  - exfalso.
    apply (ion_system_heap_allocate_avoids F_bug buffer size align flags) with w;
      [done | by rewrite E].
  - exfalso. by apply (sound_allocate buffer size align flags w Hw).
  - exfalso. by apply (ion_system_heap_allocate_total buffer size align flags w).
Qed.

(** * The claims *)

(** C4.  Pack monotonicity: in the table of a buffer allocated without
    [FAULT_USER_MAPPINGS] each entry describes one run of the run list, and
    the orders of the entries are non-increasing in table position: no entry
    has an order above that of an entry before it. *)
Theorem pack_monotonicity buffer size align flags w b' w' :
  ion_buffer_fault_user_mappings buffer = false ->
  ion_system_heap_allocate buffer size align flags w = Ok ((0, b'), w') ->
  exists pages w1 t,
    packs buffer size w true pages w1 /\
    priv_virt b' = Priv_table t /\
    get_order <$> (sg_dma_len <$> sgl t) = ion_page_order <$> pages /\
    StronglySorted (fun a b => get_order (sg_dma_len b) <= get_order (sg_dma_len a))
      (sgl t).
Proof.
  intros Hns H.
  apply ion_system_heap_allocate_inv in H
    as (fin & pages & i & w1 & Hloop & [(w2 & _ & Herr) | (-> & _ & _ & n & l & all & En & Hfill & ta & ->)]).
  { apply alloc_loop_of_allocate in Hloop as (_ & Hall & _).
    apply allocate_err_Ok in Herr as (Hr & _); [|done]. discriminate. }
  pose proof Hloop as Hpack.
  apply alloc_loop_of_allocate in Hloop as (Ei & Hall & Hsorted & _).
  rewrite Hns in *.
  assert (l = run_entry <$> pages) as ->.
  { apply (fill_table_exact false pages (Z.to_nat n) l all); [done | | done].
    cbn [entries]. rewrite length_fmap. lia. }
  exists pages, w1, {| table_addr := ta; sgl := run_entry <$> pages; nents := n |}.
  split; [by exists i|]. split; [done|]. cbn [sgl].
  split; [by apply run_entries_orders | by apply run_entries_sorted].
Qed.

Lemma pack_monotonicity_witness :
  ion_buffer_fault_user_mappings buffer_68k = false /\
  ion_system_heap_allocate buffer_68k 69632 0 0 world_fresh
    = Ok ((0, buffer_68k'), world_68k') /\
  exists pages w1 t,
    packs buffer_68k 69632 world_fresh true pages w1 /\
    priv_virt buffer_68k' = Priv_table t /\
    get_order <$> (sg_dma_len <$> sgl t) = ion_page_order <$> pages /\
    StronglySorted (fun a b => get_order (sg_dma_len b) <= get_order (sg_dma_len a))
      (sgl t).
Proof.
  split; [reflexivity|]. split; [vm_compute; reflexivity|].
  apply (pack_monotonicity buffer_68k 69632 0 0 world_fresh buffer_68k' world_68k');
    [reflexivity | vm_compute; reflexivity].
Defined.

(** C5.  On a successful [ion_system_heap_allocate] of a buffer that is not
    ready yet, readiness is latched if and only if [SYNC_FORCE] is set or
    every run of the run list carries the [from_pool] label. *)
Theorem readiness_latch buffer size align flags w b' w' :
  ready buffer = false ->
  ion_system_heap_allocate buffer size align flags w = Ok ((0, b'), w') ->
  exists pages w1,
    packs buffer size w true pages w1 /\
    (ready b' = true <->
     ion_buffer_sync_force buffer = true \/
     Forall (fun pg => ion_get_from_pool pg = true) pages).
Proof.
  intros Hnr H.
  apply ion_system_heap_allocate_inv in H
    as (fin & pages & i & w1 & Hloop & [(w2 & _ & Herr) | (-> & _ & _ & n & l & all & En & Hfill & ta & ->)]).
  { apply alloc_loop_of_allocate in Hloop as (_ & Hall & _).
    apply allocate_err_Ok in Herr as (Hr & _); [|done]. discriminate. }
  exists pages, w1. split; [by exists i|].
  apply fill_table_all in Hfill as ->. cbn [andb].
  rewrite List.Forall_forall, <- List.forallb_forall.
  destruct (forallb ion_get_from_pool pages), (ion_buffer_sync_force buffer);
    cbn [orb set_priv_virt ion_buffer_set_ready ready]; rewrite ?Hnr; intuition congruence.
Qed.

Lemma readiness_latch_witness :
  ready buffer_1m = false /\
  ion_system_heap_allocate buffer_1m 1048576 0 0 world_pooled
    = Ok ((0, buffer_1m'), world_pooled') /\
  exists pages w1,
    packs buffer_1m 1048576 world_pooled true pages w1 /\
    (ready buffer_1m' = true <->
     ion_buffer_sync_force buffer_1m = true \/
     Forall (fun pg => ion_get_from_pool pg = true) pages).
Proof.
  split; [reflexivity|]. split; [vm_compute; reflexivity|].
  apply (readiness_latch buffer_1m 1048576 0 0 world_pooled buffer_1m' world_pooled');
    [reflexivity | vm_compute; reflexivity].
Defined.

(** C7.  When [ion_system_heap_allocate] returns a failure, the code is
    [-ENOMEM] and the buffer is as it was; after the [while] loop only the
    slab allocator was called (for the table that could not be had), the
    pools being left alone, and then every run of the run list was handed
    back, in order, to its pool or to the host. *)
Theorem allocate_failure_unwinds buffer size align flags w r b' w' :
  ion_system_heap_allocate buffer size align flags w = Ok ((r, b'), w') ->
  r <> 0 ->
  r = - ENOMEM /\ b' = buffer /\
  exists fin pages w1 w2,
    packs buffer size w fin pages w1 /\
    frame slab_event w1 w2 /\
    Forall (fun pg => release_events buffer pg <> []) pages /\
    trace w' = trace w2 ++ (pages ≫= release_events buffer).
Proof.
  intros H Hr.
  apply ion_system_heap_allocate_inv in H
    as (fin & pages & i & w1 & Hloop & [(w2 & Hslab & Herr) | (_ & -> & _)]);
    [|congruence].
  pose proof Hloop as Hpack.
  apply alloc_loop_of_allocate in Hloop as (_ & Hall & _).
  apply allocate_err_Ok in Herr as (-> & -> & Htrace); [|done].
  split; [done|]. split; [done|]. exists fin, pages, w1, w2.
  split; [by exists i|]. split; [done|]. split; [|done].
  eapply List.Forall_impl; [|exact Hall]. apply release_events_nonempty.
Qed.

Lemma allocate_failure_unwinds_witness :
  ion_system_heap_allocate buffer_68k 69632 0 0 world_short
    = Ok ((- ENOMEM, buffer_68k), world_short') /\
  - ENOMEM <> 0 /\
  - ENOMEM = - ENOMEM /\ buffer_68k = buffer_68k /\
  exists fin pages w1 w2,
    packs buffer_68k 69632 world_short fin pages w1 /\
    frame slab_event w1 w2 /\
    Forall (fun pg => release_events buffer_68k pg <> []) pages /\
    trace world_short' = trace w2 ++ (pages ≫= release_events buffer_68k).
Proof.
  split; [vm_compute; reflexivity|]. split; [discriminate|].
  apply (allocate_failure_unwinds buffer_68k 69632 0 0 world_short
           (- ENOMEM) buffer_68k world_short');
    [vm_compute; reflexivity | discriminate].
Defined.

(** C6.  The calls of a release that returns: if the buffer is not cached and
    does not set [NOZEROED], the first call zeroes the pages of the buffer's
    whole table, and no page is zeroed by a later call, so the zeroing comes
    before every return of a run to a pool; if the buffer is cached or sets
    [NOZEROED], no call zeroes anything. *)
Theorem free_zeroes_before_pooling buffer w w' :
  ion_system_heap_free buffer w = Ok (tt, w') ->
  exists t evs,
    buf_sg_table buffer = Some t /\
    trace w' = trace w
               ++ (if negb (ion_buffer_cached buffer)
                      && negb (ION_FLAG_NOZEROED (buf_flags buffer))
                   then [Ev_buffer_zero t] else [])
               ++ evs /\
    Forall (fun e => ~ is_buffer_zero e) evs.
Proof.
  unfold ion_system_heap_free. intros H. inv_ok H. inv_ok Hk. inv_ok Hm0.
  exists a0. 
  apply keeps_free_entries in Hk0 as (evs & E & F).
  exists evs. split; [done|]. split; [|done]. rewrite E, app_assoc. f_equal.
  destruct (negb (ion_buffer_cached buffer) && negb (ION_FLAG_NOZEROED (buf_flags buffer))).
  - unfold ion_heap_buffer_zero in Hm. rewrite Hm0 in Hm. by inv_ok Hm.
  - inv_ok Hm. by rewrite app_nil_r.
Qed.

Lemma free_zeroes_before_pooling_witness :
  ion_system_heap_free (mapped buffer_68k') world_68k' = Ok (tt, world_68k'') /\
  exists t evs,
    buf_sg_table (mapped buffer_68k') = Some t /\
    trace world_68k'' = trace world_68k'
               ++ (if negb (ion_buffer_cached (mapped buffer_68k'))
                      && negb (ION_FLAG_NOZEROED (buf_flags (mapped buffer_68k')))
                   then [Ev_buffer_zero t] else [])
               ++ evs /\
    Forall (fun e => ~ is_buffer_zero e) evs.
Proof.
  split; [vm_compute; reflexivity|].
  apply (free_zeroes_before_pooling (mapped buffer_68k') world_68k' world_68k'').
  vm_compute; reflexivity.
Defined.

(** C9.  [order_to_index] meets its [BUG()] exactly on the orders that are
    not of the order set.  [ion_system_heap_allocate] never meets it, and
    neither does the release of a buffer whose table has entries of a length
    [PAGE_SIZE << o] with [o] of the order set, from which
    [log2(length / PAGE_SIZE)] rebuilds [o]. *)
Theorem order_to_index_abort :
  (forall order, order_to_index order = Bug <-> order ∉ orders) /\
  (forall o, o ∈ orders -> get_order (Z.shiftl PAGE_SIZE o) = o) /\
  (forall buffer size align flags w,
     ion_system_heap_allocate buffer size align flags w <> Bug) /\
  (forall buffer t w,
     buf_sg_table buffer = Some t ->
     Forall (fun sg => exists o, o ∈ orders /\ sg_dma_len sg = Z.shiftl PAGE_SIZE o)
       (visited t) ->
     ion_system_heap_free buffer w <> Bug).
Proof.
  split; [|split; [|split]].
  - intros order. pose proof (order_to_index_from_spec orders order 0) as S.
    unfold order_to_index. destruct (order_to_index_from 0 orders order); try done.
    destruct S as (k & _ & Hk). split; [done|]. intros Hn. exfalso.
    apply Hn. by eapply list_elem_of_lookup_2.
  - intros o Ho. apply orders_cases in Ho as [-> | [-> | ->]]; reflexivity.
  - intros buffer size align flags w H.
    apply (ion_system_heap_allocate_avoids F_bug buffer size align flags) with w;
      [done | by rewrite H].
  - intros buffer t w Ht Hall H.
    assert (avoids F_bug (ion_system_heap_free buffer)) as Hav;
      [|by apply (Hav w); rewrite H].
    unfold ion_system_heap_free. rewrite Ht.
    apply avoids_bind.
    { apply avoids_if; [|apply avoids_ret].
      unfold ion_heap_buffer_zero. rewrite Ht. apply avoids_emit. }
    intros _ w0. unfold bind at 1. cbn [deref]. revert w0.
    change (avoids F_bug
      (for_each (visited t)
         (fun sg => free_buffer_page buffer (sg_page sg) (get_order (sg_dma_len sg)));;
       sg_free_table (table_addr t);; kfree (table_addr t))).
    apply avoids_bind; [|intros _; apply avoids_bind; [|intros _]; apply avoids_emit].
    apply avoids_for_each. eapply List.Forall_impl; [|exact Hall].
    intros sg (o & Ho & ->). cbv beta.
    assert (get_order (Z.shiftl PAGE_SIZE o) = o) as ->
      by (apply orders_cases in Ho as [-> | [-> | ->]]; reflexivity).
    by apply avoids_free_buffer_page.
Qed.

Lemma order_to_index_abort_witness :
  (order_to_index 4 = Bug <-> 4 ∉ orders) /\
  get_order (Z.shiftl PAGE_SIZE 4) = 4 /\
  ion_system_heap_allocate buffer_68k 69632 0 0 world_fresh <> Bug /\
  buf_sg_table (mapped buffer_68k') = Some table_68k /\
  Forall (fun sg => exists o, o ∈ orders /\ sg_dma_len sg = Z.shiftl PAGE_SIZE o)
    (visited table_68k) /\
  ion_system_heap_free (mapped buffer_68k') world_68k' <> Bug.
Proof.
  assert (Forall (fun sg => exists o, o ∈ orders /\ sg_dma_len sg = Z.shiftl PAGE_SIZE o)
            (visited table_68k)) as Hall.
  { assert (visited table_68k
            = [ {| sg_page := Some 0x1000; sg_length := 65536; sg_offset := 0 |};
                {| sg_page := Some 0x2000; sg_length := 4096; sg_offset := 0 |} ]) as ->
      by (vm_compute; reflexivity).
    constructor; [exists 4|constructor; [exists 0|constructor]];
      (split; [|reflexivity]); unfold orders; rewrite !elem_of_cons; tauto. }
  destruct order_to_index_abort as (H1 & H2 & H3 & H4).
  split; [apply H1|]. split; [apply H2; unfold orders; rewrite !elem_of_cons; tauto|].
  split; [apply H3|]. split; [reflexivity|]. split; [exact Hall|].
  by apply (H4 (mapped buffer_68k') table_68k world_68k').
Defined.


(** C1 fails on the code for a request of 2 GiB: the padded size does not fit
    the signed [size_remaining], the [while] loop is not entered, and the call
    returns success with an empty run list and a table whose 524288 entries
    describe no byte, on a buffer that it marks ready. *)
Theorem allocate_2G_packs_nothing :
  0 < 2 ^ 31 /\
  PAGE_ALIGN (2 ^ 31) = 2 ^ 31 /\
  LONG (PAGE_ALIGN (2 ^ 31)) = - 2 ^ 31 /\
  packs buffer_huge (2 ^ 31) world_fresh true [] world_fresh /\
  outcome (ion_system_heap_allocate buffer_huge (2 ^ 31) 0 0 world_fresh)
    = Some (0, 524288, 0, true).
Proof.
  split; [done|]. split; [reflexivity|]. split; [reflexivity|].
  split; [exists 0; reflexivity|]. vm_compute. reflexivity.
Qed.

(** C2 fails on the code when the pool of order 8 is emptied by another
    thread between the look at its counters and the allocation: the attempt
    at order 8 fails, the label it left in [from_pool] stays, and the run of
    order 4 that the host then gives is labelled as coming from a pool,
    although the pool of order 4 is empty, before the call and after it, and
    is only ever asked to refill. *)
Theorem from_pool_label_carries_over :
  ion_buffer_cached buffer_1m = false /\
  pool_count <$> pools world_race = [1; 0; 0] /\
  exists w',
    alloc_largest_available buffer_1m 1048576 8 world_race
      = Ok (Some {| pfn := 0x2000; private := 4; PG_ion_frompool := true |}, w') /\
    pool_count <$> pools w' = [0; 0; 0] /\
    trace w' = [Ev_pool_alloc 0 None; Ev_alloc_pages high_order_gfp_flags 8 None;
                Ev_pool_alloc 1 None; Ev_alloc_pages high_order_gfp_flags 4 (Some 0x2000)].
Proof.
  split; [reflexivity|]. split; [reflexivity|].
  eexists. split; [vm_compute; reflexivity|]. split; reflexivity.
Qed.

(** * Further properties of the system heap *)

Lemma size_fidelity_in_range_witness :
  0 < 69632 <= 2 ^ 31 - PAGE_SIZE /\
  ion_system_heap_allocate buffer_68k 69632 0 0 world_fresh
    = Ok ((0, buffer_68k'), world_68k') /\
  exists pages w1 t,
    packs buffer_68k 69632 world_fresh true pages w1 /\ pages <> [] /\
    priv_virt buffer_68k' = Priv_table t /\
    sgl t = entries (ion_buffer_fault_user_mappings buffer_68k) pages /\
    sg_bytes t = PAGE_ALIGN 69632.
Proof.
  split; [rewrite PAGE_SIZE_eq; lia|]. split; [vm_compute; reflexivity|].
  apply (size_fidelity_in_range buffer_68k 69632 0 0 world_fresh buffer_68k' world_68k');
    [rewrite PAGE_SIZE_eq; lia | vm_compute; reflexivity].
Defined.

Lemma ion_system_heap_allocate_returns_witness :
  heap_ok world_fresh /\
  exists r b' w',
    ion_system_heap_allocate buffer_68k 69632 0 0 world_fresh = Ok ((r, b'), w') /\
    (r = 0 \/ r = - ENOMEM).
Proof.
  split; [reflexivity|].
  apply (ion_system_heap_allocate_returns buffer_68k 69632 0 0 world_fresh).
  reflexivity.
Defined.

Lemma alloc_largest_available_label_sequential_witness :
  ion_buffer_cached buffer_1m = false /\
  others world_pooled = [] /\
  alloc_largest_available buffer_1m 1048576 8 world_pooled
    = Ok (Some run_pooled, world_pooled_run) /\
  exists idx pool,
    order_to_index (ion_page_order run_pooled) = Ok idx /\
    pools world_pooled !! idx = Some pool /\
    ion_get_from_pool run_pooled = (0 <? high_count pool) || (0 <? low_count pool).
Proof.
  split; [reflexivity|]. split; [reflexivity|]. split; [vm_compute; reflexivity|].
  apply (alloc_largest_available_label_sequential buffer_1m 1048576 8 world_pooled
           run_pooled world_pooled_run);
    [reflexivity | reflexivity | vm_compute; reflexivity].
Defined.

(** ** The table of an allocated buffer is well formed *)

Lemma run_entry_ok pg : ion_page_order pg ∈ orders -> entry_ok (run_entry pg).
Proof.
  intros Ho. split; [by eexists|]. split; [done|]. exists (ion_page_order pg).
  split; [done|]. unfold sg_dma_len, run_entry, run_bytes. cbn [sg_length].
  apply orders_cases in Ho as [-> | [-> | ->]]; reflexivity.
Qed.

Lemma page_entry_ok p i : entry_ok (page_entry p i).
Proof.
  split; [by eexists|]. split; [done|]. exists 0. split; [|reflexivity].
  unfold orders. rewrite !elem_of_cons. tauto.
Qed.

Lemma entries_ok split_pages pages :
  Forall (fun pg => ion_page_order pg ∈ orders) pages ->
  Forall entry_ok (entries split_pages pages).
Proof.
  induction 1 as [|pg pages Ho _ IH]; [by destruct split_pages|].
  destruct split_pages; cbn [entries] in *.
  - rewrite bind_cons. apply Forall_app. split; [|done].
    unfold split_entries. apply Forall_fmap, Forall_forall. intros i _.
    apply page_entry_ok.
  - rewrite fmap_cons. constructor; [by apply run_entry_ok | done].
Qed.

Lemma split_entries_single pages :
  Forall (fun sg => sg_dma_len sg = PAGE_SIZE) (entries true pages).
Proof.
  induction pages as [|pg pages IH]; [constructor|]. cbn [entries] in *.
  rewrite bind_cons. apply Forall_app. split; [|done].
  unfold split_entries. apply Forall_fmap, Forall_forall. by intros i _.
Qed.

(** What a successful allocation leaves in the buffer when the padded size
    fits a [long]. *)
Lemma allocate_padded buffer size align flags w b' w' :
  0 < PAGE_ALIGN size < 2 ^ 31 ->
  ion_system_heap_allocate buffer size align flags w = Ok ((0, b'), w') ->
  exists pages w1,
    packs buffer size w true pages w1 /\
    Forall (fun pg => ion_page_order pg ∈ orders) pages /\
    sum_Z (run_bytes <$> pages) = PAGE_ALIGN size /\
    exists ta,
      priv_virt b'
      = Priv_table
          {| table_addr := ta;
             sgl := entries (ion_buffer_fault_user_mappings buffer) pages;
             nents := Z.of_nat
                        (length (entries (ion_buffer_fault_user_mappings buffer) pages)) |}.
Proof.
  intros Hpad H.
  apply ion_system_heap_allocate_inv in H
    as (fin & pages & i & w1 & Hloop
        & [(w2 & _ & Herr) | (-> & _ & _ & n & l & all & En & Hfill & ta & ->)]).
  { apply alloc_loop_of_allocate in Hloop as (_ & Hall & _).
    apply allocate_err_Ok in Herr as (Hr & _); [|done]. discriminate. }
  pose proof Hloop as Hpacks.
  apply alloc_loop_of_allocate in Hloop as (Ei & Hall & _ & Hsum).
  specialize (Hsum eq_refl). rewrite LONG_small, Z.max_l in Hsum by lia.
  assert (n = Z.of_nat (length (entries (ion_buffer_fault_user_mappings buffer) pages)))
    as En'.
  { rewrite En. destruct (ion_buffer_fault_user_mappings buffer); cbn [entries].
    - pose proof (entries_split_length pages Hall) as El. cbn [entries] in El.
      rewrite <- Hsum, <- El, Z.div_mul by (by rewrite PAGE_SIZE_eq). done.
    - rewrite length_fmap. lia. }
  exists pages, w1. split; [by exists i|]. split; [done|]. split; [done|]. exists ta.
  rewrite <- En'. cbn [set_priv_virt priv_virt]. do 2 f_equal.
  eapply fill_table_exact; [done | | exact Hfill]. rewrite En'. lia.
Qed.

(** The same, for the sizes that are padded without wrap-around. *)
Lemma allocate_in_range buffer size align flags w b' w' :
  0 < size <= 2 ^ 31 - PAGE_SIZE ->
  ion_system_heap_allocate buffer size align flags w = Ok ((0, b'), w') ->
  exists pages w1,
    packs buffer size w true pages w1 /\
    Forall (fun pg => ion_page_order pg ∈ orders) pages /\
    sum_Z (run_bytes <$> pages) = PAGE_ALIGN size /\
    exists ta,
      priv_virt b'
      = Priv_table
          {| table_addr := ta;
             sgl := entries (ion_buffer_fault_user_mappings buffer) pages;
             nents := Z.of_nat
                        (length (entries (ion_buffer_fault_user_mappings buffer) pages)) |}.
Proof.
  intros Hsize. apply allocate_padded.
  rewrite PAGE_SIZE_eq in Hsize.
  rewrite PAGE_ALIGN_pad, PAGE_SIZE_eq by (rewrite PAGE_SIZE_eq; lia).
  pose proof (Z.mul_div_le (size + 4096 - 1) 4096).
  pose proof (Z.mod_pos_bound (size + 4096 - 1) 4096).
  pose proof (Z.div_mod (size + 4096 - 1) 4096). lia.
Qed.

(** X4.  The table of a buffer allocated for a size whose padding fits a
    [long] is well formed: [nents] is the number of its entries, every entry
    has a page, no offset and the length of a run of the order set, and with
    [FAULT_USER_MAPPINGS] there is one entry of one page for every page of
    the padded size. *)
Theorem allocated_table_well_formed buffer size align flags w b' w' :
  0 < size <= 2 ^ 31 - PAGE_SIZE ->
  ion_system_heap_allocate buffer size align flags w = Ok ((0, b'), w') ->
  exists t,
    priv_virt b' = Priv_table t /\
    nents t = Z.of_nat (length (sgl t)) /\
    Forall entry_ok (sgl t) /\
    (ion_buffer_fault_user_mappings buffer = true ->
     nents t = PAGE_ALIGN size / PAGE_SIZE /\
     Forall (fun sg => sg_dma_len sg = PAGE_SIZE) (sgl t)).
Proof.
  intros Hsize H.
  apply allocate_in_range in H as (pages & w1 & _ & Hall & Hsum & ta & ->); [|done].
  eexists. split; [reflexivity|]. cbn [sgl nents]. split; [done|].
  split; [by apply entries_ok|]. intros ->. split; [|apply split_entries_single].
  rewrite <- Hsum, <- (entries_split_length pages Hall), Z.div_mul; [done|].
  by rewrite PAGE_SIZE_eq.
Qed.

Lemma allocated_table_well_formed_witness :
  0 < 65536 <= 2 ^ 31 - PAGE_SIZE /\
  ion_system_heap_allocate buffer_split 65536 0 0 world_fresh
    = Ok ((0, buffer_split'), world_split') /\
  exists t,
    priv_virt buffer_split' = Priv_table t /\
    nents t = Z.of_nat (length (sgl t)) /\
    Forall entry_ok (sgl t) /\
    (ion_buffer_fault_user_mappings buffer_split = true ->
     nents t = PAGE_ALIGN 65536 / PAGE_SIZE /\
     Forall (fun sg => sg_dma_len sg = PAGE_SIZE) (sgl t)).
Proof.
  split; [rewrite PAGE_SIZE_eq; lia|]. split; [vm_compute; reflexivity|].
  apply (allocated_table_well_formed buffer_split 65536 0 0 world_fresh
           buffer_split' world_split');
    [rewrite PAGE_SIZE_eq; lia | vm_compute; reflexivity].
Defined.

(** ** The release of a well-formed buffer returns *)

Lemma result_cases {A} (r : result (A * world)) :
  ~ fails F_bug r -> ~ fails F_timeout r -> r <> Fault ->
  exists a w', r = Ok (a, w').
Proof. destruct r as [[a w']| | |]; simpl; intros; [eauto | tauto ..]. Qed.

Lemma entry_ok_order sg :
  entry_ok sg -> exists p, sg_page sg = Some p /\ get_order (sg_dma_len sg) ∈ orders.
Proof.
  intros ([p Hp] & _ & o & Ho & ->). exists p. split; [done|].
  assert (get_order (Z.shiftl PAGE_SIZE o) = o) as ->
    by (apply orders_cases in Ho as [-> | [-> | ->]]; reflexivity).
  done.
Qed.

Lemma avoids_free_buffer_page_timeout buffer pg order :
  avoids F_timeout (free_buffer_page buffer pg order).
Proof.
  unfold free_buffer_page. apply avoids_if; [|apply avoids_if].
  - apply avoids_bind.
    { apply avoids_lift. pose proof (order_to_index_from_spec orders order 0) as S.
      unfold order_to_index. destruct (order_to_index_from _ _ _); simpl in *; tauto. }
    intros idx. apply avoids_bind; [by apply avoids_deref|]. intros p.
    unfold ion_page_pool_free. auto 8 with avoid.
  - apply avoids_for_each, Forall_forall. intros i' _.
    apply avoids_bind; [by apply avoids_deref|]. intros p. apply avoids_emit.
  - apply avoids_bind; [by apply avoids_deref|]. intros p. apply avoids_emit.
Qed.

Section Release.
Context (buffer : ion_buffer) (t : sg_table).
Context (Ht : buf_sg_table buffer = Some t) (Hok : Forall entry_ok (visited t)).

Lemma free_unfold w :
  ion_system_heap_free buffer w
  = ((if negb (ion_buffer_cached buffer) && negb (ION_FLAG_NOZEROED (buf_flags buffer))
      then emit (Ev_buffer_zero t) else ret tt);;
     for_each (visited t)
       (fun sg => free_buffer_page buffer (sg_page sg) (get_order (sg_dma_len sg)));;
     sg_free_table (table_addr t);; kfree (table_addr t)) w.
Proof.
  unfold ion_system_heap_free, ion_heap_buffer_zero. rewrite Ht. unfold bind.
  by destruct (_ && _).
Qed.

Lemma avoids_free (f : failure) :
  f <> F_fault -> forall w, ~ fails f (ion_system_heap_free buffer w).
Proof.
  intros Hf w. rewrite free_unfold. revert w.
  apply avoids_bind; [apply avoids_if; auto with avoid|]. intros _.
  apply avoids_bind; [|intros _; apply avoids_bind; [|intros _]; apply avoids_emit].
  apply avoids_for_each. eapply List.Forall_impl; [|exact Hok].
  intros sg Hsg. cbv beta. apply entry_ok_order in Hsg as (p & -> & Ho).
  destruct f; [by apply avoids_free_buffer_page | done
              | apply avoids_free_buffer_page_timeout].
Qed.

Lemma sound_free : sound (ion_system_heap_free buffer).
Proof.
  intros w Hw. rewrite free_unfold. revert w Hw.
  apply sound_bind.
  - apply sound_if; [apply sound_emit | apply sound_ret].
  - apply keeps_if; [apply keeps_emit_heap | apply keeps_ret, _].
  - intros _. apply sound_bind.
    + apply sound_for_each; [intros sg; apply keeps_free_buffer_page_heap|].
      eapply List.Forall_impl; [|exact Hok].
      intros sg Hsg. cbv beta. apply entry_ok_order in Hsg as (p & -> & Ho).
      by apply sound_free_buffer_page.
    + apply keeps_for_each; [apply _|]. intros sg. apply keeps_free_buffer_page_heap.
    + intros _. apply sound_bind; [apply sound_emit | apply keeps_emit_heap |].
      intros _. apply sound_emit.
Qed.

Lemma keeps_free_heap : keeps same_heap (ion_system_heap_free buffer).
Proof.
  intros w a w' H. rewrite free_unfold in H. revert w a w' H.
  apply keeps_bind; [apply _ | |].
  - apply keeps_if; [apply keeps_emit_heap | apply keeps_ret, _].
  - intros _. apply keeps_bind; [apply _ | |].
    + apply keeps_for_each; [apply _|]. intros sg. apply keeps_free_buffer_page_heap.
    + intros _. apply keeps_bind; [apply _ | apply keeps_emit_heap |].
      intros _. apply keeps_emit_heap.
Qed.
End Release.

Lemma free_well_formed buffer t w :
  heap_ok w ->
  buf_sg_table buffer = Some t ->
  Forall entry_ok (visited t) ->
  exists w', ion_system_heap_free buffer w = Ok (tt, w') /\ heap_ok w'.
Proof.
  intros Hw Ht Hok.
  destruct (result_cases (ion_system_heap_free buffer w)) as ([] & w' & E).
  - by apply (avoids_free buffer t Ht Hok F_bug).
  - by apply (avoids_free buffer t Ht Hok F_timeout).
  - by apply (sound_free buffer t Ht Hok).
  - exists w'. split; [done|].
    eapply same_heap_ok; [|exact Hw]. by eapply (keeps_free_heap buffer t Ht).
Qed.



(** ** What an allocation calls *)

Lemma after_same P w w' : trace w' = trace w -> after P w w'.
Proof. intros E. exists []. split; [by rewrite app_nil_r | constructor]. Qed.

Section Paging.
Context (P : event -> Prop) (HP : forall e, paging e -> P e).

Lemma keeps_alloc_pages_paging gfp order : keeps (after P) (alloc_pages gfp order).
Proof.
  intros w a w' H. unfold alloc_pages in H. injection H as _ <-.
  eexists [_]. split; [reflexivity|]. constructor; [by apply HP | constructor].
Qed.

Lemma keeps_get_pool_paging idx : keeps (after P) (get_pool idx).
Proof.
  intros w a w' H. unfold get_pool in H.
  destruct (pools w !! idx); [injection H as _ <-; reflexivity | discriminate].
Qed.

Lemma keeps_put_pool_paging idx p : keeps (after P) (put_pool idx p).
Proof. intros w a w' H. unfold put_pool in H. injection H as _ <-. by apply after_same. Qed.

Lemma keeps_preempt_paging : keeps (after P) preempt.
Proof.
  intros w a w' H. unfold preempt in H.
  destruct (others w) as [|[|idx] o]; injection H as _ <-; by apply after_same.
Qed.

Lemma keeps_ion_page_pool_alloc_paging idx : keeps (after P) (ion_page_pool_alloc idx).
Proof.
  unfold ion_page_pool_alloc.
  apply keeps_bind; [apply _ | apply keeps_get_pool_paging |]. intros pool.
  apply keeps_bind; [apply _ | by apply keeps_emit_after, HP |]. intros _.
  destruct (high_items pool), (low_items pool);
    first [apply keeps_alloc_pages_paging
          | apply keeps_bind; [apply _ | apply keeps_put_pool_paging |];
            intros _; apply keeps_ret, _].
Qed.

Lemma keeps_alloc_buffer_page_paging buffer o :
  keeps (after P) (alloc_buffer_page buffer o).
Proof.
  unfold alloc_buffer_page.
  apply keeps_bind; [apply _ | apply keeps_lift, _ |]. intros idx.
  apply keeps_bind; [apply _ | |].
  - apply keeps_if; [apply keeps_ion_page_pool_alloc_paging | apply keeps_alloc_pages_paging].
  - intros [p|]; [|apply keeps_ret, _].
    apply keeps_bind; [apply _ | | intros _; apply keeps_ret, _].
    apply keeps_if; [by apply keeps_emit_after, HP | apply keeps_ret, _].
Qed.

Lemma keeps_free_buffer_page_paging buffer pg o :
  keeps (after P) (free_buffer_page buffer pg o).
Proof.
  unfold free_buffer_page. apply keeps_if; [|apply keeps_if].
  - apply keeps_bind; [apply _ | apply keeps_lift, _ |]. intros idx.
    apply keeps_bind; [apply _ | apply keeps_deref, _ |]. intros p.
    by apply keeps_ion_page_pool_free, HP.
  - apply keeps_for_each; [apply _|]. intros i.
    apply keeps_bind; [apply _ | apply keeps_deref, _ |]. intros p.
    by apply keeps_emit_after, HP.
  - apply keeps_bind; [apply _ | apply keeps_deref, _ |]. intros p.
    by apply keeps_emit_after, HP.
Qed.

Lemma keeps_alloc_largest_available_from_paging os buffer size max_order from_pool :
  keeps (after P) (alloc_largest_available_from os buffer size max_order from_pool).
Proof.
  revert from_pool. induction os as [|o os IH]; intros from_pool;
    cbn [alloc_largest_available_from]; [apply keeps_ret, _|].
  destruct (size <? order_to_size o); [apply IH|].
  destruct (max_order <? o); [apply IH|].
  apply keeps_bind; [apply _ | |].
  - apply keeps_if; [|apply keeps_ret, _].
    apply keeps_bind; [apply _ | apply keeps_lift, _ |]. intros idx.
    apply keeps_bind; [apply _ | apply keeps_get_pool_paging |]. intros pool.
    apply keeps_bind; [apply _ | apply keeps_preempt_paging |]. intros _.
    apply keeps_ret, _.
  - intros fp. apply keeps_bind; [apply _ | apply keeps_alloc_buffer_page_paging |].
    intros [pg|]; [apply keeps_ret, _ | apply IH].
Qed.

Lemma keeps_alloc_loop_paging fuel buffer sr max_order pages i :
  keeps (after P) (alloc_loop fuel buffer sr max_order pages i).
Proof.
  revert sr max_order pages i. induction fuel as [|fuel IH]; intros sr max_order pages i;
    cbn [alloc_loop]; destruct (0 <? sr); try apply keeps_ret, _.
  - intros w a w' H. discriminate.
  - apply keeps_bind; [apply _ | apply keeps_alloc_largest_available_from_paging |].
    intros [pg|]; [apply IH | apply keeps_ret, _].
Qed.

Lemma keeps_allocate_err_paging buffer pages :
  keeps (after P) (allocate_err buffer pages).
Proof.
  unfold allocate_err.
  apply keeps_bind; [apply _ | | intros _; apply keeps_ret, _].
  apply keeps_for_each; [apply _|]. intros pg. apply keeps_free_buffer_page_paging.
Qed.
End Paging.

Lemma paging_quiet e : paging e -> quiet e.
Proof. by destruct e. Qed.

Lemma keeps_kmalloc_quiet size flags : keeps (after quiet) (kmalloc size flags).
Proof.
  intros w a w' H. unfold kmalloc in H. injection H as _ <-.
  eexists [_]. split; [reflexivity | by constructor].
Qed.

Lemma keeps_sg_alloc_table_quiet table n gfp : keeps (after quiet) (sg_alloc_table table n gfp).
Proof.
  intros w a w' H. unfold sg_alloc_table in H. injection H as _ <-.
  eexists [_]. split; [reflexivity | by constructor].
Qed.

Lemma keeps_get_pool_quiet idx : keeps (after quiet) (get_pool idx).
Proof. apply keeps_get_pool_paging. Qed.

Lemma keeps_preempt_quiet : keeps (after quiet) preempt.
Proof. apply keeps_preempt_paging. Qed.

Lemma keeps_alloc_largest_available_from_quiet os buffer size max_order from_pool :
  keeps (after quiet) (alloc_largest_available_from os buffer size max_order from_pool).
Proof. apply keeps_alloc_largest_available_from_paging, paging_quiet. Qed.

Lemma keeps_alloc_loop_quiet fuel buffer sr max_order pages i :
  keeps (after quiet) (alloc_loop fuel buffer sr max_order pages i).
Proof. apply keeps_alloc_loop_paging, paging_quiet. Qed.

Lemma keeps_allocate_err_quiet buffer pages :
  keeps (after quiet) (allocate_err buffer pages).
Proof. apply keeps_allocate_err_paging, paging_quiet. Qed.

(** X6.  [ion_system_heap_allocate] never zeroes a page, on no path: the
    runs that its error path hands to the pools go there as the host gave
    them.  It syncs for DMA only when it succeeds on a buffer with
    [SYNC_FORCE]: once, as its last call, on the table it leaves in the
    buffer. *)
Theorem allocate_zeroes_nothing_syncs_last buffer size align flags w r b' w' :
  ion_system_heap_allocate buffer size align flags w = Ok ((r, b'), w') ->
  exists evs,
    Forall quiet evs /\
    ((r <> 0 /\ trace w' = trace w ++ evs) \/
     (r = 0 /\ exists t,
        priv_virt b' = Priv_table t /\
        trace w' = trace w ++ evs
                   ++ (if ion_buffer_sync_force buffer then [Ev_device_sync t] else []))).
Proof.
  unfold ion_system_heap_allocate. intros H. inv_ok H.
  destruct a as [[fin pages] i]. apply keeps_alloc_loop_quiet in Hm as A1.
  assert (forall w1 , after quiet w0 w1 ->
            allocate_err buffer pages w1 = Ok ((r, b'), w') ->
            exists evs, Forall quiet evs /\
              ((r <> 0 /\ trace w' = trace w ++ evs) \/
               (r = 0 /\ exists t, priv_virt b' = Priv_table t /\
                  trace w' = trace w ++ evs
                    ++ (if ion_buffer_sync_force buffer
                        then [Ev_device_sync t] else [])))) as Herr.
  { intros w1 A2 E. apply keeps_allocate_err_quiet in E as A3.
    assert (after quiet w w') as (evs & Et & F)
      by (etransitivity; [exact A1|]; by etransitivity).
    exists evs. split; [done|]. left. split; [|done].
    unfold allocate_err in E. inv_ok E. inv_ok Hk0. by injection Hk0 as -> _. }
  destruct fin; cbn [negb] in Hk; [|by eapply Herr].
  inv_ok Hk. apply keeps_kmalloc_quiet in Hm0 as A2.
  destruct a as [m|]; [|by eapply Herr].
  inv_ok Hk0.
  assert (after quiet w1 w2 /\
          (a = None \/ exists n, a = Some {| table_addr := kaddr m;
                                             sgl := replicate (Z.to_nat n) sg_zero;
                                             nents := n |})) as [A3 Ha].
  { destruct (ion_buffer_fault_user_mappings buffer);
      (split; [by eapply keeps_sg_alloc_table_quiet|]);
      apply sg_alloc_table_Ok in Hm1 as [_ [-> | ->]]; eauto. }
  destruct Ha as [-> | [n ->]].
  - inv_ok Hk. apply (keeps_emit_after quiet) in Hm2 as A4; [|done].
    eapply Herr; [|exact Hk0]. by do 2 (etransitivity; [eassumption|]).
  - inv_ok Hk. inv_ok Hm2. destruct a as [l all]. inv_ok Hk0. inv_ok Hk.
    injection Hk as -> ->.
    assert (after quiet w w2) as (evs & Et & F)
      by (etransitivity; [exact A1|]; by etransitivity).
    exists evs. split; [done|]. right. split; [done|]. eexists. split; [reflexivity|].
    destruct (ion_buffer_sync_force buffer).
    + unfold ion_device_sync in Hm3. inv_ok Hm3. cbn [log trace nents sgl table_addr].
      by rewrite Et, <- app_assoc.
    + inv_ok Hm3. by rewrite app_nil_r.
Qed.

Lemma allocate_zeroes_nothing_syncs_last_witness :
  ion_system_heap_allocate buffer_68k 69632 0 0 world_short
    = Ok ((- ENOMEM, buffer_68k), world_short') /\
  exists evs,
    Forall quiet evs /\
    ((- ENOMEM <> 0 /\ trace world_short' = trace world_short ++ evs) \/
     (- ENOMEM = 0 /\ exists t,
        priv_virt buffer_68k = Priv_table t /\
        trace world_short' = trace world_short ++ evs
                   ++ (if ion_buffer_sync_force buffer_68k then [Ev_device_sync t] else []))).
Proof.
  split; [vm_compute; reflexivity|].
  apply (allocate_zeroes_nothing_syncs_last buffer_68k 69632 0 0 world_short
           (- ENOMEM) buffer_68k world_short').
  vm_compute; reflexivity.
Defined.

(** ** Why an allocation fails *)

Lemma refused_after_l P Q w w1 w2 : after P w w1 -> refused Q w1 w2 -> refused Q w w2.
Proof.
  intros (e1 & E1 & _) (e2 & E2 & X). exists (e1 ++ e2).
  split; [by rewrite E2, E1, app_assoc | apply Exists_app; by right].
Qed.

Lemma refused_after_r P Q w w1 w2 : refused Q w w1 -> after P w1 w2 -> refused Q w w2.
Proof.
  intros (e1 & E1 & X) (e2 & E2 & _). exists (e1 ++ e2).
  split; [by rewrite E2, E1, app_assoc | apply Exists_app; by left].
Qed.

Lemma refused_mono (P Q : event -> Prop) w w' :
  (forall e, P e -> Q e) -> refused P w w' -> refused Q w w'.
Proof.
  intros H (evs & E & X). exists evs. split; [done|].
  eapply List.Exists_impl; [exact H | exact X].
Qed.

Lemma no_pages_refusal e : no_pages e -> refusal e.
Proof. by destruct e as [? ? [?|]| | | | | | | | | | |]. Qed.

Lemma alloc_pages_None gfp o w w' :
  alloc_pages gfp o w = Ok (None, w') -> refused no_pages w w'.
Proof.
  unfold alloc_pages. intros H. injection H as E <-. rewrite E.
  exists [Ev_alloc_pages gfp o None]. split; [reflexivity | by constructor].
Qed.

Lemma ion_page_pool_alloc_None idx w w' :
  ion_page_pool_alloc idx w = Ok (None, w') -> refused no_pages w w'.
Proof.
  unfold ion_page_pool_alloc. intros H. inv_ok H.
  apply keeps_get_pool_quiet in Hm as A1. inv_ok Hk.
  apply (keeps_emit_after quiet) in Hm0 as A2; [|done].
  eapply refused_after_l; [exact A1|]. eapply refused_after_l; [exact A2|].
  destruct (high_items a), (low_items a);
    first [exact (alloc_pages_None _ _ _ _ Hk0) | inv_ok Hk0; inv_ok Hk; discriminate].
Qed.

Lemma alloc_buffer_page_None buffer o w w' :
  alloc_buffer_page buffer o w = Ok (None, w') -> refused no_pages w w'.
Proof.
  unfold alloc_buffer_page. intros H. inv_ok H. inv_ok Hk.
  destruct a0 as [p|]; [inv_ok Hk0; inv_ok Hk; discriminate|]. inv_ok Hk0. inv_ok Hm.
  destruct (ion_buffer_cached buffer); cbn [negb] in Hm0;
    [exact (alloc_pages_None _ _ _ _ Hm0) | exact (ion_page_pool_alloc_None _ _ _ Hm0)].
Qed.

(** An order that is tried and not served was refused by the host; the
    smallest order is tried whenever a page is asked for. *)
Lemma alloc_largest_available_from_None os buffer size max_order from_pool w w' :
  alloc_largest_available_from os buffer size max_order from_pool w = Ok (None, w') ->
  0 ∈ os -> PAGE_SIZE <= size -> 0 <= max_order ->
  refused no_pages w w'.
Proof.
  intros H Hin Hsize Hmax. revert from_pool w H Hin.
  induction os as [|o os IH]; intros from_pool w H Hin; [by apply elem_of_nil in Hin|].
  cbn [alloc_largest_available_from] in H.
  assert (o <> 0 -> 0 ∈ os) as Hrest
    by (intros Ho; apply elem_of_cons in Hin as [E|E]; [by symmetry in E | done]).
  destruct (Z.ltb_spec size (order_to_size o)) as [Hbig|_].
  { apply (IH _ _ H), Hrest. intros ->. change (order_to_size 0) with PAGE_SIZE in Hbig. lia. }
  destruct (Z.ltb_spec max_order o) as [Hcap|_].
  { apply (IH _ _ H), Hrest. lia. }
  inv_ok H.
  assert (after quiet w w0) as A1.
  { eapply (keeps_if (after quiet)); [| |exact Hm]; [|apply keeps_ret, _].
    apply keeps_bind; [apply _ | apply keeps_lift, _ |]. intros idx.
    apply keeps_bind; [apply _ | apply keeps_get_pool_quiet |]. intros pool.
    apply keeps_bind; [apply _ | apply keeps_preempt_quiet |]. intros _.
    apply keeps_ret, _. }
  inv_ok Hk. destruct a0 as [pg|]; [inv_ok Hk0; discriminate|].
  apply alloc_buffer_page_None in Hm0.
  apply keeps_alloc_largest_available_from_quiet in Hk0.
  eapply refused_after_l; [exact A1|]. by eapply refused_after_r.
Qed.

Lemma alloc_loop_unfinished fuel buffer sr max_order pages i w pages' i' w' :
  alloc_loop fuel buffer sr max_order pages i w = Ok ((false, pages', i'), w') ->
  sr < 2 ^ 31 -> (PAGE_SIZE | sr) -> 0 <= max_order ->
  refused no_pages w w'.
Proof.
  revert sr max_order pages i w.
  induction fuel as [|fuel IH]; intros sr max_order pages i w H Hsr Hdiv Hmax;
    cbn [alloc_loop] in H; destruct (Z.ltb_spec 0 sr) as [Hpos|Hneg];
    try discriminate; try (inv_ok H; discriminate).
  inv_ok H. destruct a as [pg|].
  - apply keeps_alloc_largest_available_from_quiet in Hm as A1.
    apply alloc_largest_available_Some in Hm as (Ho & Hfit & Hcap).
    destruct (alloc_loop_step sr (ion_page_order pg)) as (E & Hsr' & Hdiv' & Hq);
      [lia | done .. |].
    cbv zeta in E, Hsr', Hdiv', Hq.
    eapply refused_after_l; [exact A1|]. eapply IH; [exact Hk | | done |].
    + rewrite E. rewrite PAGE_SIZE_eq in *.
      apply orders_cases in Ho as [-> | [-> | ->]]; lia.
    + apply orders_cases in Ho as [-> | [-> | ->]]; lia.
  - inv_ok Hk. eapply alloc_largest_available_from_None; [exact Hm | | | done].
    + unfold orders. rewrite !elem_of_cons. tauto.
    + destruct Hdiv as [q ->]. rewrite ULONG_small by lia. rewrite PAGE_SIZE_eq in *. lia.
Qed.

(** X7.  [alloc_largest_available] returns no run only after the host has
    refused a request of the heap: for a request of at least one page under a
    cap that admits the smallest order, a null result comes with a failed
    [alloc_pages] among the calls made. *)
Theorem alloc_largest_available_null_refused buffer size max_order w w' :
  PAGE_SIZE <= size -> 0 <= max_order ->
  alloc_largest_available buffer size max_order w = Ok (None, w') ->
  refused no_pages w w'.
Proof.
  intros Hsize Hmax H.
  eapply alloc_largest_available_from_None; [exact H | | done ..].
  unfold orders. rewrite !elem_of_cons. tauto.
Qed.

Lemma alloc_largest_available_null_refused_witness :
  PAGE_SIZE <= 4096 /\ 0 <= 8 /\
  alloc_largest_available buffer_4k 4096 8 world_dry = Ok (None, world_dry_run) /\
  refused no_pages world_dry world_dry_run.
Proof.
  split; [vm_compute; discriminate|]. split; [lia|]. split; [vm_compute; reflexivity|].
  apply (alloc_largest_available_null_refused buffer_4k 4096 8 world_dry world_dry_run);
    [vm_compute; discriminate | lia | vm_compute; reflexivity].
Defined.

Lemma allocate_refused buffer size align flags w r b' w' :
  ion_system_heap_allocate buffer size align flags w = Ok ((r, b'), w') ->
  r <> 0 ->
  refused refusal w w'.
Proof.
  unfold ion_system_heap_allocate. intros H Hr. inv_ok H.
  destruct a as [[fin pages] i]. apply keeps_alloc_loop_quiet in Hm as A1.
  destruct (size_remaining_pages size) as (Hsr & Hdiv & _).
  destruct fin; cbn [negb] in Hk.
  2:{ apply keeps_allocate_err_quiet in Hk. eapply refused_after_r; [|exact Hk].
      eapply refused_mono; [exact no_pages_refusal|].
      eapply alloc_loop_unfinished; [exact Hm | done | done | simpl; lia]. }
  eapply refused_after_l; [exact A1|]. inv_ok Hk. destruct a as [m|].
  2:{ apply keeps_allocate_err_quiet in Hk0. eapply refused_after_r; [|exact Hk0].
      unfold kmalloc in Hm0. injection Hm0 as E <-.
      eexists [_]. split; [reflexivity|]. constructor. simpl. by rewrite E. }
  apply keeps_kmalloc_quiet in Hm0 as A2. eapply refused_after_l; [exact A2|].
  inv_ok Hk0. destruct a as [t|].
  - inv_ok Hk. destruct a as [l all]. inv_ok Hk0. inv_ok Hk. by injection Hk as -> _.
  - assert (after quiet w2 w') as A3.
    { inv_ok Hk. apply (keeps_emit_after quiet) in Hm2; [|done].
      apply keeps_allocate_err_quiet in Hk0. by etransitivity. }
    eapply refused_after_r; [|exact A3].
    assert (forall n, sg_alloc_table (kaddr m) n GFP_KERNEL w1 = Ok (None, w2) ->
                      refused refusal w1 w2) as Hsg.
    { intros n E. unfold sg_alloc_table in E. injection E as E <-.
      destruct (host_slab w1) as [|[?|] ?]; try discriminate;
        (eexists [_]; split; [reflexivity | by constructor]). }
    destruct (ion_buffer_fault_user_mappings buffer); by eapply Hsg.
Qed.

(** X8.  [ion_system_heap_allocate] fails only for lack of memory: a return
    other than 0 comes with a request that the host or the slab allocator
    refused ([alloc_pages], [kmalloc] or [sg_alloc_table]) among the calls
    made, whatever the size asked for. *)
Theorem allocate_fails_only_when_refused buffer size align flags w r b' w' :
  ion_system_heap_allocate buffer size align flags w = Ok ((r, b'), w') ->
  r <> 0 ->
  refused refusal w w'.
Proof. apply allocate_refused. Qed.

Lemma allocate_fails_only_when_refused_witness :
  ion_system_heap_allocate buffer_4k 4096 0 0 world_dry
    = Ok ((- ENOMEM, buffer_4k), world_dry') /\
  - ENOMEM <> 0 /\
  refused refusal world_dry world_dry'.
Proof.
  split; [vm_compute; reflexivity|]. split; [discriminate|].
  apply (allocate_fails_only_when_refused buffer_4k 4096 0 0 world_dry
           (- ENOMEM) buffer_4k world_dry');
    [vm_compute; reflexivity | discriminate].
Defined.

(** ** From allocation to release *)

Lemma keeps_allocate_err_heap buffer pages : keeps same_heap (allocate_err buffer pages).
Proof.
  unfold allocate_err.
  apply keeps_bind; [apply _ | | intros _; apply keeps_ret, _].
  apply keeps_for_each; [apply _|]. intros pg. apply keeps_free_buffer_page_heap.
Qed.

Lemma keeps_sg_alloc_table_heap table n gfp : keeps same_heap (sg_alloc_table table n gfp).
Proof. intros w a w' H. unfold sg_alloc_table in H. by injection H as _ <-. Qed.

Lemma keeps_allocate_heap buffer size align flags :
  keeps same_heap (ion_system_heap_allocate buffer size align flags).
Proof.
  unfold ion_system_heap_allocate.
  apply keeps_bind; [apply _ | apply keeps_alloc_loop_heap |]. intros [[fin pages] i].
  apply keeps_if; [apply keeps_allocate_err_heap|].
  apply keeps_bind; [apply _ | apply keeps_kmalloc_heap |].
  intros [m|]; [|apply keeps_allocate_err_heap].
  apply keeps_bind; [apply _ | apply keeps_if; apply keeps_sg_alloc_table_heap |].
  intros [t|].
  - apply keeps_bind; [apply _ | apply keeps_lift, _ |]. intros [l all].
    apply keeps_bind; [apply _ | | intros _; apply keeps_ret, _].
    apply keeps_if; [apply keeps_emit_heap | apply keeps_ret, _].
  - apply keeps_bind; [apply _ | apply keeps_emit_heap |]. intros _.
    apply keeps_allocate_err_heap.
Qed.

Lemma free_entries_trace buffer l w w' :
  Forall entry_ok l ->
  for_each l (fun sg => free_buffer_page buffer (sg_page sg) (get_order (sg_dma_len sg))) w
  = Ok (tt, w') ->
  trace w' = trace w ++ (l ≫= entry_events buffer).
Proof.
  intros Hl. revert w. induction Hl as [|sg l Hsg _ IH]; intros w H; cbn [for_each] in H.
  - inv_ok H. by rewrite app_nil_r.
  - inv_ok H. destruct a. apply IH in Hk. rewrite Hk, bind_cons, app_assoc. f_equal.
    apply entry_ok_order in Hsg as (p & Ep & Ho). unfold entry_events. rewrite Ep in *.
    apply free_buffer_page_trace; [done|].
    by replace (LONG (get_order (sg_dma_len sg))) with (get_order (sg_dma_len sg))
      by (apply orders_cases in Ho as [-> | [-> | ->]]; reflexivity).
Qed.

Lemma released_free_events buffer p o :
  o ∈ orders ->
  ion_buffer_fault_user_mappings buffer = false ->
  free_events buffer p o ≫= released = run_pages p o.
Proof.
  intros Ho Hs. unfold free_events. rewrite Hs.
  destruct (ion_buffer_cached buffer); cbn [negb].
  - cbn. by rewrite app_nil_r.
  - destruct (order_to_index_Ok o Ho) as (idx & -> & Hidx). cbn. rewrite Hidx. cbn.
    by rewrite app_nil_r.
Qed.

Lemma released_free_page buffer p :
  ion_buffer_fault_user_mappings buffer = true ->
  free_events buffer p 0 ≫= released = [p].
Proof.
  intros Hs. unfold free_events. rewrite Hs.
  destruct (ion_buffer_cached buffer); cbn; unfold run_pages;
    change (seqZ 0 (2 ^ 0)) with [0]; cbn; by rewrite Z.add_0_r.
Qed.

Lemma released_entries buffer pages :
  Forall (fun pg => ion_page_order pg ∈ orders) pages ->
  (entries (ion_buffer_fault_user_mappings buffer) pages ≫= entry_events buffer)
    ≫= released
  = pages ≫= pages_of.
Proof.
  induction 1 as [|pg pages Ho _ IH]; [by destruct (ion_buffer_fault_user_mappings _)|].
  rewrite (bind_cons pages_of).
  destruct (ion_buffer_fault_user_mappings buffer) eqn:Hs; cbn [entries] in *.
  - rewrite bind_cons, !bind_app, IH. f_equal.
    unfold split_entries, pages_of, run_pages.
    induction (seqZ 0 (2 ^ ion_page_order pg)) as [|i l IHl]; [done|].
    rewrite !fmap_cons, !bind_cons, bind_app, IHl.
    unfold entry_events at 1. cbn [page_entry sg_page sg_dma_len sg_length].
    change (get_order PAGE_SIZE) with 0. by rewrite released_free_page.
  - rewrite fmap_cons, !bind_cons, bind_app, IH. f_equal.
    unfold entry_events. cbn [run_entry sg_page sg_dma_len sg_length].
    unfold run_bytes. rewrite get_order_extent by done.
    by apply released_free_events.
Qed.

(** X9.  From allocation to release every page comes back once: after a
    successful [ion_system_heap_allocate] for a size whose padding fits a
    [long], [ion_system_heap_free] on the buffer with the table the heap
    stored in it returns, leaves the pool array complete, and hands back, to
    the pools or to the host, exactly the pages of the run list that was
    packed, each page once and in pack order, whatever the flags of the
    buffer. *)
Theorem allocate_then_free_releases_each_page buffer size align flags w b' w' :
  heap_ok w ->
  0 < size <= 2 ^ 31 - PAGE_SIZE ->
  ion_system_heap_allocate buffer size align flags w = Ok ((0, b'), w') ->
  exists pages w1 w'' evs,
    packs buffer size w true pages w1 /\
    ion_system_heap_free (mapped b') w' = Ok (tt, w'') /\
    heap_ok w'' /\
    trace w'' = trace w' ++ evs /\
    evs ≫= released = pages ≫= pages_of.
Proof.
  intros Hw Hsize H.
  apply keeps_allocate_heap in H as Hheap. apply same_heap_ok in Hheap; [|done].
  assert (buf_flags b' = buf_flags buffer) as Hflags.
  { apply ion_system_heap_allocate_inv in H
      as (fin & pages & i & w1 & Hloop
          & [(w2 & _ & Herr) | (-> & _ & _ & n & l & all & En & Hfill & ta & ->)]).
    - apply alloc_loop_of_allocate in Hloop as (_ & Hall & _).
      apply allocate_err_Ok in Herr as (Hr & _); [|done]. discriminate.
    - cbn [set_priv_virt buf_flags]. by destruct (_ || _). }
  apply allocate_in_range in H as (pages & w1 & Hpacks & Hall & Hsum & ta & Hpriv); [|done].
  set (t := {| sgl := entries (ion_buffer_fault_user_mappings buffer) pages;
               nents := Z.of_nat (length (entries (ion_buffer_fault_user_mappings buffer)
                                            pages)) |}) in *.
  assert (buf_sg_table (mapped b') = Some t) as Ht
    by (unfold mapped, ion_system_heap_map_dma; cbn [buf_sg_table]; by rewrite Hpriv).
  assert (visited t = entries (ion_buffer_fault_user_mappings buffer) pages) as Hv
    by (unfold visited, t; cbn [sgl nents]; by rewrite Nat2Z.id, firstn_all).
  assert (Forall entry_ok (visited t)) as Hok by (rewrite Hv; by apply entries_ok).
  destruct (free_well_formed (mapped b') t w' Hheap Ht Hok)
    as (w'' & Hfree & Hw'').
  exists pages, w1, w''. pose proof Hfree as Hfree'.
  rewrite (free_unfold (mapped b') t Ht) in Hfree'. inv_ok Hfree'.
  inv_ok Hk. destruct a0. apply free_entries_trace in Hm0; [|done]. inv_ok Hk0.
  unfold sg_free_table in Hm1. inv_ok Hm1. unfold kfree in Hk. inv_ok Hk.
  assert (ion_buffer_fault_user_mappings (mapped b')
          = ion_buffer_fault_user_mappings buffer) as Hs
    by (unfold ion_buffer_fault_user_mappings, mapped; cbn [buf_flags]; by rewrite Hflags).
  assert (exists z, trace w0 = trace w' ++ z /\ z ≫= released = []) as (z & Ez & Hz).
  { destruct (_ && _); inv_ok Hm.
    - by exists [Ev_buffer_zero t].
    - exists []. by rewrite app_nil_r. }
  exists (z ++ (visited t ≫= entry_events (mapped b')) ++ [Ev_sg_free_table (table_addr t); Ev_kfree (table_addr t)]).
  split; [done|]. split; [done|]. split; [done|]. split.
  - cbn [log trace]. rewrite Hm0, Ez, <- !app_assoc. reflexivity.
  - rewrite !bind_app, Hz. cbn. rewrite app_nil_r, Hv.
    rewrite <- (released_entries buffer pages Hall).
    f_equal. apply list_bind_ext; [|done]. intros sg. unfold entry_events, free_events.
    unfold ion_buffer_cached, ion_buffer_fault_user_mappings. cbn [mapped buf_flags].
    by rewrite Hflags.
Qed.

Lemma allocate_then_free_releases_each_page_witness :
  heap_ok world_fresh /\
  0 < 65536 <= 2 ^ 31 - PAGE_SIZE /\
  ion_system_heap_allocate buffer_split 65536 0 0 world_fresh
    = Ok ((0, buffer_split'), world_split') /\
  exists pages w1 w'' evs,
    packs buffer_split 65536 world_fresh true pages w1 /\
    ion_system_heap_free (mapped buffer_split') world_split' = Ok (tt, w'') /\
    heap_ok w'' /\
    trace w'' = trace world_split' ++ evs /\
    evs ≫= released = pages ≫= pages_of.
Proof.
  split; [reflexivity|]. split; [rewrite PAGE_SIZE_eq; lia|].
  split; [vm_compute; reflexivity|].
  apply (allocate_then_free_releases_each_page buffer_split 65536 0 0 world_fresh
           buffer_split' world_split');
    [reflexivity | rewrite PAGE_SIZE_eq; lia | vm_compute; reflexivity].
Defined.

(** ** The packer takes the largest order the host grants *)

Lemma orders_sorted : StronglySorted (fun a b => b < a) orders.
Proof. unfold orders. repeat constructor; lia. Qed.

Lemma alloc_largest_available_from_largest os buffer size max_order from_pool w pg w' o :
  StronglySorted (fun a b => b < a) os ->
  alloc_largest_available_from os buffer size max_order from_pool w = Ok (Some pg, w') ->
  o ∈ os -> order_to_size o <= size -> o <= max_order -> ion_page_order pg < o ->
  refused no_pages w w'.
Proof.
  intros Hs H Hin Hfit Hcap Hlt. revert from_pool w H Hin.
  induction Hs as [|o1 os Hs IH Hall]; intros from_pool w H Hin;
    [by apply elem_of_nil in Hin|].
  cbn [alloc_largest_available_from] in H.
  destruct (Z.ltb_spec size (order_to_size o1)) as [Hbig|_].
  { apply (IH _ _ H). apply elem_of_cons in Hin as [->|Hin]; [lia | done]. }
  destruct (Z.ltb_spec max_order o1) as [Hcap1|_].
  { apply (IH _ _ H). apply elem_of_cons in Hin as [->|Hin]; [lia | done]. }
  inv_ok H.
  assert (after quiet w w0) as A1.
  { eapply (keeps_if (after quiet)); [| |exact Hm]; [|apply keeps_ret, _].
    apply keeps_bind; [apply _ | apply keeps_lift, _ |]. intros idx.
    apply keeps_bind; [apply _ | apply keeps_get_pool_quiet |]. intros pool.
    apply keeps_bind; [apply _ | apply keeps_preempt_quiet |]. intros _.
    apply keeps_ret, _. }
  inv_ok Hk. destruct a0 as [pg0|].
  - exfalso. apply alloc_buffer_page_Some in Hm0 as [p ->]. inv_ok Hk0.
    assert (E : ion_page_order pg = o1) by (injection Hk0 as ->; by destruct a).
    apply elem_of_cons in Hin as [->|Hin]; [lia|].
    rewrite List.Forall_forall in Hall. apply list_elem_of_In, Hall in Hin. lia.
  - apply alloc_buffer_page_None in Hm0.
    apply keeps_alloc_largest_available_from_quiet in Hk0.
    eapply refused_after_l; [exact A1|]. by eapply refused_after_r.
Qed.

(** X10.  [alloc_largest_available] serves the largest order it may: a run
    of a smaller order than one of the order set that fits the size and the
    cap is returned only after the host has refused a request during the
    call. *)
Theorem alloc_largest_available_largest buffer size max_order w pg w' o :
  alloc_largest_available buffer size max_order w = Ok (Some pg, w') ->
  o ∈ orders -> order_to_size o <= size -> o <= max_order ->
  ion_page_order pg < o ->
  refused no_pages w w'.
Proof. apply alloc_largest_available_from_largest, orders_sorted. Qed.

Lemma alloc_largest_available_largest_witness :
  alloc_largest_available buffer_1m 1048576 8 world_race
    = Ok (Some run_race, world_race_run) /\
  8 ∈ orders /\ order_to_size 8 <= 1048576 /\ 8 <= 8 /\
  ion_page_order run_race < 8 /\
  refused no_pages world_race world_race_run.
Proof.
  assert (8 ∈ orders) as H8 by (unfold orders; rewrite !elem_of_cons; tauto).
  split; [vm_compute; reflexivity|]. split; [exact H8|].
  split; [vm_compute; discriminate|]. split; [lia|]. split; [reflexivity|].
  apply (alloc_largest_available_largest buffer_1m 1048576 8 world_race
           run_race world_race_run 8);
    [vm_compute; reflexivity | exact H8 | vm_compute; discriminate | lia | reflexivity].
Defined.

(** ** A host that grants every request gets the fewest runs *)

Lemma refusalb_refusal e : refusalb e = true <-> refusal e.
Proof.
  destruct e as [? ? [?|]| | | | | | | |? ? [?|]| |? ? [|]|]; simpl; split; try done.
Qed.

Lemma calls_after w w' evs : trace w' = trace w ++ evs -> calls w w' = evs.
Proof. intros E. unfold calls. by rewrite E, drop_app_length. Qed.

Lemma all_granted_not_refused w w' :
  all_granted w w' = true -> ~ refused refusal w w'.
Proof.
  unfold all_granted. intros H (evs & E & X). rewrite (calls_after w w' evs E) in H.
  rewrite List.forallb_forall in H. apply List.Exists_exists in X as (e & Hin & He).
  apply H in Hin. apply refusalb_refusal in He. by rewrite He in Hin.
Qed.

Lemma greedy_step n o :
  o ∈ orders -> 2 ^ o <= n ->
  (forall o', o' ∈ orders -> o < o' -> n < 2 ^ o') ->
  greedy n = o :: greedy (n - 2 ^ o).
Proof.
  intros Ho Hfit Hmax. unfold greedy, orders. cbn [greedy_from].
  assert (forall q, 0 < q -> Z.to_nat q = S (Z.to_nat (q - 1))) as HS by (intros; lia).
  apply orders_cases in Ho as [-> | [-> | ->]].
  - replace (n - 2 ^ 8) with (n + (-1) * 2 ^ 8) by lia.
    rewrite Z_div_plus, Z_mod_plus by lia.
    rewrite (HS (n / 2 ^ 8)) by (apply Z.div_str_pos; lia).
    by replace (n / 2 ^ 8 + -1) with (n / 2 ^ 8 - 1) by lia.
  - assert (n < 2 ^ 8) as H8 by (apply Hmax; [unfold orders; rewrite !elem_of_cons; tauto | lia]).
    rewrite !(Z.div_small _ (2 ^ 8)), !(Z.mod_small _ (2 ^ 8)) by lia.
    change (Z.to_nat 0) with 0%nat. cbn [replicate app].
    replace (n - 2 ^ 4) with (n + (-1) * 2 ^ 4) by lia.
    rewrite Z_div_plus, Z_mod_plus by lia.
    rewrite (HS (n / 2 ^ 4)) by (apply Z.div_str_pos; lia).
    by replace (n / 2 ^ 4 + -1) with (n / 2 ^ 4 - 1) by lia.
  - assert (n < 2 ^ 4) as H4 by (apply Hmax; [unfold orders; rewrite !elem_of_cons; tauto | lia]).
    rewrite !(Z.div_small _ (2 ^ 8)), !(Z.mod_small _ (2 ^ 8)) by lia.
    rewrite !(Z.div_small _ (2 ^ 4)), !(Z.mod_small _ (2 ^ 4)) by lia.
    change (Z.to_nat 0) with 0%nat. cbn [replicate app]. change (2 ^ 0) with 1 in *.
    rewrite !Z.div_1_r, (HS n) by lia. reflexivity.
Qed.

Lemma alloc_loop_greedy fuel buffer sr max_order pages i w fin pages' i' w' :
  alloc_loop fuel buffer sr max_order pages i w = Ok ((fin, pages', i'), w') ->
  0 <= sr < 2 ^ 31 -> (PAGE_SIZE | sr) -> 0 <= max_order ->
  (forall o, o ∈ orders -> max_order < o -> sr < PAGE_SIZE * 2 ^ o) ->
  ~ refused no_pages w w' ->
  fin = true /\
  exists new, pages' = pages ++ new /\ ion_page_order <$> new = greedy (sr / PAGE_SIZE).
Proof.
  revert sr max_order pages i w.
  induction fuel as [|fuel IH]; intros sr max_order pages i w H Hsr Hdiv Hmax Hcap Hno;
    cbn [alloc_loop] in H; destruct (Z.ltb_spec 0 sr) as [Hpos|Hneg];
    try discriminate;
    try (inv_ok H; injection H as -> -> ->; split; [done|]; exists [];
         rewrite app_nil_r; split; [done|]; by replace sr with 0 by lia).
  inv_ok H. destruct a as [pg|].
  2:{ exfalso. apply Hno. inv_ok Hk. injection Hk as -> -> ->.
      eapply (alloc_loop_unfinished (S fuel) buffer sr max_order pages i w pages i w0);
        [|lia|done|done].
      cbn [alloc_loop]. destruct (Z.ltb_spec 0 sr); [|lia].
      unfold bind. rewrite Hm. reflexivity. }
  apply keeps_alloc_largest_available_from_quiet in Hm as A1.
  apply keeps_alloc_loop_quiet in Hk as A2.
  pose proof (alloc_largest_available_Some _ _ _ _ _ _ Hm) as (Ho & Hfit & Hle).
  destruct (alloc_loop_step sr (ion_page_order pg)) as (E & Hsr' & Hdiv' & Hq);
    [lia | done .. |].
  cbv zeta in E, Hsr', Hdiv', Hq.
  rewrite ULONG_small in Hfit by lia. rewrite order_to_size_extent in Hfit by done.
  assert (forall o, o ∈ orders -> ion_page_order pg < o -> sr < PAGE_SIZE * 2 ^ o) as Hbig.
  { intros o Hin Hlt. destruct (Z.lt_ge_cases sr (PAGE_SIZE * 2 ^ o)) as [|Hge]; [done|].
    destruct (Z.lt_ge_cases max_order o) as [|Hcap']; [by apply Hcap|].
    exfalso. apply Hno. eapply refused_after_r; [|exact A2].
    eapply (alloc_largest_available_from_largest orders); [apply orders_sorted | exact Hm | done | | done | done].
    rewrite ULONG_small by lia. by rewrite order_to_size_extent. }
  assert (0 < 2 ^ ion_page_order pg <= 256) as Hrun
    by (apply orders_cases in Ho as [-> | [-> | ->]]; lia).
  assert (0 <= ion_page_order pg) as Hpos'
    by (apply orders_cases in Ho as [-> | [-> | ->]]; lia).
  destruct (IH _ _ _ _ _ Hk) as (-> & new & -> & Hnew).
  - rewrite E. rewrite PAGE_SIZE_eq in *. lia.
  - done.
  - done.
  - intros o Hin Hlt. rewrite E. specialize (Hbig o Hin Hlt).
    rewrite PAGE_SIZE_eq in *. lia.
  - intros X. apply Hno. by eapply refused_after_l.
  - split; [done|]. exists (pg :: new). rewrite <- app_assoc. split; [done|].
    rewrite fmap_cons, Hnew, Hq. symmetry. destruct Hdiv as [q ->].
    rewrite PAGE_SIZE_eq in *. rewrite Z.div_mul in * by lia.
    apply greedy_step; [done | lia |].
    intros o Hin Hlt. specialize (Hbig o Hin Hlt).
    assert (0 < 2 ^ o) by (apply orders_cases in Hin as [-> | [-> | ->]]; lia). lia.
Qed.

Lemma allocate_all_granted buffer size align flags w r b' w' :
  0 < size <= 2 ^ 31 - PAGE_SIZE ->
  ion_system_heap_allocate buffer size align flags w = Ok ((r, b'), w') ->
  all_granted w w' = true ->
  r = 0 /\
  exists pages w1,
    packs buffer size w true pages w1 /\
    ion_page_order <$> pages = greedy (PAGE_ALIGN size / PAGE_SIZE) /\
    exists ta,
      priv_virt b'
      = Priv_table
          {| table_addr := ta;
             sgl := entries (ion_buffer_fault_user_mappings buffer) pages;
             nents := Z.of_nat
                        (length (entries (ion_buffer_fault_user_mappings buffer) pages)) |}.
Proof.
  intros Hsize H Hg. apply all_granted_not_refused in Hg.
  assert (r = 0) as ->.
  { destruct (decide (r = 0)) as [|Hr]; [done|]. exfalso. apply Hg.
    by eapply allocate_refused. }
  split; [done|].
  pose proof H as H'.
  apply allocate_in_range in H as (pages & w1 & Hpacks & Hall & Hsum & ta & Hpriv); [|done].
  exists pages, w1. split; [done|]. split; [|by exists ta].
  destruct Hpacks as [i Hloop].
  assert (0 < PAGE_ALIGN size < 2 ^ 31) as Hpad.
  { rewrite PAGE_SIZE_eq in Hsize.
    rewrite PAGE_ALIGN_pad, PAGE_SIZE_eq by (rewrite PAGE_SIZE_eq; lia).
    pose proof (Z.mul_div_le (size + 4096 - 1) 4096).
    pose proof (Z.mod_pos_bound (size + 4096 - 1) 4096).
    pose proof (Z.div_mod (size + 4096 - 1) 4096). lia. }
  apply ion_system_heap_allocate_inv in H' as (fin & pages2 & i2 & w2 & Hloop2 & Hcase).
  rewrite Hloop in Hloop2. injection Hloop2 as Ef Ep Ei Ew. subst fin pages2 i2 w2.
  destruct Hcase as [(w3 & _ & Herr) | (_ & _ & A2 & _)].
  { apply allocate_err_Ok in Herr as (Hr & _); [discriminate | done]. }
  destruct (alloc_loop_greedy _ _ _ _ _ _ _ _ _ _ _ Hloop) as (_ & new & -> & Hnew).
  - rewrite LONG_small by lia. lia.
  - apply size_remaining_pages.
  - simpl. lia.
  - intros o Ho Hlt. simpl in Hlt. apply orders_cases in Ho as [-> | [-> | ->]]; lia.
  - intros X. apply Hg. eapply refused_mono; [exact no_pages_refusal|].
    by eapply refused_after_r.
  - rewrite app_nil_l, Hnew. by rewrite LONG_small by lia.
Qed.

(** X11.  When the host and the slab allocator grant every request of the
    call, [ion_system_heap_allocate] for a size whose padding fits a [long]
    succeeds with the fewest runs of the order set: as many runs of order 8
    as fit the pages of the padded size, then runs of order 4, then single
    pages. *)
Theorem allocate_packs_fewest_runs buffer size align flags w r b' w' :
  0 < size <= 2 ^ 31 - PAGE_SIZE ->
  ion_system_heap_allocate buffer size align flags w = Ok ((r, b'), w') ->
  all_granted w w' = true ->
  r = 0 /\
  exists pages w1,
    packs buffer size w true pages w1 /\
    ion_page_order <$> pages = greedy (PAGE_ALIGN size / PAGE_SIZE) /\
    exists ta,
      priv_virt b'
      = Priv_table
          {| table_addr := ta;
             sgl := entries (ion_buffer_fault_user_mappings buffer) pages;
             nents := Z.of_nat
                        (length (entries (ion_buffer_fault_user_mappings buffer) pages)) |}.
Proof. apply allocate_all_granted. Qed.

Lemma allocate_packs_fewest_runs_witness :
  0 < 69632 <= 2 ^ 31 - PAGE_SIZE /\
  ion_system_heap_allocate buffer_68k 69632 0 0 world_fresh
    = Ok ((0, buffer_68k'), world_68k') /\
  all_granted world_fresh world_68k' = true /\
  0 = 0 /\
  exists pages w1,
    packs buffer_68k 69632 world_fresh true pages w1 /\
    ion_page_order <$> pages = greedy (PAGE_ALIGN 69632 / PAGE_SIZE) /\
    exists ta,
      priv_virt buffer_68k'
      = Priv_table
          {| table_addr := ta;
             sgl := entries (ion_buffer_fault_user_mappings buffer_68k) pages;
             nents := Z.of_nat
                        (length (entries (ion_buffer_fault_user_mappings buffer_68k)
                                   pages)) |}.
Proof.
  split; [rewrite PAGE_SIZE_eq; lia|]. split; [vm_compute; reflexivity|].
  split; [vm_compute; reflexivity|].
  apply (allocate_packs_fewest_runs buffer_68k 69632 0 0 world_fresh 0
           buffer_68k' world_68k');
    [rewrite PAGE_SIZE_eq; lia | vm_compute; reflexivity | vm_compute; reflexivity].
Defined.

(** * The life of the heap *)

Lemma kmalloc_cases size flags w :
  exists r w',
    kmalloc size flags w = Ok (r, w') /\
    pools w' = pools w /\
    trace w' = trace w ++ [Ev_kmalloc size flags (kaddr <$> r)].
Proof. unfold kmalloc. by eexists _, _. Qed.

Lemma ion_page_pool_create_cases sp gfp o w :
  exists w' a,
    ion_page_pool_create sp gfp o w
    = Ok ((fun b => {| pool_addr := b; pool_order := o; gfp_mask := gfp;
                       high_items := []; low_items := [] |}) <$> a, w') /\
    pools w' = pools w /\
    trace w' = trace w ++ [Ev_kmalloc sp GFP_KERNEL a].
Proof.
  unfold ion_page_pool_create.
  destruct (kmalloc_cases sp GFP_KERNEL w) as (r & w' & E & Hp & Ht).
  unfold bind. rewrite E. exists w', (kaddr <$> r). by destruct r.
Qed.

(** The loop that creates the pools stops at the first refusal; up to there
    every slot holds the pool of its order, in the block granted for it. *)
Lemma create_pools_cases sp os i slots w :
  exists ok w' addrs,
    create_pools sp os i slots w = Ok ((ok, fill (pools_at addrs os) i slots), w') /\
    pools w' = pools w /\
    ((ok = true /\ length addrs = length os /\ trace w' = trace w ++ grants sp addrs) \/
     (ok = false /\ (length addrs < length os)%nat /\
      trace w' = trace w ++ grants sp addrs ++ [Ev_kmalloc sp GFP_KERNEL None])).
Proof.
  revert i slots w. induction os as [|o os IH]; intros i slots w; cbn [create_pools].
  - exists true, w, []. split; [done|]. split; [done|]. left. by rewrite app_nil_r.
  - destruct (ion_page_pool_create_cases sp
                (if 0 <? o then high_order_gfp_flags else low_order_gfp_flags) o w)
      as (w1 & a & E & Hp & Ht).
    unfold bind. rewrite E. destruct a as [b|]; cbn [fmap option_fmap option_map].
    + destruct (IH (S i) (<[i := Some (pool_at b o [] [])]> slots) w1)
        as (ok & w' & addrs & E' & Hp' & Hcase).
      exists ok, w', (b :: addrs). split; [exact E'|]. split; [congruence|].
      destruct Hcase as [(-> & Hl & Et) | (-> & Hl & Et)]; [left | right];
        (split; [done|]); (split; [simpl; lia|]);
        rewrite Et, Ht, <- app_assoc; reflexivity.
    + exists false, w1, []. split; [done|]. split; [done|]. right.
      split; [done|]. split; [simpl; lia | done].
Qed.

Lemma fold_frees_trace addrs w :
  trace (fold_left (fun w a => log (Ev_kfree a) w) addrs w) = trace w ++ frees addrs /\
  pools (fold_left (fun w a => log (Ev_kfree a) w) addrs w) = pools w.
Proof. apply fold_log_trace. Qed.

(** The loop at [err_create_pool] destroys the pools made so far, which hold
    no page. *)
Lemma destroy_created_fill addrs w :
  (length addrs < length orders)%nat ->
  destroy_created (fill (pools_at addrs orders) 0 (replicate (Z.to_nat num_orders) None)) w
  = Ok (tt, fold_left (fun w a => log (Ev_kfree a) w) addrs w).
Proof.
  intros Hk. destruct addrs as [|a1 [|a2 [|a3 addrs]]]; [reflexivity .. | simpl in Hk; lia].
Qed.

Lemma filled_fill addrs :
  length addrs = length orders ->
  filled (fill (pools_at addrs orders) 0 (replicate (Z.to_nat num_orders) None))
  = Some (pools_at addrs orders).
Proof.
  intros Hk. destruct addrs as [|a1 [|a2 [|a3 [|a4 addrs]]]]; try discriminate.
  reflexivity.
Qed.

Lemma pools_at_addr addrs os :
  length addrs = length os -> pool_addr <$> pools_at addrs os = addrs.
Proof.
  revert os. induction addrs as [|a addrs IH]; intros [|o os] H; try discriminate; [done|].
  cbn. f_equal. apply IH. by injection H.
Qed.

Lemma pools_at_length addrs os :
  length addrs = length os -> length (pools_at addrs os) = length os.
Proof. intros H. unfold pools_at. rewrite length_zip_with. lia. Qed.

Lemma pools_at_residents addrs os :
  Forall (fun p => high_items p = [] /\ low_items p = []) (pools_at addrs os).
Proof.
  revert os. induction addrs as [|a addrs IH]; intros [|o os]; try constructor; [done|].
  apply IH.
Qed.

(** What [ion_system_heap_create] does: it returns the heap once five blocks
    are granted, or else, after the first refusal, frees what was granted
    and returns [-ENOMEM]. *)
Lemma ion_system_heap_create_spec sh sp w :
  exists r w' evs,
    ion_system_heap_create sh sp w = Ok (r, w') /\
    trace w' = trace w ++ evs /\
    ((exists h a addrs,
        r = Ptr {| heap := {| heap_addr := h; heap_ops := system_heap_ops;
                              heap_type := ION_HEAP_TYPE_SYSTEM;
                              heap_debug_show := true |};
                   pools_array := a |} /\
        length addrs = length orders /\
        pools w' = pools_at addrs orders /\
        evs = [Ev_kmalloc sh (Z.lor GFP_KERNEL __GFP_ZERO) (Some h);
               Ev_kmalloc (ULONG (sizeof_pointer * num_orders))
                 (Z.lor GFP_KERNEL __GFP_ZERO) (Some a)] ++ grants sp addrs) \/
     (r = ERR_PTR (- ENOMEM) /\ pools w' = pools w /\
      exists g e,
        Forall is_grant g /\ refusal e /\ granted_block e = [] /\
        evs = g ++ [e] ++ frees (unwinding (g ≫= granted_block)))).
Proof.
  unfold ion_system_heap_create, kzalloc.
  destruct (kmalloc_cases sh (Z.lor GFP_KERNEL __GFP_ZERO) w) as (h & w1 & E1 & P1 & T1).
  unfold bind at 1. rewrite E1. destruct h as [h|]; cbn [fmap option_fmap option_map] in T1.
  2:{ eexists _, w1, _. split; [reflexivity|]. split; [exact T1|]. right.
      split; [done|]. split; [done|].
      exists [], (Ev_kmalloc sh (Z.lor GFP_KERNEL __GFP_ZERO) None). by repeat split. }
  destruct (kmalloc_cases (ULONG (sizeof_pointer * num_orders))
              (Z.lor GFP_KERNEL __GFP_ZERO) w1) as (p & w2 & E2 & P2 & T2).
  unfold bind at 1. rewrite E2. destruct p as [p|]; cbn [fmap option_fmap option_map] in T2.
  2:{ eexists _, _, _. split; [reflexivity|]. cbn [log trace pools].
      split; [by rewrite T2, T1, <- !app_assoc|]. right.
      split; [done|]. split; [congruence|].
      exists [Ev_kmalloc sh (Z.lor GFP_KERNEL __GFP_ZERO) (Some (kaddr h))],
             (Ev_kmalloc (ULONG (sizeof_pointer * num_orders))
                (Z.lor GFP_KERNEL __GFP_ZERO) None).
      split; [by repeat constructor|]. by repeat split. }
  destruct (create_pools_cases sp orders 0 (replicate (Z.to_nat num_orders) None) w2)
    as (ok & w3 & addrs & E3 & P3 & Hcase).
  unfold bind at 1. rewrite E3.
  assert (grants sp addrs ≫= granted_block = addrs) as Hgb.
  { clear. induction addrs as [|a addrs IH]; [done|]. cbn. by f_equal. }
  assert (Forall is_grant (grants sp addrs)) as Hga.
  { apply Forall_fmap, Forall_forall. by intros. }
  destruct Hcase as [(-> & Hl & T3) | (-> & Hl & T3)].
  - unfold bind at 1. rewrite filled_fill by done. cbn [deref].
    eexists _, _, _. split; [reflexivity|]. cbn [set_pools trace pools].
    split; [by rewrite T3, T2, T1, <- !app_assoc|]. left. by eexists _, _, addrs.
  - unfold bind at 1. rewrite destroy_created_fill by done.
    eexists _, _, _. split; [reflexivity|]. cbn [log trace pools].
    destruct (fold_frees_trace addrs w3) as [-> ->].
    split; [by rewrite T3, T2, T1, <- !app_assoc|]. right.
    split; [done|]. split; [congruence|].
    exists ([Ev_kmalloc sh (Z.lor GFP_KERNEL __GFP_ZERO) (Some (kaddr h));
             Ev_kmalloc (ULONG (sizeof_pointer * num_orders))
               (Z.lor GFP_KERNEL __GFP_ZERO) (Some (kaddr p))] ++ grants sp addrs),
           (Ev_kmalloc sp GFP_KERNEL None).
    split; [by repeat constructor|]. split; [done|]. split; [done|].
    rewrite bind_app, Hgb.
    change (([Ev_kmalloc sh (Z.lor GFP_KERNEL __GFP_ZERO) (Some (kaddr h));
              Ev_kmalloc (ULONG (sizeof_pointer * num_orders))
                (Z.lor GFP_KERNEL __GFP_ZERO) (Some (kaddr p))] ≫= granted_block) ++ addrs)
      with (kaddr h :: kaddr p :: addrs).
    change (unwinding (kaddr h :: kaddr p :: addrs)) with (addrs ++ [kaddr p; kaddr h]).
    unfold frees. by rewrite fmap_app, <- !app_assoc.
Qed.

Lemma grants_granted g : Forall is_grant g -> forallb (fun e => negb (refusalb e)) g = true.
Proof.
  induction 1 as [|e g He _ IH]; [done|]. cbn [forallb]. rewrite IH.
  by destruct e as [| | | | | | | |? ? [?|]| | |].
Qed.

Lemma blocks_held_after w w' evs :
  trace w' = trace w ++ evs -> blocks_held w w' = sum_Z (block_delta <$> evs).
Proof. intros E. unfold blocks_held. by rewrite (calls_after w w' evs E). Qed.

(** Grants free nothing, and calls of [kfree] free what they are handed. *)
Lemma grants_freed g : Forall is_grant g -> g ≫= freed_block = [].
Proof.
  induction 1 as [|e g He _ IH]; [done|]. rewrite bind_cons, IH.
  by destruct e as [| | | | | | | |? ? [?|]| | |].
Qed.

Lemma frees_freed addrs :
  frees addrs ≫= freed_block = addrs /\ frees addrs ≫= granted_block = [].
Proof. induction addrs as [|a addrs [IH1 IH2]]; [done|]. cbn. split; by f_equal. Qed.

Lemma refusal_freed e : refusal e -> freed_block e = [].
Proof. by destruct e as [? ? [?|]| | | | | | | |? ? [?|]| |? ? [|]|]. Qed.

Lemma unwinding_perm g : unwinding g ≡ₚ g.
Proof.
  unfold unwinding. rewrite reverse_Permutation, (comm app).
  by rewrite take_drop.
Qed.

(** The slab account as a count: blocks granted less blocks freed. *)
Lemma blocks_held_count evs :
  sum_Z (block_delta <$> evs)
  = Z.of_nat (length (evs ≫= granted_block)) - Z.of_nat (length (evs ≫= freed_block)).
Proof.
  induction evs as [|e evs IH]; [done|].
  rewrite fmap_cons, sum_Z_cons, !bind_cons, !length_app, IH.
  destruct e as [| | | | | | | |? ? [?|]| | |]; cbn [block_delta granted_block freed_block length]; lia.
Qed.

(** X12.  [ion_system_heap_create] returns in every world, with the heap or
    with [ERR_PTR(-ENOMEM)].  It returns the heap exactly when the slab
    allocator grants every block it asks for: the heap then has the
    operations and the type of the system heap and its debug dump, and the
    pool array holds one empty pool per order of the order set, in the order
    of the set, each with the flags of its order and in a block of its own;
    the blocks granted are the heap object, the pool array and the pools.
    Otherwise a request was refused and the pool array in place is
    untouched. *)
Theorem ion_system_heap_create_outcome sh sp w :
  exists r w',
    ion_system_heap_create sh sp w = Ok (r, w') /\
    ((exists hp addrs,
        r = Ptr hp /\ heap_ops (heap hp) = system_heap_ops /\
        heap_type (heap hp) = ION_HEAP_TYPE_SYSTEM /\
        heap_debug_show (heap hp) = true /\
        length addrs = length orders /\
        pools w' = pools_at addrs orders /\ heap_ok w' /\
        all_granted w w' = true /\
        blocks_granted w w' = heap_addr (heap hp) :: pools_array hp :: addrs) \/
     (r = ERR_PTR (- ENOMEM) /\ pools w' = pools w /\ refused refusal w w')).
Proof.
  destruct (ion_system_heap_create_spec sh sp w)
    as (r & w' & evs & E & Et
        & [(h & a & addrs & -> & Hl & Hp & ->)
          | (-> & Hp & g & e & Hg & He & _ & ->)]).
  - eexists (Ptr _), w'. split; [done|]. left. eexists _, addrs. split; [done|].
    split; [done|]. split; [done|]. split; [done|]. split; [done|]. split; [done|].
    split.
    { unfold heap_ok. rewrite Hp. by apply pools_at_length. }
    unfold all_granted, blocks_granted. rewrite (calls_after w w' _ Et). split.
    + apply grants_granted. repeat constructor. apply Forall_fmap, Forall_forall.
      by intros.
    + cbn. f_equal. f_equal. clear. induction addrs as [|b addrs IH]; [done|].
      cbn. by f_equal.
  - exists (ERR_PTR (- ENOMEM)), w'. split; [done|]. right. split; [done|]. split; [done|].
    eexists. split; [exact Et|]. apply Exists_app. right. by constructor.
Qed.

(** X13.  [ion_system_heap_create] leaks no block.  When it fails, the
    blocks it hands to [kfree] are the blocks that [kmalloc] granted during
    the call, each once: the pools made so far in the order they were made,
    then the pool array, then the heap object.  When it succeeds it frees
    nothing, and the blocks granted are the heap object it returns, the pool
    array of that heap and the pools of the array. *)
Theorem ion_system_heap_create_blocks sh sp w r w' :
  ion_system_heap_create sh sp w = Ok (r, w') ->
  match r with
  | Ptr hp =>
      blocks_granted w w'
      = heap_addr (heap hp) :: pools_array hp :: (pool_addr <$> pools w') /\
      length (pools w') = length orders /\
      blocks_freed w w' = []
  | ERR_PTR _ =>
      blocks_freed w w' = unwinding (blocks_granted w w') /\
      blocks_freed w w' ≡ₚ blocks_granted w w'
  end.
Proof.
  intros H.
  destruct (ion_system_heap_create_spec sh sp w)
    as (r0 & w0 & evs & E & Et
        & [(h & a & addrs & -> & Hl & Hp & ->)
          | (-> & Hp & g & e & Hg & He & Hge & ->)]);
    rewrite E in H; injection H as <- <-;
    unfold blocks_granted, blocks_freed; rewrite (calls_after _ _ _ Et).
  - cbn [heap heap_addr pools_array]. rewrite Hp, pools_at_addr by done.
    split; [|split].
    + cbn. f_equal. f_equal. clear. induction addrs as [|b addrs IH]; [done|].
      cbn. by f_equal.
    + by apply pools_at_length.
    + apply grants_freed. repeat constructor. apply Forall_fmap, Forall_forall.
      by intros.
  - destruct (frees_freed (unwinding (g ≫= granted_block))) as [Ef Eg].
    assert ((g ++ [e] ++ frees (unwinding (g ≫= granted_block))) ≫= granted_block
            = g ≫= granted_block) as ->.
    { rewrite !bind_app, Eg. cbn. by rewrite Hge, !app_nil_r. }
    assert ((g ++ [e] ++ frees (unwinding (g ≫= granted_block))) ≫= freed_block
            = unwinding (g ≫= granted_block)) as ->.
    { rewrite !bind_app, Ef, grants_freed by done. cbn.
      by rewrite refusal_freed by done. }
    split; [done | apply unwinding_perm].
Qed.

Lemma ion_system_heap_create_blocks_witness :
  ion_system_heap_create 64 48 world_boot_short
    = Ok (ERR_PTR (- ENOMEM), world_boot_short') /\
  blocks_freed world_boot_short world_boot_short'
  = unwinding (blocks_granted world_boot_short world_boot_short') /\
  blocks_freed world_boot_short world_boot_short'
  ≡ₚ blocks_granted world_boot_short world_boot_short'.
Proof.
  split; [vm_compute; reflexivity|].
  apply (ion_system_heap_create_blocks 64 48 world_boot_short (ERR_PTR (- ENOMEM))
           world_boot_short').
  vm_compute; reflexivity.
Defined.

(** ** Teardown *)

Lemma ion_page_pool_destroy_Ok pool w :
  exists w',
    ion_page_pool_destroy pool w = Ok (tt, w') /\
    pools w' = pools w /\
    trace w' = trace w ++ destroy_events pool.
Proof.
  unfold ion_page_pool_destroy, __free_pages, bind.
  rewrite (for_each_emit _ (fun pg => Ev___free_pages pg (pool_order pool))).
  eexists. split; [reflexivity|]. cbn [log pools trace].
  destruct (fold_log_trace (high_items pool ++ low_items pool)
              (fun pg => Ev___free_pages pg (pool_order pool)) w) as [-> ->].
  split; [done|]. unfold destroy_events. by rewrite <- app_assoc.
Qed.

Lemma destroy_loop n i w :
  (i + n <= length (pools w))%nat ->
  exists w',
    for_each (seq i n) (fun i => let* pool := get_pool i in ion_page_pool_destroy pool) w
    = Ok (tt, w') /\
    pools w' = pools w /\
    trace w' = trace w ++ (take n (drop i (pools w)) ≫= destroy_events).
Proof.
  revert i w. induction n as [|n IH]; intros i w Hn; cbn [seq for_each].
  - exists w. split; [done|]. split; [done|]. by rewrite take_0, app_nil_r.
  - destruct (lookup_lt_is_Some_2 (pools w) i) as [p Hp]; [lia|].
    destruct (ion_page_pool_destroy_Ok p w) as (w1 & E1 & P1 & T1).
    destruct (IH (S i) w1) as (w2 & E2 & P2 & T2); [rewrite P1; lia|].
    exists w2. unfold bind at 1. unfold bind at 1. unfold get_pool at 1. rewrite Hp, E1.
    split; [exact E2|]. split; [congruence|].
    rewrite T2, T1, P1, (drop_S _ _ _ Hp). cbn [take]. by rewrite bind_cons, <- app_assoc.
Qed.

Lemma released_destroy_events pool : destroy_events pool ≫= released = residents pool.
Proof.
  unfold destroy_events, residents. rewrite bind_app. cbn. rewrite app_nil_r.
  induction (high_items pool ++ low_items pool) as [|pg l IH]; [done|].
  rewrite fmap_cons, !bind_cons, IH. reflexivity.
Qed.

Lemma released_empty_pools (l : list ion_page_pool) :
  Forall (fun p => high_items p = [] /\ low_items p = []) l ->
  (l ≫= destroy_events) ≫= released = [].
Proof.
  induction 1 as [|p ps [Hh Hlo] _ IH]; [done|].
  rewrite !bind_cons, bind_app, IH, released_destroy_events.
  unfold residents. by rewrite Hh, Hlo.
Qed.

Lemma blocks_destroy_events pool :
  destroy_events pool ≫= freed_block = [pool_addr pool] /\
  destroy_events pool ≫= granted_block = [].
Proof.
  unfold destroy_events. rewrite !bind_app. cbn.
  induction (high_items pool ++ low_items pool) as [|pg l [IH1 IH2]]; [done|].
  by rewrite !fmap_cons, !bind_cons.
Qed.

Lemma blocks_destroy_pools (l : list ion_page_pool) :
  (l ≫= destroy_events) ≫= freed_block = pool_addr <$> l /\
  (l ≫= destroy_events) ≫= granted_block = [].
Proof.
  induction l as [|p ps [IH1 IH2]]; [done|].
  destruct (blocks_destroy_events p) as [E1 E2].
  by rewrite !bind_cons, !bind_app, IH1, IH2, E1, E2.
Qed.

(** What [ion_system_heap_destroy] does in a heap with its pools. *)
Lemma ion_system_heap_destroy_spec sys_heap w :
  heap_ok w ->
  exists w',
    ion_system_heap_destroy sys_heap w = Ok (tt, w') /\
    pools w' = [] /\
    trace w' = trace w ++ (pools w ≫= destroy_events)
               ++ [Ev_kfree (pools_array sys_heap); Ev_kfree (heap_addr (heap sys_heap))].
Proof.
  intros Hw. unfold ion_system_heap_destroy.
  destruct (destroy_loop (Z.to_nat num_orders) 0 w) as (w1 & E & P & T);
    [rewrite Hw; reflexivity|].
  unfold bind at 1. rewrite E. eexists. split; [reflexivity|]. cbn [set_pools log pools trace].
  split; [done|]. rewrite T, drop_0, <- !app_assoc. do 2 f_equal.
  rewrite take_ge; [done|]. rewrite Hw. reflexivity.
Qed.

(** X14.  In a heap with its pools [ion_system_heap_destroy] returns: every
    pool of the array is destroyed once, in array order, so every page
    resident in a pool goes back to the host exactly once; then the pool
    array and the heap object are freed, one block per pool and two more:
    the blocks handed to [kfree] are the pools of the array, in array order,
    the array and the heap object.  No pool is left. *)
Theorem ion_system_heap_destroy_releases_residents sys_heap w :
  heap_ok w ->
  exists w',
    ion_system_heap_destroy sys_heap w = Ok (tt, w') /\
    pools w' = [] /\
    calls w w' ≫= released = pools w ≫= residents /\
    blocks_held w w' = - (2 + num_orders) /\
    blocks_freed w w'
    = (pool_addr <$> pools w) ++ [pools_array sys_heap; heap_addr (heap sys_heap)].
Proof.
  intros Hw. destruct (ion_system_heap_destroy_spec sys_heap w Hw) as (w' & E & P & T).
  exists w'. split; [done|]. split; [done|].
  destruct (blocks_destroy_pools (pools w)) as [Ef Eg].
  unfold blocks_freed.
  rewrite (blocks_held_after _ _ _ T), (calls_after _ _ _ T). split; [|split].
  - rewrite bind_app. cbn. rewrite app_nil_r.
    generalize (pools w). intros l. induction l as [|p ps IH]; [done|].
    by rewrite !bind_cons, bind_app, IH, released_destroy_events.
  - rewrite blocks_held_count, !bind_app, Ef, Eg. cbn.
    rewrite length_app, length_fmap, Hw. reflexivity.
  - rewrite bind_app, Ef. reflexivity.
Qed.

Lemma ion_system_heap_destroy_releases_residents_witness :
  heap_ok world_stocked /\
  exists w',
    ion_system_heap_destroy heap_stocked world_stocked = Ok (tt, w') /\
    pools w' = [] /\
    calls world_stocked w' ≫= released = pools world_stocked ≫= residents /\
    blocks_held world_stocked w' = - (2 + num_orders) /\
    blocks_freed world_stocked w'
    = (pool_addr <$> pools world_stocked)
      ++ [pools_array heap_stocked; heap_addr (heap heap_stocked)].
Proof.
  split; [reflexivity|].
  apply (ion_system_heap_destroy_releases_residents heap_stocked world_stocked).
  reflexivity.
Defined.

(** X15.  A heap that [ion_system_heap_create] returned can be torn down:
    [ion_system_heap_destroy] on that heap returns, asks for no block, and
    the blocks it hands to [kfree] are the blocks that [kmalloc] granted to
    the creation, each once: the pools, the pool array and the heap object.
    No page goes to the host, the pools being empty. *)
Theorem create_then_destroy_balanced sh sp w hp w' :
  ion_system_heap_create sh sp w = Ok (Ptr hp, w') ->
  exists w'',
    ion_system_heap_destroy hp w' = Ok (tt, w'') /\
    blocks_freed w' w'' = unwinding (blocks_granted w w') /\
    blocks_freed w' w'' ≡ₚ blocks_granted w w' /\
    blocks_granted w' w'' = [] /\
    blocks_freed w w' = [] /\
    calls w' w'' ≫= released = [].
Proof.
  intros H.
  destruct (ion_system_heap_create_spec sh sp w)
    as (r0 & w0 & evs & E & Et
        & [(h & a & addrs & -> & Hl & Hp & ->) | (-> & _)]);
    rewrite E in H; [|discriminate]. injection H as <- <-.
  assert (heap_ok w0) as Hw.
  { unfold heap_ok. rewrite Hp. by apply pools_at_length. }
  destruct (ion_system_heap_destroy_spec
              {| heap := {| heap_addr := h; heap_ops := system_heap_ops;
                            heap_type := ION_HEAP_TYPE_SYSTEM;
                            heap_debug_show := true |};
                 pools_array := a |} w0 Hw) as (w'' & E' & P & T).
  cbn [heap heap_addr pools_array] in T.
  exists w''. split; [done|].
  destruct (blocks_destroy_pools (pools w0)) as [Ef Eg].
  unfold blocks_freed, blocks_granted.
  rewrite (calls_after _ _ _ Et), (calls_after _ _ _ T).
  assert (grants sp addrs ≫= granted_block = addrs) as Hgb.
  { clear. induction addrs as [|b addrs IH]; [done|]. cbn. by f_equal. }
  assert (([Ev_kmalloc sh (Z.lor GFP_KERNEL __GFP_ZERO) (Some h);
            Ev_kmalloc (ULONG (sizeof_pointer * num_orders))
              (Z.lor GFP_KERNEL __GFP_ZERO) (Some a)] ++ grants sp addrs)
          ≫= granted_block = h :: a :: addrs) as ->.
  { rewrite bind_app, Hgb. reflexivity. }
  assert (((pools w0 ≫= destroy_events) ++ [Ev_kfree a; Ev_kfree h]) ≫= freed_block
          = unwinding (h :: a :: addrs)) as ->.
  { rewrite bind_app, Ef, Hp, pools_at_addr by done. reflexivity. }
  split; [done|]. split; [apply unwinding_perm|]. split; [|split].
  - rewrite bind_app, Eg. reflexivity.
  - apply grants_freed. repeat constructor. apply Forall_fmap, Forall_forall.
    by intros.
  - rewrite bind_app. cbn. rewrite app_nil_r, Hp.
    apply released_empty_pools, pools_at_residents.
Qed.

Lemma create_then_destroy_balanced_witness :
  ion_system_heap_create 64 48 world_boot = Ok (Ptr heap_boot, world_boot') /\
  exists w'',
    ion_system_heap_destroy heap_boot world_boot' = Ok (tt, w'') /\
    blocks_freed world_boot' w'' = unwinding (blocks_granted world_boot world_boot') /\
    blocks_freed world_boot' w'' ≡ₚ blocks_granted world_boot world_boot' /\
    blocks_granted world_boot' w'' = [] /\
    blocks_freed world_boot world_boot' = [] /\
    calls world_boot' w'' ≫= released = [].
Proof.
  split; [vm_compute; reflexivity|].
  apply (create_then_destroy_balanced 64 48 world_boot heap_boot world_boot').
  vm_compute; reflexivity.
Defined.

(** * The debug dump *)

Lemma debug_show_from_spec n i s w :
  (i + n <= length (pools w))%nat ->
  debug_show_from (seq i n) s w
  = Ok (foldl (fun s p => debug_show_pool p s) s (take n (drop i (pools w))), w).
Proof.
  revert i s. induction n as [|n IH]; intros i s Hn; cbn [seq debug_show_from].
  - by rewrite take_0.
  - destruct (lookup_lt_is_Some_2 (pools w) i) as [p Hp]; [lia|].
    unfold bind, get_pool. rewrite Hp, IH by lia.
    by rewrite (drop_S _ _ _ Hp).
Qed.

Lemma debug_show_lines (l : list ion_page_pool) s :
  foldl (fun s p => debug_show_pool p s) s l
  = s ++ (l ≫= fun p => debug_show_pool p []).
Proof.
  revert s. induction l as [|p l IH]; intros s; cbn [foldl]; [by rewrite app_nil_r|].
  rewrite IH, bind_cons. unfold debug_show_pool, seq_printf.
  by rewrite <- !app_assoc.
Qed.

(** X16.  [ion_system_heap_debug_show] only reads: in a heap with its pools
    it returns 0 and leaves the world as it was, with no call to the host,
    to the slab allocator or into a pool; what the file held is kept, and two
    lines are added per pool of the array, in array order, the line of the
    high-memory stack before that of the low-memory stack. *)
Theorem ion_system_heap_debug_show_reads_only s w :
  heap_ok w ->
  exists lines,
    ion_system_heap_debug_show s w = Ok ((0, s ++ lines), w) /\
    lines = (pools w ≫= fun p => debug_show_pool p []) /\
    Z.of_nat (length lines) = 2 * num_orders /\
    fst <$> lines = orders ≫= (fun _ => [Format.highmem; Format.lowmem]).
Proof.
  intros Hw. eexists. split; [|split; [reflexivity|]].
  - unfold ion_system_heap_debug_show, bind.
    rewrite debug_show_from_spec by (rewrite Hw; reflexivity).
    rewrite drop_0, take_ge by (rewrite Hw; reflexivity).
    by rewrite debug_show_lines.
  - unfold heap_ok in Hw. destruct (pools w) as [|p0 [|p1 [|p2 [|p3 l]]]]; try done.
Qed.

Lemma ion_system_heap_debug_show_reads_only_witness :
  heap_ok world_stocked /\
  exists lines,
    ion_system_heap_debug_show [] world_stocked = Ok ((0, [] ++ lines), world_stocked) /\
    lines = (pools world_stocked ≫= fun p => debug_show_pool p []) /\
    Z.of_nat (length lines) = 2 * num_orders /\
    fst <$> lines = orders ≫= (fun _ => [Format.highmem; Format.lowmem]).
Proof.
  split; [reflexivity|].
  apply (ion_system_heap_debug_show_reads_only [] world_stocked). reflexivity.
Defined.

(** X17.  The byte total of a line of the dump is computed on
    [unsigned long]: for a pool of an order of the order set it is the bytes
    resident, [count] runs of [PAGE_SIZE << order] bytes, modulo [2 ^ 32], and
    so the bytes themselves as long as they are less than 4 GiB. *)
Theorem debug_total_modulo o n :
  o ∈ orders ->
  debug_total o n = (PAGE_SIZE * 2 ^ o * n) mod 2 ^ 32 /\
  (0 <= PAGE_SIZE * 2 ^ o * n < 2 ^ 32 -> debug_total o n = PAGE_SIZE * 2 ^ o * n).
Proof.
  intros Ho.
  assert (debug_total o n = (PAGE_SIZE * 2 ^ o * n) mod 2 ^ 32) as E.
  { unfold debug_total. rewrite run_extent by done. unfold ULONG, BITS_PER_LONG. done. }
  split; [done|]. intros Hr. rewrite E. by apply Z.mod_small.
Qed.

Lemma debug_total_modulo_witness :
  8 ∈ orders /\
  debug_total 8 5000 = (PAGE_SIZE * 2 ^ 8 * 5000) mod 2 ^ 32 /\
  (0 <= PAGE_SIZE * 2 ^ 8 * 5000 < 2 ^ 32 ->
   debug_total 8 5000 = PAGE_SIZE * 2 ^ 8 * 5000).
Proof.
  assert (8 ∈ orders) as H8 by (unfold orders; rewrite !elem_of_cons; tauto).
  split; [exact H8|]. apply (debug_total_modulo 8 5000 H8).
Defined.
(** * The contiguous heap *)

Lemma tables_held_after w w' evs :
  trace w' = trace w ++ evs -> tables_held w w' = sum_Z (table_delta <$> evs).
Proof. intros E. unfold tables_held. by rewrite (calls_after w w' evs E). Qed.

Lemma sg_alloc_table_cases table n gfp w :
  exists r w',
    sg_alloc_table table n gfp w = Ok (r, w') /\ pools w' = pools w /\
    ((r = None /\ trace w' = trace w ++ [Ev_sg_alloc_table table n false]) \/
     (r = Some {| table_addr := table; sgl := replicate (Z.to_nat n) sg_zero;
                  nents := n |} /\
      trace w' = trace w ++ [Ev_sg_alloc_table table n true])).
Proof.
  unfold sg_alloc_table. eexists _, _. split; [reflexivity|]. split; [reflexivity|].
  cbn [log trace]. destruct (host_slab w) as [|[?|] ?]; auto.
Qed.

(** What [ion_system_contig_heap_map_dma] does. *)
Lemma ion_system_contig_heap_map_dma_spec v2p buffer w :
  exists r w' evs,
    ion_system_contig_heap_map_dma v2p buffer w = Ok (r, w') /\
    pools w' = pools w /\
    trace w' = trace w ++ evs /\
    ((exists a,
        r = Ptr {| table_addr := a;
                   sgl := [{| sg_page := Some (v2p (priv_addr (priv_virt buffer)));
                              sg_length := ULONG (buf_size buffer);
                              sg_offset := 0 |}];
                   nents := 1 |} /\
        evs = [Ev_kmalloc sizeof_sg_table (Z.lor GFP_KERNEL __GFP_ZERO) (Some a);
               Ev_sg_alloc_table a 1 true]) \/
     (r = ERR_PTR (- ENOMEM) /\
      (evs = [Ev_kmalloc sizeof_sg_table (Z.lor GFP_KERNEL __GFP_ZERO) None] \/
       exists a, evs = [Ev_kmalloc sizeof_sg_table (Z.lor GFP_KERNEL __GFP_ZERO) (Some a);
                        Ev_sg_alloc_table a 1 false; Ev_kfree a]))).
Proof.
  unfold ion_system_contig_heap_map_dma, kzalloc.
  destruct (kmalloc_cases sizeof_sg_table (Z.lor GFP_KERNEL __GFP_ZERO) w)
    as (h & w1 & E1 & P1 & T1).
  unfold bind at 1. rewrite E1. destruct h as [h|]; cbn [fmap option_fmap option_map] in T1.
  2:{ eexists _, _, _. split; [reflexivity|]. split; [done|]. split; [exact T1|].
      right. split; [done|]. by left. }
  destruct (sg_alloc_table_cases (kaddr h) 1 GFP_KERNEL w1)
    as (t & w2 & E2 & P2 & [[-> T2] | [-> T2]]);
    unfold bind at 1; rewrite E2.
  - eexists _, _, _. split; [reflexivity|]. cbn [log trace pools].
    split; [congruence|].
    split; [by rewrite T2, T1, <- !app_assoc|]. right. split; [done|]. right. by eexists.
  - eexists _, _, _. split; [reflexivity|]. split; [congruence|].
    split; [by rewrite T2, T1, <- !app_assoc|]. left. by eexists.
Qed.

(** X18.  [ion_system_contig_heap_map_dma] on a buffer that holds a block
    returns the table or [ERR_PTR(-ENOMEM)].  The table has one entry: the
    page of the block, the size of the buffer as its length (not padded to
    pages), no offset; its header is the block that [kmalloc] granted, the
    entry array was made for that header, and both are then held.  When it
    fails nothing is held: the header is freed again if the entry array was
    refused. *)
Theorem contig_map_dma_outcome v2p buffer m w :
  priv_virt buffer = Priv_mem m ->
  exists r w',
    ion_system_contig_heap_map_dma v2p buffer w = Ok (r, w') /\
    ((exists t, r = Ptr t /\
        sgl t = [{| sg_page := Some (v2p (kaddr m));
                    sg_length := ULONG (buf_size buffer); sg_offset := 0 |}] /\
        nents t = 1 /\ sg_bytes t = ULONG (buf_size buffer) /\
        blocks_held w w' = 1 /\ tables_held w w' = 1 /\
        blocks_granted w w' = [table_addr t] /\ tables_made w w' = [table_addr t]) \/
     (r = ERR_PTR (- ENOMEM) /\ refused refusal w w' /\
      blocks_held w w' = 0 /\ tables_held w w' = 0 /\
      blocks_freed w w' = blocks_granted w w' /\ tables_made w w' = [])).
Proof.
  intros Hm.
  destruct (ion_system_contig_heap_map_dma_spec v2p buffer w)
    as (r & w' & evs & E & _ & T & [[a [-> ->]] | [-> [-> | [a ->]]]]);
    eexists _, w'; (split; [exact E|]);
    unfold blocks_granted, blocks_freed, tables_made;
    rewrite (blocks_held_after _ _ _ T), (tables_held_after _ _ _ T), (calls_after _ _ _ T).
  - left. eexists. split; [reflexivity|]. cbn [sgl nents table_addr]. rewrite Hm.
    split; [done|]. split; [done|]. split; [|done].
    unfold sg_bytes. cbn [sgl fmap list_fmap sg_length]. rewrite sum_Z_cons.
    cbn [sum_Z foldr]. lia.
  - right. split; [done|]. split; [|done]. eexists. split; [exact T|]. by repeat constructor.
  - right. split; [done|]. split; [|done]. eexists. split; [exact T|].
    apply Exists_cons_tl. by constructor.
Qed.

Lemma contig_map_dma_outcome_witness :
  priv_virt buffer_contig1 = Priv_mem {| kaddr := 0xC0002000; kbytes := replicate 8 0 |} /\
  exists r w',
    ion_system_contig_heap_map_dma page_of buffer_contig1 world_contig1 = Ok (r, w') /\
    ((exists t, r = Ptr t /\
        sgl t = [{| sg_page := Some (page_of (kaddr {| kaddr := 0xC0002000;
                                                       kbytes := replicate 8 0 |}));
                    sg_length := ULONG (buf_size buffer_contig1); sg_offset := 0 |}] /\
        nents t = 1 /\ sg_bytes t = ULONG (buf_size buffer_contig1) /\
        blocks_held world_contig1 w' = 1 /\ tables_held world_contig1 w' = 1 /\
        blocks_granted world_contig1 w' = [table_addr t] /\
        tables_made world_contig1 w' = [table_addr t]) \/
     (r = ERR_PTR (- ENOMEM) /\ refused refusal world_contig1 w' /\
      blocks_held world_contig1 w' = 0 /\ tables_held world_contig1 w' = 0 /\
      blocks_freed world_contig1 w' = blocks_granted world_contig1 w' /\
      tables_made world_contig1 w' = [])).
Proof.
  split; [reflexivity|].
  apply (contig_map_dma_outcome page_of buffer_contig1
           {| kaddr := 0xC0002000; kbytes := replicate 8 0 |} world_contig1).
  reflexivity.
Defined.

Lemma contig_allocate_spec buffer len align flags w b' w' :
  ion_system_contig_heap_allocate buffer len align flags w = Ok ((0, b'), w') ->
  exists m,
    b' = set_priv_virt buffer (Priv_mem m) /\
    length (kbytes m) = Z.to_nat len /\
    Forall (fun byte => byte = 0) (kbytes m) /\
    pools w' = pools w /\
    trace w' = trace w ++ [Ev_kmalloc len (Z.lor GFP_KERNEL __GFP_ZERO) (Some (kaddr m))].
Proof.
  unfold ion_system_contig_heap_allocate, kzalloc, bind.
  destruct (kmalloc_cases len (Z.lor GFP_KERNEL __GFP_ZERO) w) as (r & w1 & E & P & T).
  rewrite E. intros H. destruct r as [m|]; [|discriminate]. injection H as <- <-.
  exists m. split; [done|].
  assert (kbytes m = replicate (Z.to_nat len) 0) as ->.
  { unfold kmalloc in E. destruct (host_slab w) as [|[[a stale]|] ?]; try discriminate.
    by injection E as <- _. }
  split; [apply length_replicate|]. split; [|by split].
  apply Forall_replicate. reflexivity.
Qed.

(** X19.  The life of a buffer of the contiguous heap: after
    [ion_system_contig_heap_allocate] and [ion_system_contig_heap_map_dma]
    have succeeded, [ion_system_contig_heap_unmap_dma] and
    [ion_system_contig_heap_free] on the buffer with the table return.  Over
    the four calls two blocks are granted, the memory of the buffer and the
    header of the table, and one entry array is made, for that header; the
    blocks handed to [kfree] are these two, the header first, and the entry
    array handed to [sg_free_table] is that of the header.  Neither the
    pools nor the host page allocator are called. *)
Theorem contig_life_balanced v2p buffer len align flags w b1 w1 t w2 :
  ion_system_contig_heap_allocate buffer len align flags w = Ok ((0, b1), w1) ->
  ion_system_contig_heap_map_dma v2p b1 w1 = Ok (Ptr t, w2) ->
  exists w3 w4,
    ion_system_contig_heap_unmap_dma (with_sg_table b1 t) w2 = Ok (tt, w3) /\
    ion_system_contig_heap_free (with_sg_table b1 t) w3 = Ok (tt, w4) /\
    blocks_granted w w4 = [priv_addr (priv_virt b1); table_addr t] /\
    blocks_freed w w4 = [table_addr t; priv_addr (priv_virt b1)] /\
    tables_made w w4 = [table_addr t] /\
    tables_freed w w4 = [table_addr t] /\
    Forall slab_event (calls w w4) /\ pools w4 = pools w.
Proof.
  intros Ha Hmap. apply contig_allocate_spec in Ha as (m & -> & _ & _ & P1 & T1).
  destruct (ion_system_contig_heap_map_dma_spec v2p (set_priv_virt buffer (Priv_mem m)) w1)
    as (r & w2' & evs & E & P2 & T2 & Hcase).
  rewrite Hmap in E. injection E as <- <-.
  destruct Hcase as [[a [Et ->]] | [? _]]; [|discriminate]. injection Et as ->.
  eexists _, _. split; [reflexivity|]. split; [reflexivity|].
  cbn [log trace pools with_sg_table set_priv_virt priv_virt priv_addr table_addr].
  assert (trace (log (Ev_kfree (kaddr m))
                   (log (Ev_kfree a) (log (Ev_sg_free_table a) w2)))
          = trace w ++ [Ev_kmalloc len (Z.lor GFP_KERNEL __GFP_ZERO) (Some (kaddr m));
                        Ev_kmalloc sizeof_sg_table (Z.lor GFP_KERNEL __GFP_ZERO) (Some a);
                        Ev_sg_alloc_table a 1 true; Ev_sg_free_table a; Ev_kfree a;
                        Ev_kfree (kaddr m)]) as T
    by (cbn [log trace]; by rewrite T2, T1, <- !app_assoc).
  unfold blocks_granted, blocks_freed, tables_made, tables_freed.
  rewrite (calls_after _ _ _ T).
  split; [reflexivity|]. split; [reflexivity|]. split; [reflexivity|].
  split; [reflexivity|]. split; [by repeat constructor|].
  congruence.
Qed.

Lemma contig_life_balanced_witness :
  ion_system_contig_heap_allocate buffer_contig 8 0 0 world_contig
    = Ok ((0, buffer_contig1), world_contig1) /\
  ion_system_contig_heap_map_dma page_of buffer_contig1 world_contig1
    = Ok (Ptr table_contig, world_contig2) /\
  exists w3 w4,
    ion_system_contig_heap_unmap_dma (with_sg_table buffer_contig1 table_contig) world_contig2
      = Ok (tt, w3) /\
    ion_system_contig_heap_free (with_sg_table buffer_contig1 table_contig) w3 = Ok (tt, w4) /\
    blocks_granted world_contig w4
    = [priv_addr (priv_virt buffer_contig1); table_addr table_contig] /\
    blocks_freed world_contig w4
    = [table_addr table_contig; priv_addr (priv_virt buffer_contig1)] /\
    tables_made world_contig w4 = [table_addr table_contig] /\
    tables_freed world_contig w4 = [table_addr table_contig] /\
    Forall slab_event (calls world_contig w4) /\ pools w4 = pools world_contig.
Proof.
  split; [vm_compute; reflexivity|]. split; [vm_compute; reflexivity|].
  apply (contig_life_balanced page_of buffer_contig 8 0 0 world_contig
           buffer_contig1 world_contig1 table_contig world_contig2);
    vm_compute; reflexivity.
Defined.

(** X20.  [ion_system_contig_heap_phys] on a buffer that
    [ion_system_contig_heap_allocate] has served returns 0 and reports the
    physical address of the block that the slab allocator granted, a block
    of [len] bytes, and the size recorded in the buffer; it makes no call
    and changes nothing. *)
Theorem contig_phys_of_allocated v2p buffer len align flags w b' w' :
  ion_system_contig_heap_allocate buffer len align flags w = Ok ((0, b'), w') ->
  exists m,
    priv_virt b' = Priv_mem m /\
    length (kbytes m) = Z.to_nat len /\
    trace w' = trace w ++ [Ev_kmalloc len (Z.lor GFP_KERNEL __GFP_ZERO) (Some (kaddr m))] /\
    ion_system_contig_heap_phys v2p b' w' = Ok ((0, v2p (kaddr m), buf_size buffer), w').
Proof.
  intros H. apply contig_allocate_spec in H as (m & -> & Hlen & _ & _ & T).
  exists m. split; [done|]. split; [done|]. split; [done|]. done.
Qed.

Lemma contig_phys_of_allocated_witness :
  ion_system_contig_heap_allocate buffer_contig 8 0 0 world_contig
    = Ok ((0, buffer_contig1), world_contig1) /\
  exists m,
    priv_virt buffer_contig1 = Priv_mem m /\
    length (kbytes m) = Z.to_nat 8 /\
    trace world_contig1
    = trace world_contig
      ++ [Ev_kmalloc 8 (Z.lor GFP_KERNEL __GFP_ZERO) (Some (kaddr m))] /\
    ion_system_contig_heap_phys phys_of buffer_contig1 world_contig1
    = Ok ((0, phys_of (kaddr m), buf_size buffer_contig), world_contig1).
Proof.
  split; [vm_compute; reflexivity|].
  apply (contig_phys_of_allocated phys_of buffer_contig 8 0 0 world_contig
           buffer_contig1 world_contig1).
  vm_compute; reflexivity.
Defined.

(** X25.  [ion_system_contig_heap_create] returns in every world.  When its
    one block is granted it returns the heap, with the operations and the
    type of the contiguous heap and no debug dump; the block granted is the
    heap object, nothing is freed, and [ion_system_contig_heap_destroy] on
    the heap returns, asks for nothing and hands to [kfree] that block and
    no other.  When the block is refused it returns [ERR_PTR(-ENOMEM)], and
    no block is granted or freed. *)
Theorem contig_heap_create_outcome sz w :
  exists r w',
    ion_system_contig_heap_create sz w = Ok (r, w') /\
    ((exists hp, r = Ptr hp /\ heap_ops hp = kmalloc_ops /\
                 heap_type hp = ION_HEAP_TYPE_SYSTEM_CONTIG /\
                 heap_debug_show hp = false /\
                 blocks_granted w w' = [heap_addr hp] /\ blocks_freed w w' = [] /\
                 exists w'', ion_system_contig_heap_destroy hp w' = Ok (tt, w'') /\
                             blocks_freed w' w'' = [heap_addr hp] /\
                             blocks_granted w' w'' = []) \/
     (r = ERR_PTR (- ENOMEM) /\ refused refusal w w' /\
      blocks_granted w w' = [] /\ blocks_freed w w' = [])).
Proof.
  unfold ion_system_contig_heap_create, kzalloc.
  destruct (kmalloc_cases sz (Z.lor GFP_KERNEL __GFP_ZERO) w) as (h & w1 & E & _ & T).
  unfold bind. rewrite E. unfold blocks_granted, blocks_freed.
  destruct h as [h|]; cbn [fmap option_fmap option_map] in T.
  - eexists _, w1. split; [reflexivity|]. left. eexists. split; [reflexivity|].
    split; [done|]. split; [done|]. split; [done|].
    rewrite (calls_after _ _ _ T). split; [done|]. split; [done|].
    eexists. split; [reflexivity|]. cbn [heap_addr].
    by rewrite (calls_after w1 (log (Ev_kfree (kaddr h)) w1) [Ev_kfree (kaddr h)]).
  - eexists _, w1. split; [reflexivity|]. right. split; [done|].
    rewrite (calls_after _ _ _ T). split; [|done].
    eexists. split; [exact T|]. by constructor.
Qed.

Lemma contig_heap_create_outcome_witness :
  (exists hp w' w'',
     ion_system_contig_heap_create 64 world_boot = Ok (Ptr hp, w') /\
     heap_addr hp = 0xC0001000 /\
     blocks_granted world_boot w' = [0xC0001000] /\
     ion_system_contig_heap_destroy hp w' = Ok (tt, w'') /\
     blocks_freed w' w'' = [0xC0001000]) /\
  (exists r w',
     ion_system_contig_heap_create 64 (world_of [] [] [None] []) = Ok (r, w') /\
     r = ERR_PTR (- ENOMEM) /\ blocks_granted (world_of [] [] [None] []) w' = []).
Proof.
  split.
  - destruct (contig_heap_create_outcome 64 world_boot)
      as (r & w' & E & [(hp & -> & _ & _ & _ & G & _ & w'' & D & F & _)|(-> & _)]).
    + exists hp, w', w''. vm_compute in E. injection E as <- <-.
      repeat split; try assumption; reflexivity.
    + vm_compute in E. discriminate E.
  - destruct (contig_heap_create_outcome 64 (world_of [] [] [None] []))
      as (r & w' & E & [(hp & -> & _)|(-> & _ & G & _)]).
    + vm_compute in E. discriminate E.
    + exists (ERR_PTR (- ENOMEM)), w'. repeat split; assumption.
Defined.

(** * The slab account of the system heap *)

Lemma paging_no_slab evs :
  Forall paging evs ->
  evs ≫= granted_block = [] /\ evs ≫= freed_block = [] /\
  evs ≫= made_table = [] /\ evs ≫= freed_table = [].
Proof.
  induction 1 as [|e evs He _ (IH1 & IH2 & IH3 & IH4)]; [done|].
  rewrite !bind_cons, IH1, IH2, IH3, IH4. by destruct e.
Qed.

Lemma allocate_err_paging buffer pages w r b' w' :
  allocate_err buffer pages w = Ok ((r, b'), w') ->
  r <> 0 /\ exists evs, trace w' = trace w ++ evs /\ Forall paging evs.
Proof.
  intros H. split.
  - unfold allocate_err in H. inv_ok H. inv_ok Hk. injection Hk as E _.
    unfold ENOMEM in E. lia.
  - by apply (keeps_allocate_err_paging paging) in H.
Qed.

(** What [ion_system_heap_allocate] asks of the slab allocator and gives
    back to it. *)
Lemma allocate_slab_cases buffer size align flags w r b' w' :
  ion_system_heap_allocate buffer size align flags w = Ok ((r, b'), w') ->
  if decide (r = 0) then
    exists t,
      priv_virt b' = Priv_table t /\
      blocks_granted w w' = [table_addr t] /\ blocks_freed w w' = [] /\
      tables_made w w' = [table_addr t] /\ tables_freed w w' = []
  else
    blocks_freed w w' = blocks_granted w w' /\
    tables_made w w' = [] /\ tables_freed w w' = [].
Proof.
  unfold ion_system_heap_allocate. intros H. inv_ok H.
  destruct a as [[fin pages] i].
  apply (keeps_alloc_loop_paging paging) in Hm as (e1 & T1 & F1); [|done].
  destruct (paging_no_slab e1 F1) as (G1 & R1 & M1 & S1).
  unfold blocks_granted, blocks_freed, tables_made, tables_freed.
  assert (forall w1 mid,
            trace w1 = trace w0 ++ mid ->
            mid ≫= freed_block = mid ≫= granted_block ->
            mid ≫= made_table = [] -> mid ≫= freed_table = [] ->
            allocate_err buffer pages w1 = Ok ((r, b'), w') ->
            r <> 0 /\
            calls w w' ≫= freed_block = calls w w' ≫= granted_block /\
            calls w w' ≫= made_table = [] /\ calls w w' ≫= freed_table = []) as Herr.
  { intros w1 mid Tm Bm Mm Sm E. apply allocate_err_paging in E as (Hr & e3 & T3 & F3).
    destruct (paging_no_slab e3 F3) as (G3 & R3 & M3 & S3).
    assert (trace w' = trace w ++ e1 ++ mid ++ e3) as T
      by (by rewrite T3, Tm, T1, <- !app_assoc).
    rewrite (calls_after _ _ _ T), !bind_app, G1, R1, M1, S1, G3, R3, M3, S3, Bm, Mm, Sm.
    done. }
  assert (r <> 0 ->
          calls w w' ≫= freed_block = calls w w' ≫= granted_block /\
          calls w w' ≫= made_table = [] /\ calls w w' ≫= freed_table = [] ->
          if decide (r = 0) then
            exists t,
              priv_virt b' = Priv_table t /\
              calls w w' ≫= granted_block = [table_addr t] /\
              calls w w' ≫= freed_block = [] /\
              calls w w' ≫= made_table = [table_addr t] /\
              calls w w' ≫= freed_table = []
          else
            calls w w' ≫= freed_block = calls w w' ≫= granted_block /\
            calls w w' ≫= made_table = [] /\ calls w w' ≫= freed_table = []) as Hfail.
  { intros Hr Hc. by destruct (decide (r = 0)). }
  destruct fin; cbn [negb] in Hk.
  2:{ destruct (Herr w0 []) as [Hr Hc]; [by rewrite app_nil_r | done .. | exact Hk |].
      by apply Hfail. }
  inv_ok Hk.
  destruct (kmalloc_cases sizeof_sg_table GFP_KERNEL w0) as (m & wk & E2 & _ & T2).
  rewrite E2 in Hm. injection Hm as <- <-.
  destruct m as [m|]; cbn [fmap option_fmap option_map] in T2.
  2:{ destruct (Herr wk [Ev_kmalloc sizeof_sg_table GFP_KERNEL None]) as [Hr Hc];
        [done .. | exact Hk0 |]. by apply Hfail. }
  inv_ok Hk0.
  assert (exists n, sg_alloc_table (kaddr m) n GFP_KERNEL wk = Ok (a, w1)) as [n Hsg]
    by (destruct (ion_buffer_fault_user_mappings buffer); eauto).
  destruct (sg_alloc_table_cases (kaddr m) n GFP_KERNEL wk) as (t & ws & E3 & _ & Hcase).
  rewrite E3 in Hsg. injection Hsg as <- <-.
  destruct Hcase as [[-> T3] | [-> T3]].
  - inv_ok Hk. unfold kfree in Hm0. inv_ok Hm0.
    destruct (Herr (log (Ev_kfree (kaddr m)) ws)
                [Ev_kmalloc sizeof_sg_table GFP_KERNEL (Some (kaddr m));
                 Ev_sg_alloc_table (kaddr m) n false; Ev_kfree (kaddr m)]) as [Hr Hc];
      [|done|done|done|exact Hk0|by apply Hfail].
    cbn [log trace]. by rewrite T3, T2, <- !app_assoc.
  - inv_ok Hk. destruct a as [l all]. inv_ok Hk0. inv_ok Hk. inv_ok Hm0.
    injection Hk as -> ->.
    assert (exists z, trace w2 = trace ws ++ z /\ Forall (fun e => ~ slab_event e) z)
      as (z & Tz & Fz).
    { destruct (ion_buffer_sync_force buffer).
      - unfold ion_device_sync in Hm1. inv_ok Hm1. eexists [_].
        split; [reflexivity|]. repeat constructor. exact id.
      - inv_ok Hm1. exists []. by rewrite app_nil_r. }
    assert (z ≫= granted_block = [] /\ z ≫= freed_block = [] /\
            z ≫= made_table = [] /\ z ≫= freed_table = []) as (Gz & Rz & Mz & Sz).
    { clear -Fz. induction Fz as [|e z He _ (IH1 & IH2 & IH3 & IH4)]; [done|].
      rewrite !bind_cons, IH1, IH2, IH3, IH4. destruct e as [| | | | | | | |? ? [?|]| | |];
        try done; by destruct He. }
    assert (trace w2 = trace w ++ e1 ++ [Ev_kmalloc sizeof_sg_table GFP_KERNEL
                                           (Some (kaddr m));
                                         Ev_sg_alloc_table (kaddr m) n true] ++ z) as T
      by (by rewrite Tz, T3, T2, T1, <- !app_assoc).
    rewrite (calls_after _ _ _ T), !bind_app, G1, R1, M1, S1, Gz, Rz, Mz, Sz.
    cbn [decide]. destruct (decide (0 = 0)) as [_|Hne]; [|done].
    eexists. split; [reflexivity|]. cbn [table_addr]. by repeat split.
Qed.

(** X21.  The slab account of [ion_system_heap_allocate].  A call that
    succeeds is granted one block, which is the header of the table it
    leaves in the buffer, and one entry array, made for that header; it
    frees nothing.  A call that fails holds nothing: no entry array is made,
    and the blocks handed to [kfree] are the blocks granted, which is the
    header when the entry array is refused and nothing otherwise. *)
Theorem allocate_slab_account buffer size align flags w r b' w' :
  ion_system_heap_allocate buffer size align flags w = Ok ((r, b'), w') ->
  if decide (r = 0) then
    exists t,
      priv_virt b' = Priv_table t /\
      blocks_granted w w' = [table_addr t] /\ blocks_freed w w' = [] /\
      tables_made w w' = [table_addr t] /\ tables_freed w w' = []
  else
    blocks_freed w w' = blocks_granted w w' /\
    tables_made w w' = [] /\ tables_freed w w' = [].
Proof. apply allocate_slab_cases. Qed.

Lemma allocate_slab_account_witness :
  ion_system_heap_allocate buffer_68k 69632 0 0 world_short
    = Ok ((- ENOMEM, buffer_68k), world_short') /\
  (if decide (- ENOMEM = 0) then
     exists t,
       priv_virt buffer_68k = Priv_table t /\
       blocks_granted world_short world_short' = [table_addr t] /\
       blocks_freed world_short world_short' = [] /\
       tables_made world_short world_short' = [table_addr t] /\
       tables_freed world_short world_short' = []
   else
     blocks_freed world_short world_short' = blocks_granted world_short world_short' /\
     tables_made world_short world_short' = [] /\
     tables_freed world_short world_short' = []).
Proof.
  split; [vm_compute; reflexivity|].
  apply (allocate_slab_account buffer_68k 69632 0 0 world_short (- ENOMEM)
           buffer_68k world_short').
  vm_compute; reflexivity.
Defined.

(** What [ion_system_heap_free] gives back to the slab allocator. *)
Lemma free_slab_cases buffer w w' :
  ion_system_heap_free buffer w = Ok (tt, w') ->
  exists t,
    buf_sg_table buffer = Some t /\
    blocks_freed w w' = [table_addr t] /\ tables_freed w w' = [table_addr t] /\
    blocks_granted w w' = [] /\ tables_made w w' = [].
Proof.
  unfold ion_system_heap_free. intros H. inv_ok H.
  assert (exists z, trace w0 = trace w ++ z /\ Forall (fun e => ~ slab_event e) z)
    as (z & Tz & Fz).
  { destruct (_ && _).
    - unfold ion_heap_buffer_zero in Hm. destruct (buf_sg_table buffer); [|discriminate].
      inv_ok Hm. eexists [_]. split; [reflexivity|]. repeat constructor. exact id.
    - inv_ok Hm. exists []. by rewrite app_nil_r. }
  assert (z ≫= granted_block = [] /\ z ≫= freed_block = [] /\
          z ≫= made_table = [] /\ z ≫= freed_table = []) as (Gz & Rz & Mz & Sz).
  { clear -Fz. induction Fz as [|e z He _ (IH1 & IH2 & IH3 & IH4)]; [done|].
    rewrite !bind_cons, IH1, IH2, IH3, IH4. destruct e as [| | | | | | | |? ? [?|]| | |];
      try done; by destruct He. }
  inv_ok Hk. inv_ok Hm0. inv_ok Hk0.
  assert (after paging w0 w1) as (e2 & T2 & F2).
  { eapply (keeps_for_each (after paging)); [| exact Hm1].
    intros sg. by apply keeps_free_buffer_page_paging. }
  destruct (paging_no_slab e2 F2) as (G2 & R2 & M2 & S2).
  unfold sg_free_table, kfree, bind, emit in Hk. injection Hk as <-.
  exists a0. split; [done|].
  assert (trace (log (Ev_kfree (table_addr a0)) (log (Ev_sg_free_table (table_addr a0)) w1))
          = trace w ++ z ++ e2 ++ [Ev_sg_free_table (table_addr a0);
                                   Ev_kfree (table_addr a0)]) as T
    by (cbn [log trace]; by rewrite T2, Tz, <- !app_assoc).
  unfold blocks_granted, blocks_freed, tables_made, tables_freed.
  rewrite (calls_after _ _ _ T), !bind_app, G2, R2, M2, S2, Gz, Rz, Mz, Sz.
  by repeat split.
Qed.

(** X22.  The slab account of [ion_system_heap_free]: a call that returns
    has handed to [sg_free_table] and then to [kfree] the table of the
    buffer, [buffer->sg_table], and nothing else, whatever the table holds,
    and it has asked the slab allocator for nothing.  When the buffer is one
    that [ion_system_heap_allocate] has just served, with the table that
    [map_dma] returns, the release gives back what the allocation was
    granted: the block freed is the block granted, and the entry array
    freed is the entry array made. *)
Theorem free_slab_account buffer w w' :
  ion_system_heap_free buffer w = Ok (tt, w') ->
  (exists t,
     buf_sg_table buffer = Some t /\
     blocks_freed w w' = [table_addr t] /\ tables_freed w w' = [table_addr t] /\
     blocks_granted w w' = [] /\ tables_made w w' = []) /\
  (forall b0 size align flags w0 b',
     ion_system_heap_allocate b0 size align flags w0 = Ok ((0, b'), w) ->
     buffer = mapped b' ->
     blocks_freed w w' = blocks_granted w0 w /\
     tables_freed w w' = tables_made w0 w).
Proof.
  intros H. destruct (free_slab_cases buffer w w' H) as (t & Ht & Bf & Tf & Bg & Tm).
  split; [by exists t|].
  intros b0 size align flags w0 b' Ha ->.
  apply allocate_slab_cases in Ha. destruct (decide (0 = 0)) as [_|Hne]; [|done].
  destruct Ha as (t0 & Hpriv & Bg0 & _ & Tm0 & _).
  unfold mapped, ion_system_heap_map_dma in Ht. cbn [buf_sg_table] in Ht.
  rewrite Hpriv in Ht. injection Ht as ->. by rewrite Bf, Tf, Bg0, Tm0.
Qed.

Lemma free_slab_account_witness :
  ion_system_heap_free (mapped buffer_68k') world_68k' = Ok (tt, world_68k'') /\
  (exists t,
     buf_sg_table (mapped buffer_68k') = Some t /\
     blocks_freed world_68k' world_68k'' = [table_addr t] /\
     tables_freed world_68k' world_68k'' = [table_addr t] /\
     blocks_granted world_68k' world_68k'' = [] /\
     tables_made world_68k' world_68k'' = []) /\
  (forall b0 size align flags w0 b',
     ion_system_heap_allocate b0 size align flags w0 = Ok ((0, b'), world_68k') ->
     mapped buffer_68k' = mapped b' ->
     blocks_freed world_68k' world_68k'' = blocks_granted w0 world_68k' /\
     tables_freed world_68k' world_68k'' = tables_made w0 world_68k').
Proof.
  split; [vm_compute; reflexivity|].
  apply (free_slab_account (mapped buffer_68k') world_68k' world_68k'').
  vm_compute; reflexivity.
Defined.

(** * No run is lost *)

Lemma takes_same w w' : trace w' = trace w -> takes [] w w'.
Proof. intros E. exists []. by rewrite app_nil_r. Qed.

Lemma takes_trans l1 l2 w w1 w2 :
  takes l1 w w1 -> takes l2 w1 w2 -> takes (l1 ++ l2) w w2.
Proof.
  intros (e1 & T1 & K1 & R1) (e2 & T2 & K2 & R2). exists (e1 ++ e2).
  rewrite T2, T1, <- app_assoc, !bind_app, K1, K2, R1, R2. done.
Qed.

Lemma takes_nil_l l w w1 w2 : takes [] w w1 -> takes l w1 w2 -> takes l w w2.
Proof. intros H1 H2. apply (takes_trans [] l w w1 w2 H1 H2). Qed.

Lemma takes_nil_r l w w1 w2 : takes l w w1 -> takes [] w1 w2 -> takes l w w2.
Proof.
  intros H1 H2. pose proof (takes_trans l [] w w1 w2 H1 H2) as H.
  by rewrite app_nil_r in H.
Qed.

#[local] Instance takes_nil_preorder : PreOrder (takes []).
Proof.
  split; [intros w; by apply takes_same | intros w1 w2 w3; apply takes_nil_l].
Qed.

Lemma takes_emit e a w w' :
  taken e = [] -> released e = [] -> emit e w = Ok (a, w') -> takes [] w w'.
Proof.
  intros K R H. inv_ok H. exists [e]. cbn [log trace]. split; [done|].
  rewrite !bind_cons, K, R. done.
Qed.

Lemma takes_alloc_pages gfp o w r w' :
  alloc_pages gfp o w = Ok (r, w') -> takes (option_list r) w w'.
Proof.
  unfold alloc_pages. intros H. injection H as <- <-. eexists [_].
  split; [reflexivity|]. by destruct (host_pages w) as [|[p|] ?].
Qed.

Lemma takes_get_pool idx w p w' : get_pool idx w = Ok (p, w') -> takes [] w w'.
Proof.
  unfold get_pool. destruct (pools w !! idx); [|discriminate]. intros H.
  injection H as _ <-. by apply takes_same.
Qed.

Lemma takes_ion_page_pool_alloc idx w r w' :
  ion_page_pool_alloc idx w = Ok (r, w') -> takes (option_list r) w w'.
Proof.
  unfold ion_page_pool_alloc. intros H. inv_ok H. apply takes_get_pool in Hm.
  eapply takes_nil_l; [exact Hm|]. inv_ok Hk. inv_ok Hm0.
  destruct (high_items a) as [|pg hi] eqn:Eh; [destruct (low_items a) as [|pg lo] eqn:El|].
  - apply takes_alloc_pages in Hk0. eapply takes_nil_l; [|exact Hk0].
    eexists [_]. by split.
  - inv_ok Hk0. unfold put_pool in Hm0. injection Hm0 as <-. inv_ok Hk.
    eexists [_]. by split.
  - inv_ok Hk0. unfold put_pool in Hm0. injection Hm0 as <-. inv_ok Hk.
    eexists [_]. by split.
Qed.

Lemma takes_alloc_buffer_page buffer o w r w' :
  alloc_buffer_page buffer o w = Ok (r, w') -> takes (option_list (pfn <$> r)) w w'.
Proof.
  unfold alloc_buffer_page. intros H. inv_ok H. inv_ok Hm. inv_ok Hk.
  assert (takes (option_list a0) w w0) as Ht.
  { destruct (ion_buffer_cached buffer); cbn [negb] in Hm0;
      [by eapply takes_alloc_pages | by eapply takes_ion_page_pool_alloc]. }
  destruct a0 as [p|].
  - inv_ok Hk0. inv_ok Hk. eapply takes_nil_r; [exact Ht|].
    destruct (ion_buffer_fault_user_mappings buffer).
    + unfold split_page in Hm1. eapply takes_emit; [| |exact Hm1]; reflexivity.
    + inv_ok Hm1. by apply takes_same.
  - by inv_ok Hk0.
Qed.

Lemma takes_alloc_largest_available_from os buffer size max_order from_pool w r w' :
  alloc_largest_available_from os buffer size max_order from_pool w = Ok (r, w') ->
  takes (option_list (pfn <$> r)) w w'.
Proof.
  revert from_pool w. induction os as [|o os IH]; intros from_pool w H;
    cbn [alloc_largest_available_from] in H.
  - inv_ok H. by apply takes_same.
  - destruct (size <? order_to_size o); [by eapply IH|].
    destruct (max_order <? o); [by eapply IH|].
    inv_ok H.
    assert (takes [] w w0) as A1.
    { eapply (keeps_if (takes [])); [| |exact Hm]; [|apply keeps_ret, _].
      apply keeps_bind; [apply _ | apply keeps_lift, _ |]. intros idx.
      apply keeps_bind; [apply _ | intros ? ? ? E; by eapply takes_get_pool |].
      intros pool. apply keeps_bind; [apply _ | | intros _; apply keeps_ret, _].
      intros w1 ? w2 E. apply takes_same. unfold preempt in E.
      destruct (others w1) as [|[|idx'] ot]; by injection E as _ <-. }
    eapply takes_nil_l; [exact A1|]. inv_ok Hk. apply takes_alloc_buffer_page in Hm0.
    destruct a0 as [pg|].
    + inv_ok Hk0. eapply takes_nil_r; [|by apply takes_same].
      by destruct a.
    + eapply takes_nil_l; [exact Hm0|]. by eapply IH.
Qed.

Lemma takes_alloc_loop fuel buffer sr max_order pages i w fin pages' i' w' :
  alloc_loop fuel buffer sr max_order pages i w = Ok ((fin, pages', i'), w') ->
  exists new, pages' = pages ++ new /\ takes (pfn <$> new) w w'.
Proof.
  revert sr max_order pages i w. induction fuel as [|fuel IH];
    intros sr max_order pages i w H; cbn [alloc_loop] in H; destruct (0 <? sr);
    try discriminate;
    try (inv_ok H; injection H as _ <- _; exists []; rewrite app_nil_r;
         split; [done | by apply takes_same]).
  inv_ok H. apply takes_alloc_largest_available_from in Hm. destruct a as [pg|].
  - apply IH in Hk as (new & -> & Ht). exists (pg :: new). rewrite <- app_assoc.
    split; [done|]. rewrite fmap_cons.
    exact (takes_trans [pfn pg] (pfn <$> new) w w0 w' Hm Ht).
  - inv_ok Hk. injection Hk as _ <- _. exists []. by rewrite app_nil_r.
Qed.

(** The calls of [ion_system_heap_allocate] after its loop: calls into the
    slab allocator, then the sync on success or the release of the run list
    on failure. *)
Lemma allocate_calls buffer size align flags w r b' w' :
  ion_system_heap_allocate buffer size align flags w = Ok ((r, b'), w') ->
  exists fin pages i w1 mid tail,
    alloc_loop (alloc_budget (LONG (PAGE_ALIGN size))) buffer
      (LONG (PAGE_ALIGN size)) (hd 0 orders) [] 0 w = Ok ((fin, pages, i), w1) /\
    trace w' = trace w1 ++ mid ++ tail /\
    Forall slab_event mid /\
    ((r = 0 /\ (tail = [] \/ exists t, tail = [Ev_device_sync t])) \/
     (r = - ENOMEM /\ tail = pages ≫= release_events buffer)).
Proof.
  unfold ion_system_heap_allocate. intros H. inv_ok H.
  destruct a as [[fin pages] i]. exists fin, pages, i, w0.
  pose proof (alloc_loop_of_allocate _ _ _ _ _ _ _ Hm) as (_ & Hall & _).
  assert (forall w1 mid,
            trace w1 = trace w0 ++ mid -> Forall slab_event mid ->
            allocate_err buffer pages w1 = Ok ((r, b'), w') ->
            exists mid tail,
              trace w' = trace w0 ++ mid ++ tail /\ Forall slab_event mid /\
              ((r = 0 /\ (tail = [] \/ exists t, tail = [Ev_device_sync t])) \/
               (r = - ENOMEM /\ tail = pages ≫= release_events buffer))) as Herr.
  { intros w1 mid Tm Fm E. apply allocate_err_Ok in E as (-> & _ & T); [|done].
    exists mid, (pages ≫= release_events buffer).
    split; [by rewrite T, Tm, <- app_assoc|]. split; [done|]. by right. }
  assert (exists mid tail,
            trace w' = trace w0 ++ mid ++ tail /\ Forall slab_event mid /\
            ((r = 0 /\ (tail = [] \/ exists t, tail = [Ev_device_sync t])) \/
             (r = - ENOMEM /\ tail = pages ≫= release_events buffer)))
    as (mid & tail & ?); [|by exists mid, tail].
  destruct fin; cbn [negb] in Hk.
  2:{ apply (Herr w0 []); [by rewrite app_nil_r | constructor | exact Hk]. }
  inv_ok Hk.
  destruct (kmalloc_cases sizeof_sg_table GFP_KERNEL w0) as (m & wk & E2 & _ & T2).
  rewrite E2 in Hm0. injection Hm0 as <- <-.
  destruct m as [m|]; cbn [fmap option_fmap option_map] in T2.
  2:{ apply (Herr wk [Ev_kmalloc sizeof_sg_table GFP_KERNEL None]);
        [done | by repeat constructor | done]. }
  inv_ok Hk0.
  assert (exists n, sg_alloc_table (kaddr m) n GFP_KERNEL wk = Ok (a, w1)) as [n Hsg]
    by (destruct (ion_buffer_fault_user_mappings buffer); eauto).
  destruct (sg_alloc_table_cases (kaddr m) n GFP_KERNEL wk) as (t & ws & E3 & _ & Hcase).
  rewrite E3 in Hsg. injection Hsg as <- <-.
  destruct Hcase as [[-> T3] | [-> T3]].
  - inv_ok Hk. unfold kfree in Hm1. inv_ok Hm1.
    apply (Herr (log (Ev_kfree (kaddr m)) ws)
                  [Ev_kmalloc sizeof_sg_table GFP_KERNEL (Some (kaddr m));
                   Ev_sg_alloc_table (kaddr m) n false; Ev_kfree (kaddr m)]);
      [|by repeat constructor|exact Hk0].
    cbn [log trace]. by rewrite T3, T2, <- !app_assoc.
  - inv_ok Hk. destruct a as [l all]. inv_ok Hk0. inv_ok Hk. inv_ok Hm1.
    injection Hk as -> _.
    exists [Ev_kmalloc sizeof_sg_table GFP_KERNEL (Some (kaddr m));
            Ev_sg_alloc_table (kaddr m) n true].
    destruct (ion_buffer_sync_force buffer).
    + unfold ion_device_sync in Hm2. inv_ok Hm2. eexists [_]. cbn [log trace].
      split; [by rewrite T3, T2, <- !app_assoc|]. split; [by repeat constructor|].
      left. split; [done|]. right. by eexists.
    + inv_ok Hm2. exists [].
      split; [by rewrite T3, T2, <- !app_assoc|]. split; [by repeat constructor|].
      left. split; [done|]. by left.
Qed.

Lemma released_release_events buffer pg :
  ion_page_order pg ∈ orders ->
  release_events buffer pg ≫= released = pages_of pg /\
  release_events buffer pg ≫= taken = [].
Proof.
  intros Ho. unfold release_events, free_events, pages_of.
  destruct (ion_buffer_cached buffer); cbn [negb].
  - destruct (ion_buffer_fault_user_mappings buffer).
    + unfold run_pages. split.
      * induction (seqZ 0 (2 ^ ion_page_order pg)) as [|i l IH]; [done|].
        by rewrite !fmap_cons, bind_cons, IH.
      * induction (seqZ 0 (2 ^ ion_page_order pg)) as [|i l IH]; [done|].
        by rewrite !fmap_cons, bind_cons, IH.
    + split; [|done]. cbn. by rewrite app_nil_r.
  - destruct (order_to_index_Ok _ Ho) as (idx & -> & Hidx). split; [|done].
    cbn. rewrite Hidx. cbn. by rewrite app_nil_r.
Qed.

Lemma slab_events_touch_no_page mid :
  Forall slab_event mid -> mid ≫= taken = [] /\ mid ≫= released = [].
Proof.
  induction 1 as [|e mid He _ [IHk IHr]]; [done|].
  rewrite !bind_cons, IHk, IHr. by destruct e.
Qed.

(** X23.  [ion_system_heap_allocate] loses no run: the runs that the host
    and the pools hand out during a call are exactly the runs of its run
    list, in order, also those obtained before a refusal.  A call that
    succeeds has handed no page back; a call that fails has handed back
    every page of every run, each once. *)
Theorem allocate_loses_no_run buffer size align flags w r b' w' :
  ion_system_heap_allocate buffer size align flags w = Ok ((r, b'), w') ->
  exists fin pages w1,
    packs buffer size w fin pages w1 /\
    calls w w' ≫= taken = pfn <$> pages /\
    calls w w' ≫= released = (if decide (r = 0) then [] else pages ≫= pages_of).
Proof.
  intros H.
  apply allocate_calls in H as (fin & pages & i & w1 & mid & tail & Hloop & T & Fm & Hcase).
  exists fin, pages, w1. split; [by exists i|].
  pose proof (alloc_loop_of_allocate _ _ _ _ _ _ _ Hloop) as (_ & Hall & _).
  apply takes_alloc_loop in Hloop as (new & E & evs & T1 & K1 & R1).
  rewrite app_nil_l in E. subst new.
  destruct (slab_events_touch_no_page mid Fm) as [Km Rm].
  assert (trace w' = trace w ++ evs ++ mid ++ tail) as T'
    by (by rewrite T, T1, <- !app_assoc).
  rewrite (calls_after _ _ _ T'), !bind_app, K1, R1, Km, Rm. cbn [app].
  destruct Hcase as [[-> [-> | [t ->]]] | [-> ->]].
  - by rewrite app_nil_r.
  - cbn. by rewrite app_nil_r.
  - destruct (decide (- ENOMEM = 0)) as [E|_]; [discriminate|].
    assert ((pages ≫= release_events buffer) ≫= taken = [] /\
            (pages ≫= release_events buffer) ≫= released = pages ≫= pages_of)
      as [-> ->].
    { clear -Hall. induction Hall as [|pg pages Ho _ [IHk IHr]]; [done|].
      destruct (released_release_events buffer pg Ho) as [Er Ek].
      rewrite !bind_cons, !bind_app, IHk, IHr, Er, Ek. done. }
    by rewrite app_nil_r.
Qed.

Lemma allocate_loses_no_run_witness :
  ion_system_heap_allocate buffer_68k 69632 0 0 world_short
    = Ok ((- ENOMEM, buffer_68k), world_short') /\
  exists fin pages w1,
    packs buffer_68k 69632 world_short fin pages w1 /\
    calls world_short world_short' ≫= taken = pfn <$> pages /\
    calls world_short world_short' ≫= released
    = (if decide (- ENOMEM = 0) then [] else pages ≫= pages_of).
Proof.
  split; [vm_compute; reflexivity|].
  apply (allocate_loses_no_run buffer_68k 69632 0 0 world_short (- ENOMEM)
           buffer_68k world_short').
  vm_compute; reflexivity.
Defined.

(** * The pools serve the next allocation *)

#[local] Instance alone_preorder : PreOrder alone.
Proof.
  split; [intros w H; exact H | intros w1 w2 w3 H1 H2 H; by apply H2, H1].
Qed.

Lemma alone_same w w' : others w' = others w -> alone w w'.
Proof. intros E H. by rewrite E. Qed.

Lemma keeps_emit_alone e : keeps alone (emit e).
Proof. intros w a w' H. apply emit_Ok in H as ->. by apply alone_same. Qed.

Lemma keeps_alloc_pages_alone gfp order : keeps alone (alloc_pages gfp order).
Proof. intros w a w' H. unfold alloc_pages in H. injection H as _ <-. by apply alone_same. Qed.

Lemma keeps_kmalloc_alone size flags : keeps alone (kmalloc size flags).
Proof. intros w a w' H. unfold kmalloc in H. injection H as _ <-. by apply alone_same. Qed.

Lemma keeps_sg_alloc_table_alone table n gfp : keeps alone (sg_alloc_table table n gfp).
Proof.
  intros w a w' H. unfold sg_alloc_table in H. injection H as _ <-. by apply alone_same.
Qed.

Lemma keeps_put_pool_alone idx p : keeps alone (put_pool idx p).
Proof. intros w a w' H. unfold put_pool in H. injection H as _ <-. by apply alone_same. Qed.

Lemma keeps_get_pool_alone idx : keeps alone (get_pool idx).
Proof.
  intros w a w' H. unfold get_pool in H.
  destruct (pools w !! idx); [by injection H as _ <- | discriminate].
Qed.

Lemma keeps_preempt_alone : keeps alone preempt.
Proof.
  intros w a w' H Ho. unfold preempt in H. rewrite Ho in H. by injection H as _ <-.
Qed.

Lemma keeps_ion_page_pool_alloc_alone idx : keeps alone (ion_page_pool_alloc idx).
Proof.
  unfold ion_page_pool_alloc.
  apply keeps_bind; [apply _ | apply keeps_get_pool_alone |]. intros pool.
  apply keeps_bind; [apply _ | apply keeps_emit_alone |]. intros _.
  destruct (high_items pool), (low_items pool);
    first [apply keeps_alloc_pages_alone
          | apply keeps_bind; [apply _ | apply keeps_put_pool_alone |];
            intros _; apply keeps_ret, _].
Qed.

Lemma keeps_ion_page_pool_free_alone idx p : keeps alone (ion_page_pool_free idx p).
Proof.
  unfold ion_page_pool_free.
  apply keeps_bind; [apply _ | apply keeps_get_pool_alone |]. intros pool.
  apply keeps_bind; [apply _ | |].
  { intros w a w' H. unfold PageHighMem in H. by injection H as _ <-. }
  intros high. apply keeps_bind; [apply _ | apply keeps_emit_alone |]. intros _.
  apply keeps_put_pool_alone.
Qed.

Lemma keeps_alloc_buffer_page_alone buffer o : keeps alone (alloc_buffer_page buffer o).
Proof.
  unfold alloc_buffer_page.
  apply keeps_bind; [apply _ | apply keeps_lift, _ |]. intros idx.
  apply keeps_bind; [apply _ | |].
  - apply keeps_if; [apply keeps_ion_page_pool_alloc_alone | apply keeps_alloc_pages_alone].
  - intros [p|]; [|apply keeps_ret, _].
    apply keeps_bind; [apply _ | | intros _; apply keeps_ret, _].
    apply keeps_if; [apply keeps_emit_alone | apply keeps_ret, _].
Qed.

Lemma keeps_free_buffer_page_alone buffer pg o :
  keeps alone (free_buffer_page buffer pg o).
Proof.
  unfold free_buffer_page. apply keeps_if; [|apply keeps_if].
  - apply keeps_bind; [apply _ | apply keeps_lift, _ |]. intros idx.
    apply keeps_bind; [apply _ | apply keeps_deref, _ |]. intros p.
    apply keeps_ion_page_pool_free_alone.
  - apply keeps_for_each; [apply _|]. intros i.
    apply keeps_bind; [apply _ | apply keeps_deref, _ |]. intros p.
    apply keeps_emit_alone.
  - apply keeps_bind; [apply _ | apply keeps_deref, _ |]. intros p.
    apply keeps_emit_alone.
Qed.

Lemma keeps_alloc_largest_available_from_alone os buffer size max_order from_pool :
  keeps alone (alloc_largest_available_from os buffer size max_order from_pool).
Proof.
  revert from_pool. induction os as [|o os IH]; intros from_pool;
    cbn [alloc_largest_available_from]; [apply keeps_ret, _|].
  destruct (size <? order_to_size o); [apply IH|].
  destruct (max_order <? o); [apply IH|].
  apply keeps_bind; [apply _ | |].
  - apply keeps_if; [|apply keeps_ret, _].
    apply keeps_bind; [apply _ | apply keeps_lift, _ |]. intros idx.
    apply keeps_bind; [apply _ | apply keeps_get_pool_alone |]. intros pool.
    apply keeps_bind; [apply _ | apply keeps_preempt_alone |]. intros _.
    apply keeps_ret, _.
  - intros fp. apply keeps_bind; [apply _ | apply keeps_alloc_buffer_page_alone |].
    intros [pg|]; [apply keeps_ret, _ | apply IH].
Qed.

Lemma keeps_alloc_loop_alone fuel buffer sr max_order pages i :
  keeps alone (alloc_loop fuel buffer sr max_order pages i).
Proof.
  revert sr max_order pages i. induction fuel as [|fuel IH]; intros sr max_order pages i;
    cbn [alloc_loop]; destruct (0 <? sr); try apply keeps_ret, _.
  - intros w a w' H. discriminate.
  - apply keeps_bind; [apply _ | apply keeps_alloc_largest_available_from_alone |].
    intros [pg|]; [apply IH | apply keeps_ret, _].
Qed.

Lemma keeps_allocate_err_alone buffer pages : keeps alone (allocate_err buffer pages).
Proof.
  unfold allocate_err.
  apply keeps_bind; [apply _ | | intros _; apply keeps_ret, _].
  apply keeps_for_each; [apply _|]. intros pg. apply keeps_free_buffer_page_alone.
Qed.

Lemma keeps_allocate_alone buffer size align flags :
  keeps alone (ion_system_heap_allocate buffer size align flags).
Proof.
  unfold ion_system_heap_allocate.
  apply keeps_bind; [apply _ | apply keeps_alloc_loop_alone |]. intros [[fin pages] i].
  apply keeps_if; [apply keeps_allocate_err_alone|].
  apply keeps_bind; [apply _ | apply keeps_kmalloc_alone |].
  intros [m|]; [|apply keeps_allocate_err_alone].
  apply keeps_bind; [apply _ | apply keeps_if; apply keeps_sg_alloc_table_alone |].
  intros [t|].
  - apply keeps_bind; [apply _ | apply keeps_lift, _ |]. intros [l all].
    apply keeps_bind; [apply _ | | intros _; apply keeps_ret, _].
    apply keeps_if; [apply keeps_emit_alone | apply keeps_ret, _].
  - apply keeps_bind; [apply _ | apply keeps_emit_alone |]. intros _.
    apply keeps_allocate_err_alone.
Qed.

(** A pool that holds a page serves it. *)
Lemma ion_page_pool_alloc_hit idx pool w :
  pools w !! idx = Some pool -> 0 < pool_count pool ->
  exists p pool' w',
    ion_page_pool_alloc idx w = Ok (Some p, w') /\
    pools w' = <[idx := pool']> (pools w) /\
    pool_count pool' = pool_count pool - 1 /\
    others w' = others w /\
    trace w' = trace w ++ [Ev_pool_alloc idx (Some p)].
Proof.
  intros Hp Hc. unfold ion_page_pool_alloc, bind, get_pool. rewrite Hp.
  cbn [emit]. unfold pool_count, high_count, low_count in Hc.
  destruct (high_items pool) as [|pg hi] eqn:Eh; [destruct (low_items pool) as [|pg lo] eqn:El|].
  - simpl in Hc. lia.
  - eexists pg, _, _. split; [reflexivity|]. cbn [put_pool set_pools log pools others trace].
    split; [reflexivity|]. split; [|by split].
    unfold pool_count, high_count, low_count. rewrite Eh, El.
    cbn [with_items high_items low_items length]. lia.
  - eexists pg, _, _. split; [reflexivity|]. cbn [put_pool set_pools log pools others trace].
    split; [reflexivity|]. split; [|by split].
    unfold pool_count, high_count, low_count. rewrite Eh.
    cbn [with_items high_items low_items length]. lia.
Qed.

Lemma from_pools_after_one e w w' :
  from_pools e -> trace w' = trace w ++ [e] -> after from_pools w w'.
Proof. intros He E. exists [e]. split; [done | by constructor]. Qed.

Lemma alloc_buffer_page_hit buffer o idx pool w :
  ion_buffer_cached buffer = false ->
  order_to_index o = Ok idx ->
  pools w !! idx = Some pool -> 0 < pool_count pool ->
  exists p pool' w',
    alloc_buffer_page buffer o w = Ok (Some (page_at p), w') /\
    pools w' = <[idx := pool']> (pools w) /\
    pool_count pool' = pool_count pool - 1 /\
    others w' = others w /\
    after from_pools w w'.
Proof.
  intros Hc Hi Hp Hn.
  destruct (ion_page_pool_alloc_hit idx pool w Hp Hn)
    as (p & pool' & w1 & E & P & C & O & T).
  unfold alloc_buffer_page. rewrite Hc, Hi. cbn [negb]. unfold bind at 1. cbn [lift].
  unfold bind at 1. rewrite E.
  destruct (ion_buffer_fault_user_mappings buffer).
  - eexists p, pool', _. split; [reflexivity|]. cbn [log pools others trace].
    split; [done|]. split; [done|]. split; [done|].
    exists [Ev_pool_alloc idx (Some p); Ev_split_page p o].
    split; [cbn [log trace]; by rewrite T, <- app_assoc | by repeat constructor].
  - eexists p, pool', _. split; [reflexivity|].
    split; [done|]. split; [done|]. split; [done|].
    exact (from_pools_after_one (Ev_pool_alloc idx (Some p)) w w1 I T).
Qed.

(** [alloc_largest_available] takes the first order that fits from its
    pool, when the pool holds a run and no other thread interferes. *)
Lemma alloc_largest_available_from_hit os buffer size max_order from_pool w o idx pool :
  ion_buffer_cached buffer = false -> others w = [] ->
  List.find (eligible size max_order) os = Some o ->
  order_to_index o = Ok idx ->
  pools w !! idx = Some pool -> 0 < pool_count pool ->
  exists p pool' w',
    alloc_largest_available_from os buffer size max_order from_pool w
    = Ok (Some {| pfn := p; private := o; PG_ion_frompool := true |}, w') /\
    pools w' = <[idx := pool']> (pools w) /\
    pool_count pool' = pool_count pool - 1 /\
    others w' = [] /\
    after from_pools w w'.
Proof.
  intros Hc Ho Hfind Hi Hp Hn. revert from_pool.
  induction os as [|o1 os IH]; intros from_pool; [discriminate|].
  cbn [List.find alloc_largest_available_from] in *. unfold eligible in Hfind at 1.
  destruct (size <? order_to_size o1); cbn [negb andb] in Hfind; [by apply IH|].
  destruct (max_order <? o1); cbn [negb andb] in Hfind; [by apply IH|].
  injection Hfind as ->. rewrite Hc. cbn [negb].
  destruct (alloc_buffer_page_hit buffer o idx pool w Hc Hi Hp Hn)
    as (p & pool' & w1 & E & P & C & O & A).
  exists p, pool', w1.
  assert ((0 <? high_count pool) || (0 <? low_count pool) = true) as Hseen.
  { unfold pool_count in Hn. apply orb_true_iff.
    destruct (Z.ltb_spec 0 (high_count pool)); [by left | right].
    apply Z.ltb_lt. unfold high_count, low_count in *. lia. }
  unfold bind, get_pool, preempt. rewrite Hi. cbn [lift]. rewrite Hp, Ho, Hseen.
  cbn [ret]. rewrite E.
  split; [reflexivity|]. split; [done|]. split; [done|]. split; [congruence | done].
Qed.

Lemma occurs_cons_eq o l : occurs o (o :: l) = occurs o l + 1.
Proof. unfold occurs. rewrite count_occ_cons_eq by done. lia. Qed.

Lemma occurs_cons_le o o' l : occurs o l <= occurs o (o' :: l).
Proof.
  unfold occurs. cbn [count_occ]. destruct (Z.eq_dec o' o); lia.
Qed.

Lemma occurs_cons_ne o o' l : o' <> o -> occurs o (o' :: l) = occurs o l.
Proof. intros H. unfold occurs. by rewrite count_occ_cons_neq. Qed.

Lemma occurs_nonneg o l : 0 <= occurs o l.
Proof. unfold occurs. lia. Qed.

Lemma stocked_head o l idx w :
  stocked (o :: l) w -> orders !! idx = Some o ->
  exists pool, pools w !! idx = Some pool /\ 0 < pool_count pool.
Proof.
  intros Hs Hi. specialize (Hs idx o Hi). rewrite occurs_cons_eq in Hs.
  pose proof (occurs_nonneg o l). unfold stock in Hs.
  destruct (pools w !! idx) as [pool|]; [|lia]. exists pool. split; [done | lia].
Qed.

Lemma stocked_tail o l idx pool pool' w w' :
  stocked (o :: l) w -> orders !! idx = Some o ->
  pools w !! idx = Some pool ->
  pools w' = <[idx := pool']> (pools w) ->
  pool_count pool' = pool_count pool - 1 ->
  stocked l w'.
Proof.
  intros Hs Hi Hp Hp' Hc idx' o' Hi'. specialize (Hs idx' o' Hi'). unfold stock in *.
  rewrite Hp'. destruct (decide (idx' = idx)) as [->|Hne].
  - rewrite list_lookup_insert_eq by (by eapply lookup_lt_Some).
    rewrite Hp in Hs. assert (o' = o) as -> by congruence.
    rewrite occurs_cons_eq in Hs. lia.
  - rewrite list_lookup_insert_ne by done. pose proof (occurs_cons_le o' o l). lia.
Qed.

Lemma order_to_index_lookup o idx : order_to_index o = Ok idx -> orders !! idx = Some o.
Proof.
  intros H. pose proof (order_to_index_from_spec orders o 0) as S.
  unfold order_to_index in H. rewrite H in S. by destruct S as (k & [= <-] & Hk).
Qed.

(** The order that [alloc_largest_available] tries first is the head of the
    greedy packing of what remains. *)
Lemma first_eligible_greedy sr cap :
  0 < sr < 2 ^ 31 -> (PAGE_SIZE | sr) -> 0 <= cap ->
  (forall o, o ∈ orders -> cap < o -> sr < PAGE_SIZE * 2 ^ o) ->
  exists o,
    List.find (eligible (ULONG sr) cap) orders = Some o /\
    o ∈ orders /\ 0 <= o /\
    (forall o', o' ∈ orders -> o < o' -> sr < PAGE_SIZE * 2 ^ o') /\
    greedy (sr / PAGE_SIZE) = o :: greedy (sr / PAGE_SIZE - 2 ^ o).
Proof.
  intros Hsr [q ->] Hcap Hinv. rewrite ULONG_small by lia.
  assert (8 ∈ orders /\ 4 ∈ orders /\ 0 ∈ orders) as (H8 & H4 & H0)
    by (unfold orders; rewrite !elem_of_cons; tauto).
  pose proof (Hinv 8 H8) as I8. pose proof (Hinv 4 H4) as I4.
  rewrite PAGE_SIZE_eq in *. rewrite Z.div_mul by lia.
  unfold orders at 1. cbn [List.find]. unfold eligible.
  change (order_to_size 8) with 1048576. change (order_to_size 4) with 65536.
  change (order_to_size 0) with 4096.
  assert (forall o, o ∈ orders -> 2 ^ o <= q ->
            (forall o', o' ∈ orders -> o < o' -> q * 4096 < 4096 * 2 ^ o') ->
            greedy q = o :: greedy (q - 2 ^ o)) as Hstep.
  { intros o Ho Hfit Hbig. apply greedy_step; [done | done |].
    intros o' Ho' Hlt. specialize (Hbig o' Ho' Hlt).
    assert (0 < 2 ^ o') by (apply orders_cases in Ho' as [-> | [-> | ->]]; lia). lia. }
  destruct (Z.ltb_spec (q * 4096) 1048576) as [S8|S8]; cbn [negb andb];
    [|destruct (Z.ltb_spec cap 8) as [C8|C8]; cbn [negb andb]].
  3:{ exists 8. split; [done|]. split; [done|]. split; [lia|]. split.
      - intros o' Ho' Hlt. apply orders_cases in Ho' as [-> | [-> | ->]]; lia.
      - apply Hstep; [done | lia |].
        intros o' Ho' Hlt. apply orders_cases in Ho' as [-> | [-> | ->]]; lia. }
  all: assert (q * 4096 < 4096 * 2 ^ 8) as L8 by lia;
    (destruct (Z.ltb_spec (q * 4096) 65536) as [S4|S4]; cbn [negb andb];
     [|destruct (Z.ltb_spec cap 4) as [C4|C4]; cbn [negb andb]]).
  all: try (exists 4; split; [done|]; split; [done|]; split; [lia|]; split;
            [intros o' Ho' Hlt; apply orders_cases in Ho' as [-> | [-> | ->]]; lia
            | apply Hstep; [done | lia |];
              intros o' Ho' Hlt; apply orders_cases in Ho' as [-> | [-> | ->]]; lia]).
  all: assert (q * 4096 < 4096 * 2 ^ 4) as L4 by lia;
    (destruct (Z.ltb_spec (q * 4096) 4096) as [S0|S0]; [lia|]);
    (destruct (Z.ltb_spec cap 0) as [C0|C0]; [lia|]); cbn [negb andb];
    exists 0; (split; [done|]); (split; [done|]); (split; [lia|]); split;
      [intros o' Ho' Hlt; apply orders_cases in Ho' as [-> | [-> | ->]]; lia
      | apply Hstep; [done | lia |];
        intros o' Ho' Hlt; apply orders_cases in Ho' as [-> | [-> | ->]]; lia].
Qed.

(** With runs in stock for the greedy packing of what remains, the loop asks
    the host for nothing and labels every run. *)
Lemma alloc_loop_stocked fuel buffer sr cap pages i w fin pages' i' w' :
  alloc_loop fuel buffer sr cap pages i w = Ok ((fin, pages', i'), w') ->
  ion_buffer_cached buffer = false -> others w = [] ->
  0 <= sr < 2 ^ 31 -> (PAGE_SIZE | sr) -> 0 <= cap ->
  (forall o, o ∈ orders -> cap < o -> sr < PAGE_SIZE * 2 ^ o) ->
  stocked (greedy (sr / PAGE_SIZE)) w ->
  fin = true /\
  (exists new, pages' = pages ++ new /\
               Forall (fun pg => ion_get_from_pool pg = true) new) /\
  after from_pools w w'.
Proof.
  intros H Hc. revert sr cap pages i w H.
  induction fuel as [|fuel IH]; intros sr cap pages i w H Ho Hsr Hdiv Hcap Hinv Hst;
    cbn [alloc_loop] in H; destruct (Z.ltb_spec 0 sr) as [Hpos|Hneg];
    try discriminate;
    try (inv_ok H; injection H as <- <- _; split; [done|]; split; [|reflexivity];
         exists []; by rewrite app_nil_r).
  destruct (first_eligible_greedy sr cap) as (o & Hfind & Hin & Ho0 & Hbig & Hg);
    [lia | done .. |].
  destruct (order_to_index_Ok o Hin) as (idx & Hi & Hlook).
  rewrite Hg in Hst.
  destruct (stocked_head o _ idx w Hst Hlook) as (pool & Hp & Hn).
  destruct (alloc_largest_available_from_hit orders buffer (ULONG sr) cap false w o idx pool
              Hc Ho Hfind Hi Hp Hn) as (p & pool' & w1 & E & P & C & O & A).
  unfold bind in H. unfold alloc_largest_available in H. rewrite E in H.
  cbn [ion_page_order private] in H.
  assert (order_to_size o <= ULONG sr) as Hfit.
  { apply List.find_some in Hfind as [_ He]. unfold eligible in He.
    apply andb_true_iff in He as [He _]. apply negb_true_iff, Z.ltb_ge in He. done. }
  destruct (alloc_loop_step sr o) as (Es & Hsr' & Hdiv' & Hq); [lia | done .. |].
  cbv zeta in Es, Hsr', Hdiv', Hq.
  assert (0 < 2 ^ o <= 256) as Hrun
    by (apply orders_cases in Hin as [-> | [-> | ->]]; lia).
  apply IH in H as (-> & (new & -> & Hall) & A').
  - split; [done|]. split; [|by etransitivity].
    exists ({| pfn := p; private := o; PG_ion_frompool := true |} :: new).
    rewrite <- app_assoc. split; [done|]. by constructor.
  - done.
  - rewrite Es. rewrite PAGE_SIZE_eq in *. lia.
  - done.
  - done.
  - intros o' Ho' Hlt. rewrite Es. specialize (Hbig o' Ho' Hlt).
    rewrite PAGE_SIZE_eq in *. lia.
  - rewrite Hq. by eapply stocked_tail.
Qed.

Lemma orders_NoDup : NoDup orders.
Proof. unfold orders. repeat constructor; rewrite ?elem_of_cons, ?elem_of_nil; lia. Qed.

(** The release of the entries of a buffer that is not cached stocks the
    pools: the pool of each order grows by the entries of that order. *)
Lemma free_entries_stock buffer l w w' :
  ion_buffer_cached buffer = false ->
  Forall entry_ok l ->
  for_each l (fun sg => free_buffer_page buffer (sg_page sg) (get_order (sg_dma_len sg))) w
  = Ok (tt, w') ->
  forall idx o, orders !! idx = Some o ->
    stock w' idx = stock w idx + occurs o (entry_order <$> l).
Proof.
  intros Hc Hl. revert w. induction Hl as [|sg l Hsg _ IH]; intros w H idx o Hi;
    cbn [for_each] in H.
  - inv_ok H. unfold occurs. simpl. lia.
  - inv_ok H. destruct a. rewrite (IH _ Hk idx o Hi), fmap_cons.
    apply entry_ok_order in Hsg as (p & Ep & Ho).
    unfold free_buffer_page in Hm. rewrite Hc, Ep in Hm. cbn [negb] in Hm.
    destruct (order_to_index_Ok _ Ho) as (idx' & Hi' & Hlook).
    unfold bind at 1 in Hm. rewrite Hi' in Hm. cbn [lift] in Hm.
    unfold bind at 1 in Hm. cbn [deref] in Hm.
    apply ion_page_pool_free_Ok in Hm as (pool & pool' & Hp & Hp' & Hcount & _).
    unfold stock. rewrite Hp'. unfold entry_order at 2.
    destruct (decide (idx = idx')) as [->|Hne].
    + rewrite list_lookup_insert_eq by (by eapply lookup_lt_Some). rewrite Hp.
      assert (get_order (sg_dma_len sg) = o) as -> by congruence.
      rewrite occurs_cons_eq. lia.
    + rewrite list_lookup_insert_ne by done.
      rewrite occurs_cons_ne; [lia|]. intros E. apply Hne.
      rewrite E in Hlook. eapply NoDup_lookup; [apply orders_NoDup | done ..].
Qed.

Lemma allocate_keeps_flags buffer size align flags w r b' w' :
  ion_system_heap_allocate buffer size align flags w = Ok ((r, b'), w') ->
  buf_flags b' = buf_flags buffer.
Proof.
  intros H. apply ion_system_heap_allocate_inv in H
    as (fin & pages & i & w1 & Hloop
        & [(w2 & _ & Herr) | (-> & _ & _ & n & l & all & En & Hfill & ta & ->)]).
  - apply alloc_loop_of_allocate in Hloop as (_ & Hall & _).
    by apply allocate_err_Ok in Herr as (_ & -> & _).
  - cbn [set_priv_virt buf_flags]. by destruct (_ || _).
Qed.

Lemma keeps_free_alone buffer : keeps alone (ion_system_heap_free buffer).
Proof.
  unfold ion_system_heap_free.
  apply keeps_bind; [apply _ | |].
  { apply keeps_if; [|apply keeps_ret, _]. unfold ion_heap_buffer_zero.
    destruct (buf_sg_table buffer); [apply keeps_emit_alone | by intros w a w' H]. }
  intros _. apply keeps_bind; [apply _ | apply keeps_deref, _ |]. intros t.
  apply keeps_bind; [apply _ | |].
  { apply keeps_for_each; [apply _|]. intros sg. apply keeps_free_buffer_page_alone. }
  intros _. apply keeps_bind; [apply _ | apply keeps_emit_alone |]. intros _.
  apply keeps_emit_alone.
Qed.

Lemma release_events_from_pools buffer pages :
  Forall from_pools (pages ≫= release_events buffer).
Proof.
  induction pages as [|pg pages IH]; [constructor|]. rewrite bind_cons.
  apply Forall_app. split; [|done]. unfold release_events, free_events.
  destruct (ion_buffer_cached buffer); cbn [negb].
  - destruct (ion_buffer_fault_user_mappings buffer).
    + apply Forall_fmap, Forall_forall. by intros i _.
    + by repeat constructor.
  - destruct (order_to_index (ion_page_order pg)); by repeat constructor.
Qed.

Lemma stock_nonneg w idx : 0 <= stock w idx.
Proof.
  unfold stock. destruct (pools w !! idx); [|done].
  unfold pool_count, high_count, low_count. lia.
Qed.

(** X24.  The pools serve the next allocation.  A buffer that is neither
    cached nor split, allocated while every request was granted, is
    released; with no other thread at work, the next allocation of the same
    size for a buffer that is not cached takes every run from the pools: it
    does not call [alloc_pages], and when it succeeds the buffer is ready at
    once, every run carrying the pool label. *)
Theorem released_runs_serve_next_allocation
    buffer buffer2 size align flags align2 flags2 w b1 w1 w2 r b2 w3 :
  heap_ok w -> others w = [] ->
  ion_buffer_cached buffer = false ->
  ion_buffer_fault_user_mappings buffer = false ->
  ion_buffer_cached buffer2 = false ->
  0 < size <= 2 ^ 31 - PAGE_SIZE ->
  ion_system_heap_allocate buffer size align flags w = Ok ((0, b1), w1) ->
  all_granted w w1 = true ->
  ion_system_heap_free (mapped b1) w1 = Ok (tt, w2) ->
  ion_system_heap_allocate buffer2 size align2 flags2 w2 = Ok ((r, b2), w3) ->
  Forall from_pools (calls w2 w3) /\ (r = 0 -> ready b2 = true).
Proof.
  intros Hw Ho Hc Hs Hc2 Hsize H1 Hg H3 H4.
  pose proof (keeps_allocate_alone _ _ _ _ _ _ _ H1 Ho) as Ho1.
  pose proof (keeps_free_alone _ _ _ _ H3 Ho1) as Ho2.
  pose proof (allocate_keeps_flags _ _ _ _ _ _ _ _ H1) as Hflags.
  destruct (allocate_all_granted _ _ _ _ _ _ _ _ Hsize H1 Hg)
    as (_ & pages & wl & [i Hloop] & Hgreedy & ta & Hpriv).
  pose proof (alloc_loop_of_allocate _ _ _ _ _ _ _ Hloop) as (_ & Hall & _).
  rewrite Hs in Hpriv. cbn [entries] in Hpriv.
  set (t := {| table_addr := ta; sgl := run_entry <$> pages;
               nents := Z.of_nat (length (run_entry <$> pages)) |}) in *.
  assert (buf_sg_table (mapped b1) = Some t) as Ht
    by (unfold mapped, ion_system_heap_map_dma; cbn [buf_sg_table]; by rewrite Hpriv).
  assert (visited t = run_entry <$> pages) as Hv
    by (unfold visited, t; cbn [sgl nents]; by rewrite Nat2Z.id, firstn_all).
  assert (Forall entry_ok (visited t)) as Hok
    by (rewrite Hv; by apply (entries_ok false)).
  assert (ion_buffer_cached (mapped b1) = false) as Hc1
    by (unfold ion_buffer_cached, mapped; cbn [buf_flags]; by rewrite Hflags).
  (* the release stocks the pools *)
  assert (stocked (greedy (PAGE_ALIGN size / PAGE_SIZE)) w2) as Hst.
  { rewrite (free_unfold (mapped b1) t Ht) in H3. inv_ok H3. inv_ok Hk.
    destruct a0. unfold sg_free_table, kfree, bind, emit in Hk0. injection Hk0 as <-.
    intros idx o Hi. unfold stock. cbn [log pools]. fold (stock w4 idx).
    rewrite (free_entries_stock _ _ _ _ Hc1 Hok Hm0 idx o Hi).
    assert (entry_order <$> visited t = greedy (PAGE_ALIGN size / PAGE_SIZE)) as ->.
    { rewrite Hv, <- Hgreedy, <- list_fmap_compose. apply Forall_fmap_ext_1.
      eapply List.Forall_impl; [|exact Hall]. intros pg Hpg. unfold compose, entry_order.
      unfold sg_dma_len, run_entry, run_bytes. cbn [sg_length].
      by apply get_order_extent. }
    pose proof (stock_nonneg w0 idx). lia. }
  (* the next allocation *)
  pose proof H4 as H4'.
  apply allocate_calls in H4
    as (fin & pages2 & i2 & wl2 & mid & tail & Hloop2 & T & Fm & Hcase).
  assert (0 < PAGE_ALIGN size < 2 ^ 31) as Hpad.
  { rewrite PAGE_SIZE_eq in Hsize.
    rewrite PAGE_ALIGN_pad, PAGE_SIZE_eq by (rewrite PAGE_SIZE_eq; lia).
    pose proof (Z.mul_div_le (size + 4096 - 1) 4096).
    pose proof (Z.mod_pos_bound (size + 4096 - 1) 4096).
    pose proof (Z.div_mod (size + 4096 - 1) 4096). lia. }
  destruct (alloc_loop_stocked _ _ _ _ _ _ _ _ _ _ _ Hloop2 Hc2 Ho2)
    as (-> & (new & Enew & Hlab) & (evs & Te & Fe)).
  - rewrite LONG_small by lia. lia.
  - apply size_remaining_pages.
  - simpl. lia.
  - intros o Hin Hlt. simpl in Hlt. apply orders_cases in Hin as [-> | [-> | ->]]; lia.
  - by rewrite LONG_small by lia.
  - rewrite app_nil_l in Enew. subst new. split.
    + assert (trace w3 = trace w2 ++ evs ++ mid ++ tail) as T'
        by (by rewrite T, Te, <- !app_assoc).
      rewrite (calls_after _ _ _ T'). apply Forall_app. split; [done|].
      apply Forall_app. split.
      * eapply List.Forall_impl; [|exact Fm]. by intros [].
      * destruct Hcase as [[_ [-> | [t' ->]]] | [_ ->]];
          [constructor | by repeat constructor | apply release_events_from_pools].
    + intros ->. apply ion_system_heap_allocate_inv in H4'
        as (fin & pages3 & i3 & wl3 & Hloop3 & Hcase3).
      rewrite Hloop2 in Hloop3. injection Hloop3 as <- <- <- <-.
      destruct Hcase3 as [(wx & _ & Herr) | (_ & _ & _ & n & l & all & _ & Hfill & ta2 & ->)].
      * pose proof (alloc_loop_of_allocate _ _ _ _ _ _ _ Hloop2) as (_ & Hall2 & _).
        apply allocate_err_Ok in Herr as (Hr & _); [discriminate | done].
      * apply fill_table_all in Hfill. cbn [andb] in Hfill.
        assert (forallb ion_get_from_pool pages2 = true) as Hfp.
        { apply List.forallb_forall. rewrite List.Forall_forall in Hlab. exact Hlab. }
        rewrite Hfp in Hfill. subst all. reflexivity.
Qed.

Lemma released_runs_serve_next_allocation_witness :
  heap_ok world_reuse /\ others world_reuse = [] /\
  ion_buffer_cached buffer_68k = false /\
  ion_buffer_fault_user_mappings buffer_68k = false /\
  ion_buffer_cached buffer_68k = false /\
  0 < 69632 <= 2 ^ 31 - PAGE_SIZE /\
  ion_system_heap_allocate buffer_68k 69632 0 0 world_reuse
    = Ok ((0, buffer_reuse1), world_reuse1) /\
  all_granted world_reuse world_reuse1 = true /\
  ion_system_heap_free (mapped buffer_reuse1) world_reuse1 = Ok (tt, world_reuse2) /\
  ion_system_heap_allocate buffer_68k 69632 0 0 world_reuse2
    = Ok ((0, buffer_reuse3), world_reuse3) /\
  Forall from_pools (calls world_reuse2 world_reuse3) /\
  (0 = 0 -> ready buffer_reuse3 = true).
Proof.
  split; [reflexivity|]. split; [reflexivity|]. split; [reflexivity|].
  split; [reflexivity|]. split; [reflexivity|]. split; [rewrite PAGE_SIZE_eq; lia|].
  split; [vm_compute; reflexivity|]. split; [vm_compute; reflexivity|].
  split; [vm_compute; reflexivity|]. split; [vm_compute; reflexivity|].
  apply (released_runs_serve_next_allocation buffer_68k buffer_68k 69632 0 0 0 0
           world_reuse buffer_reuse1 world_reuse1 world_reuse2 0 buffer_reuse3
           world_reuse3);
    [reflexivity | reflexivity | reflexivity | reflexivity | reflexivity
    | rewrite PAGE_SIZE_eq; lia | vm_compute; reflexivity | vm_compute; reflexivity
    | vm_compute; reflexivity | vm_compute; reflexivity].
Defined.

(** * Orders and positions, splitting, and what a release calls *)

(** X26.  [order_to_index] and the order set are inverse to each other:
    [order_to_index(o)] returns [i] exactly when [orders[i]] is [o]; the
    pool that serves an order sits at the position of the order in the
    set. *)
Theorem order_to_index_inverse o idx :
  order_to_index o = Ok idx <-> orders !! idx = Some o.
Proof.
  split; [apply order_to_index_lookup|]. intros H.
  assert (o ∈ orders) as Ho by (by eapply list_elem_of_lookup_2).
  destruct (order_to_index_Ok o Ho) as (i & E & Hi). rewrite E. f_equal.
  eapply NoDup_lookup; [apply orders_NoDup | done ..].
Qed.

Lemma splitting_same w w' : trace w' = trace w -> splitting [] w w'.
Proof. intros E. exists []. by rewrite app_nil_r. Qed.

Lemma splitting_trans l1 l2 w w1 w2 :
  splitting l1 w w1 -> splitting l2 w1 w2 -> splitting (l1 ++ l2) w w2.
Proof.
  intros (e1 & T1 & K1) (e2 & T2 & K2). exists (e1 ++ e2).
  by rewrite T2, T1, <- app_assoc, !bind_app, K1, K2.
Qed.

#[local] Instance splitting_nil_preorder : PreOrder (splitting []).
Proof.
  split; [intros w; by apply splitting_same|].
  intros w1 w2 w3 H1 H2. apply (splitting_trans [] [] w1 w2 w3 H1 H2).
Qed.

Lemma splitting_after (P : event -> Prop) w w' :
  (forall e, P e -> splits e = []) -> after P w w' -> splitting [] w w'.
Proof.
  intros HP (evs & T & F). exists evs. split; [done|]. clear T.
  induction F as [|e evs He _ IH]; [done|]. by rewrite bind_cons, (HP e He), IH.
Qed.

Lemma keeps_alloc_pages_unsplit gfp order :
  keeps (after (fun e => splits e = [])) (alloc_pages gfp order).
Proof.
  intros w a w' H. unfold alloc_pages in H. injection H as _ <-.
  eexists [_]. split; [reflexivity | by repeat constructor].
Qed.

Lemma keeps_ion_page_pool_alloc_unsplit idx :
  keeps (after (fun e => splits e = [])) (ion_page_pool_alloc idx).
Proof.
  unfold ion_page_pool_alloc.
  apply keeps_bind; [apply _ | apply keeps_get_pool_paging |]. intros pool.
  apply keeps_bind; [apply _ | by apply keeps_emit_after |]. intros _.
  destruct (high_items pool), (low_items pool);
    first [apply keeps_alloc_pages_unsplit
          | apply keeps_bind; [apply _ | apply keeps_put_pool_paging |];
            intros _; apply keeps_ret, _].
Qed.

Lemma splitting_alloc_buffer_page buffer o w r w' :
  alloc_buffer_page buffer o w = Ok (r, w') ->
  splitting (if ion_buffer_fault_user_mappings buffer
             then (fun pg => (pfn pg, o)) <$> option_list r else []) w w'.
Proof.
  unfold alloc_buffer_page. intros H. inv_ok H. inv_ok Hm. inv_ok Hk.
  assert (splitting [] w w0) as S1.
  { apply (splitting_after (fun e => splits e = [])); [done|].
    destruct (ion_buffer_cached buffer); cbn [negb] in Hm0.
    - by eapply keeps_alloc_pages_unsplit.
    - by eapply keeps_ion_page_pool_alloc_unsplit. }
  destruct a0 as [p|].
  - inv_ok Hk0. inv_ok Hk. destruct (ion_buffer_fault_user_mappings buffer).
    + unfold split_page in Hm1. inv_ok Hm1.
      apply (splitting_trans [] [(p, o)] w w0 _ S1). by exists [Ev_split_page p o].
    + by inv_ok Hm1.
  - inv_ok Hk0. by destruct (ion_buffer_fault_user_mappings buffer).
Qed.

Lemma splitting_alloc_largest_available_from os buffer size max_order from_pool w r w' :
  alloc_largest_available_from os buffer size max_order from_pool w = Ok (r, w') ->
  splitting (if ion_buffer_fault_user_mappings buffer
             then run_id <$> option_list r else []) w w'.
Proof.
  revert from_pool w. induction os as [|o os IH]; intros from_pool w H;
    cbn [alloc_largest_available_from] in H.
  - inv_ok H.
    destruct (ion_buffer_fault_user_mappings buffer); by apply splitting_same.
  - destruct (size <? order_to_size o); [by eapply IH|].
    destruct (max_order <? o); [by eapply IH|].
    inv_ok H.
    assert (splitting [] w w0) as A1.
    { apply (splitting_after (fun e => splits e = [])); [done|].
      eapply (keeps_if (after (fun e => splits e = []))); [| |exact Hm];
        [|apply keeps_ret, _].
      apply keeps_bind; [apply _ | apply keeps_lift, _ |]. intros idx.
      apply keeps_bind; [apply _ | apply keeps_get_pool_paging |]. intros pool.
      apply keeps_bind; [apply _ | apply keeps_preempt_paging |]. intros _.
      apply keeps_ret, _. }
    inv_ok Hk. apply splitting_alloc_buffer_page in Hm0. destruct a0 as [pg|].
    + inv_ok Hk0.
      assert (((fun pg0 : page => (pfn pg0, o)) <$> option_list (Some pg))
              = run_id <$> option_list
                  (Some (if a then ion_set_from_pool (set_page_order pg o)
                         else set_page_order pg o))) as E
        by (by destruct a).
      rewrite <- E. destruct (ion_buffer_fault_user_mappings buffer);
        by apply (splitting_trans [] _ w w0 _ A1).
    + apply IH in Hk0.
      assert (splitting [] w w1) as A2.
      { destruct (ion_buffer_fault_user_mappings buffer);
          by apply (splitting_trans [] [] w w0 w1 A1). }
      destruct (ion_buffer_fault_user_mappings buffer);
        by apply (splitting_trans [] _ w w1 w' A2).
Qed.

Lemma splitting_alloc_loop fuel buffer sr max_order pages i w fin pages' i' w' :
  alloc_loop fuel buffer sr max_order pages i w = Ok ((fin, pages', i'), w') ->
  exists new,
    pages' = pages ++ new /\
    splitting (if ion_buffer_fault_user_mappings buffer then run_id <$> new else []) w w'.
Proof.
  revert sr max_order pages i w. induction fuel as [|fuel IH];
    intros sr max_order pages i w H; cbn [alloc_loop] in H; destruct (0 <? sr);
    try discriminate;
    try (inv_ok H; injection H as _ <- _; exists []; rewrite app_nil_r;
         split; [done|]; destruct (ion_buffer_fault_user_mappings buffer);
         by apply splitting_same).
  inv_ok H. apply splitting_alloc_largest_available_from in Hm. destruct a as [pg|].
  - apply IH in Hk as (new & -> & Ht). exists (pg :: new). rewrite <- app_assoc.
    split; [done|]. rewrite fmap_cons.
    destruct (ion_buffer_fault_user_mappings buffer).
    + exact (splitting_trans [run_id pg] (run_id <$> new) w w0 w' Hm Ht).
    + exact (splitting_trans [] [] w w0 w' Hm Ht).
  - inv_ok Hk. injection Hk as _ <- _. exists []. rewrite app_nil_r. split; [done|].
    by destruct (ion_buffer_fault_user_mappings buffer).
Qed.

(** X27.  [split_page] is called for the runs of a buffer with
    [FAULT_USER_MAPPINGS] and for no other: during a call of
    [ion_system_heap_allocate] each run of the run list is split once, with
    its own page and order and in pack order, when the flag is set, also the
    runs that a failing call hands back; without the flag nothing is
    split. *)
Theorem allocate_splits_each_run buffer size align flags w r b' w' :
  ion_system_heap_allocate buffer size align flags w = Ok ((r, b'), w') ->
  exists fin pages w1,
    packs buffer size w fin pages w1 /\
    calls w w' ≫= splits
    = (if ion_buffer_fault_user_mappings buffer then run_id <$> pages else []).
Proof.
  intros H.
  apply allocate_calls in H as (fin & pages & i & w1 & mid & tail & Hloop & T & Fm & Hcase).
  exists fin, pages, w1. split; [by exists i|].
  apply splitting_alloc_loop in Hloop as (new & E & evs & T1 & K1).
  rewrite app_nil_l in E. subst new.
  assert (trace w' = trace w ++ evs ++ mid ++ tail) as T'
    by (by rewrite T, T1, <- !app_assoc).
  rewrite (calls_after _ _ _ T'), !bind_app, K1.
  assert (mid ≫= splits = []) as ->.
  { clear -Fm. induction Fm as [|e mid He _ IH]; [done|].
    rewrite bind_cons, IH. by destruct e. }
  assert (tail ≫= splits = []) as ->.
  { destruct Hcase as [[_ [-> | [t ->]]] | [_ ->]]; [done | done |].
    clear. induction pages as [|pg pages IH]; [done|]. rewrite bind_cons, bind_app, IH.
    rewrite app_nil_r. unfold release_events, free_events.
    destruct (ion_buffer_cached buffer); cbn [negb].
    - destruct (ion_buffer_fault_user_mappings buffer); [|done].
      induction (seqZ 0 (2 ^ ion_page_order pg)) as [|j l IHl]; [done|].
      by rewrite fmap_cons, bind_cons, IHl.
    - by destruct (order_to_index (ion_page_order pg)). }
  by rewrite !app_nil_r.
Qed.

Lemma allocate_splits_each_run_witness :
  ion_system_heap_allocate buffer_split 65536 0 0 world_fresh
    = Ok ((0, buffer_split'), world_split') /\
  exists fin pages w1,
    packs buffer_split 65536 world_fresh fin pages w1 /\
    calls world_fresh world_split' ≫= splits
    = (if ion_buffer_fault_user_mappings buffer_split then run_id <$> pages else []).
Proof.
  split; [vm_compute; reflexivity|].
  apply (allocate_splits_each_run buffer_split 65536 0 0 world_fresh 0
           buffer_split' world_split').
  vm_compute; reflexivity.
Defined.

Lemma keeps_free_buffer_page_releasing buffer pg o :
  keeps (after releasing) (free_buffer_page buffer pg o).
Proof.
  unfold free_buffer_page. apply keeps_if; [|apply keeps_if].
  - apply keeps_bind; [apply _ | apply keeps_lift, _ |]. intros idx.
    apply keeps_bind; [apply _ | apply keeps_deref, _ |]. intros p.
    by apply keeps_ion_page_pool_free.
  - apply keeps_for_each; [apply _|]. intros i.
    apply keeps_bind; [apply _ | apply keeps_deref, _ |]. intros p.
    by apply keeps_emit_after.
  - apply keeps_bind; [apply _ | apply keeps_deref, _ |]. intros p.
    by apply keeps_emit_after.
Qed.

Lemma keeps_free_releasing buffer : keeps (after releasing) (ion_system_heap_free buffer).
Proof.
  unfold ion_system_heap_free.
  apply keeps_bind; [apply _ | |].
  { apply keeps_if; [|apply keeps_ret, _]. unfold ion_heap_buffer_zero.
    destruct (buf_sg_table buffer); [by apply keeps_emit_after | by intros w a w' H]. }
  intros _. apply keeps_bind; [apply _ | apply keeps_deref, _ |]. intros t.
  apply keeps_bind; [apply _ | |].
  { apply keeps_for_each; [apply _|]. intros sg. apply keeps_free_buffer_page_releasing. }
  intros _. apply keeps_bind; [apply _ | by apply keeps_emit_after |]. intros _.
  by apply keeps_emit_after.
Qed.

(** X28.  [ion_system_heap_free] asks for nothing: every call it makes is
    the zeroing of the buffer or a release (of a page to a pool or to the
    host, of the entry array, of the table header); it calls neither
    [alloc_pages] nor [kmalloc] nor [sg_alloc_table] nor the allocation of a
    pool, so a release cannot fail for lack of memory. *)
Theorem free_asks_for_nothing buffer w w' :
  ion_system_heap_free buffer w = Ok (tt, w') ->
  exists evs, trace w' = trace w ++ evs /\ Forall releasing evs.
Proof. intros H. exact (keeps_free_releasing buffer w tt w' H). Qed.

Lemma free_asks_for_nothing_witness :
  ion_system_heap_free (mapped buffer_68k') world_68k' = Ok (tt, world_68k'') /\
  exists evs, trace world_68k'' = trace world_68k' ++ evs /\ Forall releasing evs.
Proof.
  split; [vm_compute; reflexivity|].
  apply (free_asks_for_nothing (mapped buffer_68k') world_68k' world_68k'').
  vm_compute; reflexivity.
Defined.

(** * The claims on the pool bypass, on split pages and on the contiguous heap *)

(** ** The runs of a cached buffer come from the host *)

Lemma granting_same w w' : trace w' = trace w -> granting [] w w'.
Proof. intros E. exists []. by rewrite app_nil_r. Qed.

Lemma granting_trans l1 l2 w w1 w2 :
  granting l1 w w1 -> granting l2 w1 w2 -> granting (l1 ++ l2) w w2.
Proof.
  intros (e1 & T1 & K1) (e2 & T2 & K2). exists (e1 ++ e2).
  by rewrite T2, T1, <- app_assoc, bind_app, K1, K2.
Qed.

Lemma granting_alloc_pages gfp o w r w' :
  alloc_pages gfp o w = Ok (r, w') ->
  granting (option_list ((fun p => (gfp, o, p)) <$> r)) w w'.
Proof.
  unfold alloc_pages. intros H. injection H as <- <-. eexists [_].
  split; [reflexivity|]. by destruct (host_pages w) as [|[p|] ?].
Qed.

Section CachedRuns.
Context (buffer : ion_buffer) (Hcached : ion_buffer_cached buffer = true).

Lemma granting_alloc_buffer_page o w r w' :
  alloc_buffer_page buffer o w = Ok (r, w') ->
  granting (option_list ((fun pg => (order_gfp o, o, pfn pg)) <$> r)) w w'.
Proof.
  unfold alloc_buffer_page. rewrite Hcached. cbn [negb]. intros H.
  inv_ok H. inv_ok Hm. inv_ok Hk. apply granting_alloc_pages in Hm0.
  destruct a0 as [p|]; [|by inv_ok Hk0].
  inv_ok Hk0. inv_ok Hk. cbn [fmap option_fmap option_map option_list page_at pfn] in *.
  change (option_list (Some (order_gfp o, o, p))) with ([(order_gfp o, o, p)] ++ []).
  eapply granting_trans; [exact Hm0|].
  destruct (ion_buffer_fault_user_mappings buffer).
  - unfold split_page in Hm1. inv_ok Hm1. by eexists [_].
  - inv_ok Hm1. by apply granting_same.
Qed.

Lemma granting_alloc_largest_available_from os size max_order from_pool w r w' :
  alloc_largest_available_from os buffer size max_order from_pool w = Ok (r, w') ->
  granting (option_list (run_request <$> r)) w w'.
Proof.
  revert from_pool w. induction os as [|o os IH]; intros from_pool w H;
    cbn [alloc_largest_available_from] in H.
  - inv_ok H. by apply granting_same.
  - destruct (size <? order_to_size o); [by eapply IH|].
    destruct (max_order <? o); [by eapply IH|].
    rewrite Hcached in H. cbn [negb] in H.
    inv_ok H. inv_ok Hm. inv_ok Hk. apply granting_alloc_buffer_page in Hm.
    destruct a as [pg|].
    + inv_ok Hk0. by destruct from_pool.
    + apply IH in Hk0. exact (granting_trans [] _ _ _ _ Hm Hk0).
Qed.

Lemma granting_alloc_loop fuel sr max_order pages i w fin pages' i' w' :
  alloc_loop fuel buffer sr max_order pages i w = Ok ((fin, pages', i'), w') ->
  exists new, pages' = pages ++ new /\ granting (run_request <$> new) w w'.
Proof.
  revert sr max_order pages i w. induction fuel as [|fuel IH];
    intros sr max_order pages i w H; cbn [alloc_loop] in H; destruct (0 <? sr);
    try discriminate;
    try (inv_ok H; injection H as _ <- _; exists []; rewrite app_nil_r;
         split; [done | by apply granting_same]).
  inv_ok H. apply granting_alloc_largest_available_from in Hm. destruct a as [pg|].
  - apply IH in Hk as (new & -> & Ht). exists (pg :: new). rewrite <- app_assoc.
    split; [done|]. rewrite fmap_cons.
    exact (granting_trans [run_request pg] _ _ _ _ Hm Ht).
  - inv_ok Hk. injection Hk as _ <- _. exists []. by rewrite app_nil_r.
Qed.
End CachedRuns.

Lemma release_events_grant_nothing buffer pages :
  (pages ≫= release_events buffer) ≫= host_run = [].
Proof.
  induction pages as [|pg pages IH]; [done|]. rewrite bind_cons, bind_app, IH, app_nil_r.
  unfold release_events, free_events.
  destruct (ion_buffer_cached buffer); cbn [negb].
  - destruct (ion_buffer_fault_user_mappings buffer); [|done].
    induction (seqZ 0 (2 ^ ion_page_order pg)) as [|i l IHl]; [done|].
    by rewrite fmap_cons, bind_cons, IHl.
  - by destruct (order_to_index (ion_page_order pg)).
Qed.

Lemma slab_events_grant_nothing mid : Forall slab_event mid -> mid ≫= host_run = [].
Proof.
  induction 1 as [|e mid He _ IH]; [done|]. rewrite bind_cons, IH. by destruct e.
Qed.

(** C8.  A buffer with the [CACHED] flag bypasses the pools, when it is
    allocated and when it is freed.  In an allocation every call is a call
    to the host or to the slab allocator, and the runs of the run list are
    the runs that the host grants to the calls of [alloc_pages], one call
    for one run and in pack order, each asked for with the high-order flag
    set for an order above 0 and with the low-order flag set for order 0.
    A release hands the run of every entry of the table to the host, in
    table order, page by page ([__free_page]) if the runs are split and in
    one piece ([__free_pages]) if not, and then gives up the table.  Neither
    makes a call into a pool, and the pools, with their [high_count] and
    [low_count], are after the call what they were before. *)
Theorem cached_bypasses_pools buffer :
  ion_buffer_cached buffer = true ->
  (forall size align flags w r b' w',
     ion_system_heap_allocate buffer size align flags w = Ok ((r, b'), w') ->
     pools w' = pools w /\
     exists evs fin pages w1,
       trace w' = trace w ++ evs /\
       Forall host_direct evs /\
       packs buffer size w fin pages w1 /\
       evs ≫= host_run = run_request <$> pages) /\
  (forall t w w',
     buf_sg_table buffer = Some t ->
     ion_system_heap_free buffer w = Ok (tt, w') ->
     pools w' = pools w /\
     trace w'
     = trace w
       ++ (visited t ≫= host_free_events (ion_buffer_fault_user_mappings buffer))
       ++ [Ev_sg_free_table (table_addr t); Ev_kfree (table_addr t)] /\
     Forall is_host_free
       (visited t ≫= host_free_events (ion_buffer_fault_user_mappings buffer))).
Proof.
  intros Hcached. split.
  - intros size align flags w r b' w' H.
    destruct (keeps_allocate_cached buffer Hcached size align flags w (r, b') w' H)
      as (Hp & evs & T & F).
    split; [done|].
    apply allocate_calls in H
      as (fin & pages & i & w1 & mid & tail & Hloop & T' & Fm & Hcase).
    exists evs, fin, pages, w1. split; [done|]. split; [done|]. split; [by exists i|].
    apply (granting_alloc_loop buffer Hcached) in Hloop as (new & E & e1 & T1 & K1).
    rewrite app_nil_l in E. subst new.
    assert (evs = e1 ++ mid ++ tail) as ->.
    { apply (app_inv_head (trace w)). by rewrite <- T, T', T1, <- app_assoc. }
    rewrite !bind_app, K1, (slab_events_grant_nothing mid Fm).
    assert (tail ≫= host_run = []) as ->; [|by rewrite app_nil_r].
    destruct Hcase as [[_ [-> | [t ->]]] | [_ ->]]; [done | done |].
    apply release_events_grant_nothing.
  - intros t w w' Ht H. exact (free_cached_Ok buffer Hcached t w w' Ht H).
Qed.

Lemma cached_bypasses_pools_witness :
  ion_buffer_cached buffer_cached = true /\
  ion_system_heap_allocate buffer_cached 1048576 0 0 world_cached
    = Ok ((0, buffer_cached'), world_cached') /\
  buf_sg_table (mapped buffer_cached') = Some table_cached /\
  ion_system_heap_free (mapped buffer_cached') world_cached' = Ok (tt, world_cached'') /\
  (pools world_cached' = pools world_cached /\
   exists evs fin pages w1,
     trace world_cached' = trace world_cached ++ evs /\
     Forall host_direct evs /\
     packs buffer_cached 1048576 world_cached fin pages w1 /\
     evs ≫= host_run = run_request <$> pages) /\
  (pools world_cached'' = pools world_cached' /\
   trace world_cached''
   = trace world_cached'
     ++ (visited table_cached
           ≫= host_free_events (ion_buffer_fault_user_mappings (mapped buffer_cached')))
     ++ [Ev_sg_free_table (table_addr table_cached);
         Ev_kfree (table_addr table_cached)] /\
   Forall is_host_free
     (visited table_cached
        ≫= host_free_events (ion_buffer_fault_user_mappings (mapped buffer_cached')))).
Proof.
  split; [reflexivity|]. split; [vm_compute; reflexivity|].
  split; [reflexivity|]. split; [vm_compute; reflexivity|]. split.
  - apply (proj1 (cached_bypasses_pools buffer_cached eq_refl)
             1048576 0 0 world_cached 0 buffer_cached' world_cached').
    vm_compute; reflexivity.
  - apply (proj2 (cached_bypasses_pools (mapped buffer_cached') eq_refl)
             table_cached world_cached' world_cached'').
    + reflexivity.
    + vm_compute; reflexivity.
Defined.

(** ** Releases to the host *)

(** Whatever [free_buffer_page] hands to the host, it hands it over for a
    cached buffer: page by page if the buffer has split pages, in one piece
    if not. *)
Lemma keeps_free_buffer_page_host_of buffer pg order :
  keeps (after (host_free_of buffer)) (free_buffer_page buffer pg order).
Proof.
  unfold free_buffer_page.
  destruct (ion_buffer_cached buffer) eqn:Hc; cbn [negb].
  - destruct (ion_buffer_fault_user_mappings buffer) eqn:Hs.
    + apply keeps_for_each; [apply _|]. intros i.
      apply keeps_bind; [apply _ | apply keeps_deref, _ |]. intros p.
      apply keeps_emit_after. by split.
    + apply keeps_bind; [apply _ | apply keeps_deref, _ |]. intros p.
      apply keeps_emit_after. by split.
  - apply keeps_bind; [apply _ | apply keeps_lift, _ |]. intros idx.
    apply keeps_bind; [apply _ | apply keeps_deref, _ |]. intros p.
    by apply keeps_ion_page_pool_free.
Qed.

Lemma keeps_free_host_of buffer :
  keeps (after (host_free_of buffer)) (ion_system_heap_free buffer).
Proof.
  unfold ion_system_heap_free.
  apply keeps_bind; [apply _ | |].
  { apply keeps_if; [|apply keeps_ret, _]. unfold ion_heap_buffer_zero.
    destruct (buf_sg_table buffer); [by apply keeps_emit_after|].
    intros w a w' H. discriminate. }
  intros _. apply keeps_bind; [apply _ | apply keeps_deref, _ |]. intros t.
  apply keeps_bind; [apply _ | |].
  { apply keeps_for_each; [apply _|]. intros sg. apply keeps_free_buffer_page_host_of. }
  intros _. apply keeps_bind; [apply _ | by apply keeps_emit_after |].
  intros _. by apply keeps_emit_after.
Qed.

(** The release of a buffer that is not cached when every entry of its
    table is one page long. *)
Lemma free_uncached_single_pages buffer t w w' :
  ion_buffer_cached buffer = false ->
  buf_sg_table buffer = Some t ->
  Forall (fun sg => sg_dma_len sg = PAGE_SIZE) (visited t) ->
  ion_system_heap_free buffer w = Ok (tt, w') ->
  exists pgs,
    sg_page <$> visited t = Some <$> pgs /\
    trace w' = trace w
               ++ (if negb (ION_FLAG_NOZEROED (buf_flags buffer))
                   then [Ev_buffer_zero t] else [])
               ++ (Ev_pool_free 2 <$> pgs)
               ++ [Ev_sg_free_table (table_addr t); Ev_kfree (table_addr t)] /\
    (forall idx, idx <> 2%nat -> pools w' !! idx = pools w !! idx) /\
    pool_count <$> (pools w' !! 2%nat)
      = (fun c => c + Z.of_nat (length (visited t))) <$> (pool_count <$> (pools w !! 2%nat)).
Proof.
  intros Hnc Ht Hall. unfold ion_system_heap_free. rewrite Hnc, Ht. cbn [negb andb].
  intros H. inv_ok H. inv_ok Hk. inv_ok Hm0. injection Hm0 as <-.
  inv_ok Hk0. destruct a0. unfold sg_free_table, kfree, bind, emit in Hk.
  injection Hk as <-.
  apply free_single_pages in Hm0 as (pgs & Epg & Etr & _ & Hother & Hcount); [|done..].
  assert (pools w0 = pools w /\
          trace w0 = trace w ++ (if negb (ION_FLAG_NOZEROED (buf_flags buffer))
                                 then [Ev_buffer_zero t] else [])) as [Ep Ez].
  { destruct (ION_FLAG_NOZEROED (buf_flags buffer)); cbn [negb] in *.
    - inv_ok Hm. by rewrite app_nil_r.
    - unfold ion_heap_buffer_zero in Hm. rewrite Ht in Hm. by inv_ok Hm. }
  rewrite Ep in Hother, Hcount.
  exists pgs. split; [done|]. cbn [log trace pools]. split; [|done].
  by rewrite Etr, Ez, <- !app_assoc.
Qed.

(** C3, as the code has it.  A buffer that is not cached is allocated with
    [FAULT_USER_MAPPINGS], for a size whose padding fits a [long], and
    freed; the release returns.  Then its table has one entry of one page
    for every page of the padded size, and each of these pages is returned
    through [ion_page_pool_free] to the pool at position 2 of the pool
    array, the pool of order 0, in table order: no page is released to the
    host, the other pools are as they were, and the pool of order 0 holds as
    many pages more as the table has entries.  And whatever buffer
    [ion_system_heap_free] releases, a call of [__free_page] or
    [__free_pages] is made only if the buffer is cached, [__free_page] only
    if it has split pages as well. *)
Theorem split_uncached_free_pools buffer size align flags w0 b' w1 w w' :
  ion_buffer_cached buffer = false ->
  ion_buffer_fault_user_mappings buffer = true ->
  0 < size <= 2 ^ 31 - PAGE_SIZE ->
  ion_system_heap_allocate buffer size align flags w0 = Ok ((0, b'), w1) ->
  ion_system_heap_free (mapped b') w = Ok (tt, w') ->
  orders !! 2%nat = Some 0 /\
  (exists t pgs,
     buf_sg_table (mapped b') = Some t /\
     Forall (fun sg => sg_dma_len sg = PAGE_SIZE) (visited t) /\
     Z.of_nat (length (visited t)) = PAGE_ALIGN size / PAGE_SIZE /\
     sg_page <$> visited t = Some <$> pgs /\
     trace w'
     = trace w
       ++ (if negb (ION_FLAG_NOZEROED (buf_flags buffer)) then [Ev_buffer_zero t] else [])
       ++ (Ev_pool_free 2 <$> pgs)
       ++ [Ev_sg_free_table (table_addr t); Ev_kfree (table_addr t)] /\
     after (fun e => ~ is_host_free e) w w' /\
     (forall idx, idx <> 2%nat -> pools w' !! idx = pools w !! idx) /\
     pool_count <$> (pools w' !! 2%nat)
       = (fun c => c + Z.of_nat (length (visited t)))
           <$> (pool_count <$> (pools w !! 2%nat))) /\
  (forall b2 w2 w2',
     ion_system_heap_free b2 w2 = Ok (tt, w2') ->
     after (host_free_of b2) w2 w2').
Proof.
  intros Hnc Hs Hsize Ha Hf. split; [done|]. split.
  - pose proof (allocate_keeps_flags _ _ _ _ _ _ _ _ Ha) as Hflags.
    assert (ion_buffer_cached (mapped b') = false) as Hnc'
      by (unfold ion_buffer_cached, mapped; cbn [buf_flags]; by rewrite Hflags).
    apply allocate_in_range in Ha as (pages & wl & _ & Hall & Hsum & ta & Hpriv); [|done].
    rewrite Hs in Hpriv.
    set (t := {| table_addr := ta; sgl := entries true pages;
                 nents := Z.of_nat (length (entries true pages)) |}) in *.
    assert (buf_sg_table (mapped b') = Some t) as Ht
      by (unfold mapped, ion_system_heap_map_dma; cbn [buf_sg_table]; by rewrite Hpriv).
    assert (visited t = entries true pages) as Hv
      by (unfold visited, t; cbn [sgl nents]; by rewrite Nat2Z.id, firstn_all).
    assert (Forall (fun sg => sg_dma_len sg = PAGE_SIZE) (visited t)) as Hone
      by (rewrite Hv; apply split_entries_single).
    assert (Z.of_nat (length (visited t)) = PAGE_ALIGN size / PAGE_SIZE) as Hlen.
    { rewrite Hv, <- Hsum, <- (entries_split_length pages Hall), Z.div_mul; [done|].
      by rewrite PAGE_SIZE_eq. }
    destruct (free_uncached_single_pages (mapped b') t w w' Hnc' Ht Hone Hf)
      as (pgs & Epg & T & Hother & Hcount).
    change (buf_flags (mapped b')) with (buf_flags b') in T. rewrite Hflags in T.
    exists t, pgs. split; [done|]. split; [done|]. split; [done|].
    split; [done|]. split; [done|]. split; [|done].
    eexists. split; [exact T|].
    apply Forall_app. split; [destruct (negb _); repeat constructor; exact id|].
    apply Forall_app. split; [|repeat constructor; exact id].
    apply Forall_fmap, Forall_forall. intros p _. exact id.
  - intros b2 w2 w2' H. by apply keeps_free_host_of in H.
Qed.

Lemma split_uncached_free_pools_witness :
  ion_buffer_cached buffer_split = false /\
  ion_buffer_fault_user_mappings buffer_split = true /\
  0 < 65536 <= 2 ^ 31 - PAGE_SIZE /\
  ion_system_heap_allocate buffer_split 65536 0 0 world_fresh
    = Ok ((0, buffer_split'), world_split') /\
  ion_system_heap_free (mapped buffer_split') world_split' = Ok (tt, world_split'') /\
  orders !! 2%nat = Some 0 /\
  (exists t pgs,
     buf_sg_table (mapped buffer_split') = Some t /\
     Forall (fun sg => sg_dma_len sg = PAGE_SIZE) (visited t) /\
     Z.of_nat (length (visited t)) = PAGE_ALIGN 65536 / PAGE_SIZE /\
     sg_page <$> visited t = Some <$> pgs /\
     trace world_split''
     = trace world_split'
       ++ (if negb (ION_FLAG_NOZEROED (buf_flags buffer_split))
           then [Ev_buffer_zero t] else [])
       ++ (Ev_pool_free 2 <$> pgs)
       ++ [Ev_sg_free_table (table_addr t); Ev_kfree (table_addr t)] /\
     after (fun e => ~ is_host_free e) world_split' world_split'' /\
     (forall idx, idx <> 2%nat -> pools world_split'' !! idx = pools world_split' !! idx) /\
     pool_count <$> (pools world_split'' !! 2%nat)
       = (fun c => c + Z.of_nat (length (visited t)))
           <$> (pool_count <$> (pools world_split' !! 2%nat))) /\
  (forall b2 w2 w2',
     ion_system_heap_free b2 w2 = Ok (tt, w2') ->
     after (host_free_of b2) w2 w2').
Proof.
  split; [reflexivity|]. split; [reflexivity|]. split; [rewrite PAGE_SIZE_eq; lia|].
  split; [vm_compute; reflexivity|]. split; [vm_compute; reflexivity|].
  apply (split_uncached_free_pools buffer_split 65536 0 0 world_fresh buffer_split'
           world_split' world_split' world_split'');
    [reflexivity | reflexivity | rewrite PAGE_SIZE_eq; lia
    | vm_compute; reflexivity | vm_compute; reflexivity].
Defined.

(** C3, as the claim has it, fails on the buffer of scenario 6 when the
    buffer is not cached: the release returns, no page is released to the
    host, sixteen pages are returned to the pool of order 0, and the counters
    of that pool are not what they were. *)
Lemma split_uncached_free_changes_pools :
  ion_buffer_cached (mapped buffer_split') = false /\
  ion_buffer_fault_user_mappings (mapped buffer_split') = true /\
  ion_system_heap_allocate buffer_split 65536 0 0 world_fresh
    = Ok ((0, buffer_split'), world_split') /\
  ion_system_heap_free (mapped buffer_split') world_split' = Ok (tt, world_split'') /\
  Forall (fun e => ~ is_host_free e) (trace world_split'') /\
  In (Ev_pool_free 2 0x1000) (trace world_split'') /\
  pool_count <$> pools world_split' = [0; 0; 0] /\
  pool_count <$> pools world_split'' = [0; 0; 16] /\
  low_count <$> pools world_split'' <> low_count <$> pools world_split'.
Proof.
  split; [reflexivity|]. split; [reflexivity|].
  split; [vm_compute; reflexivity|]. split; [vm_compute; reflexivity|].
  split; [vm_compute; repeat constructor; exact id|].
  split; [|split; [reflexivity | split; [reflexivity | discriminate]]].
  vm_compute. tauto.
Qed.

(** C10.  The memory of a buffer that the contiguous heap allocates is the
    block that the slab allocator grants to the one call the allocation
    makes, a call of [kmalloc] for [len] bytes with [__GFP_ZERO] among its
    flags, that is [kzalloc]: it is [len] bytes that are all zero, whatever
    the memory held before. *)
Theorem contig_allocation_zeroed buffer len align flags w b' w' :
  ion_system_contig_heap_allocate buffer len align flags w = Ok ((0, b'), w') ->
  exists m,
    priv_virt b' = Priv_mem m /\
    trace w' = trace w ++ [Ev_kmalloc len (Z.lor GFP_KERNEL __GFP_ZERO) (Some (kaddr m))] /\
    Z.land (Z.lor GFP_KERNEL __GFP_ZERO) __GFP_ZERO = __GFP_ZERO /\
    length (kbytes m) = Z.to_nat len /\
    Forall (fun byte => byte = 0) (kbytes m).
Proof.
  intros H. apply contig_allocate_spec in H as (m & -> & Hlen & Hz & _ & T).
  exists m. by repeat split.
Qed.

Lemma contig_allocation_zeroed_witness :
  ion_system_contig_heap_allocate buffer_contig 8 0 0 world_stale
    = Ok ((0, buffer_contig'), world_stale') /\
  exists m,
    priv_virt buffer_contig' = Priv_mem m /\
    trace world_stale'
    = trace world_stale ++ [Ev_kmalloc 8 (Z.lor GFP_KERNEL __GFP_ZERO) (Some (kaddr m))] /\
    Z.land (Z.lor GFP_KERNEL __GFP_ZERO) __GFP_ZERO = __GFP_ZERO /\
    length (kbytes m) = Z.to_nat 8 /\
    Forall (fun byte => byte = 0) (kbytes m).
Proof.
  split; [vm_compute; reflexivity|].
  apply (contig_allocation_zeroed buffer_contig 8 0 0 world_stale
           buffer_contig' world_stale').
  vm_compute; reflexivity.
Defined.
